(** * Remote retrieval session controller (DinoRetrievalApp)

    A shallow embedding of the controller part of [src/app/page.tsx] and of
    the fuller revision of the same component in [src/unnamed/part_000]:
    the URL resolver, the two response decoders, the memoized connection
    getter and the three asynchronous handlers, run on an explicit event
    loop. *)

From Stdlib Require Import String Ascii List ZArith QArith Qpower Qabs Bool Lia.
From stdpp Require Import base option gmap.

Import ListNotations.
Local Open Scope string_scope.

(** ** Strings as the JavaScript built-ins see them

    A text is kept as the string of its UTF-8 bytes.  Every pattern, label
    and separator of the program is ASCII, and an ASCII byte never occurs
    inside the encoding of another character, so searching, splitting and
    replacing give the same result on bytes as on UTF-16 code units. *)

Module JS.

(** [s.startsWith(p)], returning what follows the prefix. *)
Fixpoint strip_prefix (p s : string) : option string :=
  match p with
  | EmptyString => Some s
  | String a p' =>
      match s with
      | EmptyString => None
      | String b s' => if Ascii.eqb a b then strip_prefix p' s' else None
      end
  end.

(** [s.replace(pat, rep)] with a string pattern: only the first occurrence,
    scanning from the left, is replaced.  The replacement strings of the
    program hold no [$], so no substitution pattern is involved. *)
Fixpoint replace (pat rep s : string) : string :=
  match strip_prefix pat s with
  | Some rest => rep ++ rest
  | None =>
      match s with
      | EmptyString => EmptyString
      | String c s' => String c (replace pat rep s')
      end
  end.

(** [s.split(sep)] for a one-character separator: the accumulator [cur]
    holds the segment read so far.  The result is never empty. *)
Fixpoint split_go (sep : ascii) (cur : string) (s : string) : list string :=
  match s with
  | EmptyString => [cur]
  | String c s' =>
      if Ascii.eqb c sep then cur :: split_go sep EmptyString s'
      else split_go sep (cur ++ String c EmptyString) s'
  end.

Definition split (sep : ascii) (s : string) : list string :=
  split_go sep EmptyString s.

(** Truthiness of a [string | undefined] value. *)
Definition truthy (v : option string) : bool :=
  match v with
  | Some (String _ _) => true
  | _ => false
  end.

(** [a || b] on [string | undefined] values. *)
Definition or (a b : option string) : option string :=
  if truthy a then a else b.

(** [a || d] where the right operand is a string literal. *)
Definition or_else (a : option string) (d : string) : string :=
  match a with
  | Some (String c s) => String c s
  | _ => d
  end.

(** *** Character classes *)

Definition is_digit (c : ascii) : bool :=
  (Ascii.leb "0" c && Ascii.leb c "9")%bool.

(** The class [[\d.]] of the percentage patterns. *)
Definition is_num_char (c : ascii) : bool :=
  (is_digit c || Ascii.eqb c ".")%bool.

(** ASCII members of StrWhiteSpaceChar: TAB, LF, VT, FF, CR, SP. *)
Definition is_space (c : ascii) : bool :=
  (Ascii.eqb c "009" || Ascii.eqb c "010" || Ascii.eqb c "011"
   || Ascii.eqb c "012" || Ascii.eqb c "013" || Ascii.eqb c " ")%bool.

(** Longest prefix of [s] in the class [p], and what follows it. *)
Fixpoint span (p : ascii -> bool) (s : string) : string * string :=
  match s with
  | EmptyString => (EmptyString, EmptyString)
  | String c s' =>
      if p c then let '(a, b) := span p s' in (String c a, b)
      else (EmptyString, s)
  end.

Fixpoint drop_while (p : ascii -> bool) (s : string) : string :=
  match s with
  | EmptyString => EmptyString
  | String c s' => if p c then drop_while p s' else s
  end.

(** *** Numbers

    A JavaScript number is an IEEE 754 binary64 value.  The finite ones
    are kept as the rational they denote, stored reduced so that equal
    numbers are equal terms; the negative zero has a constructor of its
    own.  What [parseFloat] and [parseInt] return is built by [binary64]
    below, which rounds the value of a literal to the nearest binary64
    value. *)

Inductive number :=
| NaN
| Infinity (negative : bool)
| NegZero
| Num (q : Q).

(** Whether [n / d] is at least [2 ^ l], for positive [n] and [d]. *)
Definition at_least_pow2 (n d l : Z) : bool :=
  if (0 <=? l)%Z then (d * 2 ^ l <=? n)%Z else (d <=? n * 2 ^ (- l))%Z.

(** The exponent of the unit in the last place of [n / d]: the floor of
    its binary logarithm less the 52 fraction bits, and never below the
    exponent of the subnormal numbers. *)
Definition binary_exponent (n d : Z) : Z :=
  let l := (Z.log2 n - Z.log2 d)%Z in
  let fl := if at_least_pow2 n d l then l else (l - 1)%Z in
  Z.max (fl - 52) (-1074).

(** [num / den] to the nearest integer, a tie going to the even one. *)
Definition round_half_even (num den : Z) : Z :=
  let k := (num / den)%Z in
  match (2 * (num mod den) ?= den)%Z with
  | Lt => k
  | Gt => (k + 1)%Z
  | Eq => if Z.even k then k else (k + 1)%Z
  end.

(** The Number value of a real that is not negative: the binary64 value
    nearest to it, a tie going to the even significand, and [Infinity]
    when the rounding reaches [2 ^ 1024].  The literal is rounded once,
    from its exact value, whatever its length, as V8 and the other
    current engines do (the standard also lets an engine drop the digits
    after the twentieth first). *)
Definition binary64 (q : Q) : number :=
  let n := Qnum q in
  let d := Zpos (Qden q) in
  if (n <=? 0)%Z then Num 0
  else
    let e := binary_exponent n d in
    if (0 <=? e)%Z then
      let m := round_half_even n (d * 2 ^ e) in
      if (2 ^ 1024 <=? m * 2 ^ e)%Z then Infinity false
      else Num (inject_Z (m * 2 ^ e))
    else
      let m := round_half_even (n * 2 ^ (- e)) d in
      Num (Qred (m # Z.to_pos (2 ^ (- e)))).

(** Unary minus. *)
Definition negate (x : number) : number :=
  match x with
  | NaN => NaN
  | Infinity b => Infinity (negb b)
  | NegZero => Num 0
  | Num q => if Qeq_bool q 0 then NegZero else Num (Qred (- q))
  end.

Definition signed (neg : bool) (x : number) : number :=
  if neg then negate x else x.

Definition digit_val (c : ascii) : N := (N_of_ascii c - 48)%N.

Fixpoint digits_val (acc : N) (s : string) : N :=
  match s with
  | EmptyString => acc
  | String c s' => digits_val (acc * 10 + digit_val c)%N s'
  end.

(** An optional [+] or [-]: [true] for a minus sign. *)
Definition read_sign (s : string) : bool * string :=
  match s with
  | String "-" s' => (true, s')
  | String "+" s' => (false, s')
  | _ => (false, s)
  end.

(** ExponentPart: [e] or [E], an optional sign, at least one digit.
    Without digits the exponent is not part of the literal. *)
Definition read_exponent (s : string) : Z :=
  match s with
  | String c s' =>
      if (Ascii.eqb c "e" || Ascii.eqb c "E")%bool then
        let '(neg, r) := read_sign s' in
        let '(ds, _) := span is_digit r in
        match ds with
        | EmptyString => 0%Z
        | _ => let e := Z.of_N (digits_val 0 ds) in if neg then (- e)%Z else e
        end
      else 0%Z
  | EmptyString => 0%Z
  end.

(** [parseFloat(s)]: leading white space is skipped, then the longest
    prefix that is a StrDecimalLiteral is read; [NaN] when there is none.
    The result is the binary64 value nearest to the number the literal
    writes. *)
Definition parseFloat (s : string) : number :=
  let '(neg, r) := read_sign (drop_while is_space s) in
  match strip_prefix "Infinity" r with
  | Some _ => Infinity neg
  | None =>
      let '(ip, r1) := span is_digit r in
      let '(fp, r2) :=
        match r1 with
        | String "." r1' => span is_digit r1'
        | _ => (EmptyString, r1)
        end in
      match ip, fp with
      | EmptyString, EmptyString => NaN
      | _, _ =>
          let mant := Z.of_N (digits_val 0 (ip ++ fp)) in
          let e := (read_exponent r2 - Z.of_nat (String.length fp))%Z in
          signed neg (binary64 (inject_Z mant * Qpower (inject_Z 10) e))
      end
  end.

Definition is_hex_digit (c : ascii) : bool :=
  (is_digit c || (Ascii.leb "a" c && Ascii.leb c "f")
   || (Ascii.leb "A" c && Ascii.leb c "F"))%bool.

Definition hex_val (c : ascii) : N :=
  if is_digit c then digit_val c
  else if Ascii.leb "a" c then (N_of_ascii c - 87)%N
  else (N_of_ascii c - 55)%N.

Fixpoint hex_digits_val (acc : N) (s : string) : N :=
  match s with
  | EmptyString => acc
  | String c s' => hex_digits_val (acc * 16 + hex_val c)%N s'
  end.

(** [parseInt(s)] without a radix: white space, a sign, a [0x] prefix for
    base sixteen, then the longest run of digits of the base.  The result
    is the binary64 value nearest to the integer the digits write. *)
Definition parseInt (s : string) : number :=
  let '(neg, r) := read_sign (drop_while is_space s) in
  let hex :=
    match r with
    | String "0" (String x r') =>
        if (Ascii.eqb x "x" || Ascii.eqb x "X")%bool then Some r' else None
    | _ => None
    end in
  match hex with
  | Some r' =>
      match fst (span is_hex_digit r') with
      | EmptyString => NaN
      | ds => signed neg (binary64 (inject_Z (Z.of_N (hex_digits_val 0 ds))))
      end
  | None =>
      match fst (span is_digit r) with
      | EmptyString => NaN
      | ds => signed neg (binary64 (inject_Z (Z.of_N (digits_val 0 ds))))
      end
  end.

(** *** Regular expressions

    Every regular expression of the program has the shape
    [/label(class+)tail/]: literal text, one capture group holding a greedy
    run of one character class, literal text. *)

Record RegExp := {
  label : string;
  class : ascii -> bool;
  tail : string
}.

(** [(class+)tail] anchored at the head of [s], as a backtracking matcher
    runs it: the group first tries to take one more character, and gives
    characters back until [tail] matches.  Returns the capture. *)
Fixpoint match_group (cls : ascii -> bool) (tl : string) (s : string)
  : option string :=
  match s with
  | EmptyString => None
  | String c s' =>
      if cls c then
        match match_group cls tl s' with
        | Some cap => Some (String c cap)
        | None =>
            match strip_prefix tl s' with
            | Some _ => Some (String c EmptyString)
            | None => None
            end
        end
      else None
  end.

(** The whole pattern anchored at the head of [s]. *)
Definition match_here (re : RegExp) (s : string) : option string :=
  match strip_prefix (label re) s with
  | Some r => match_group (class re) (tail re) r
  | None => None
  end.

(** [s.match(re)?.[1]] for a pattern without flags: the capture of the
    leftmost match, [None] for [undefined]. *)
Fixpoint exec (re : RegExp) (s : string) : option string :=
  match match_here re s with
  | Some cap => Some cap
  | None =>
      match s with
      | EmptyString => None
      | String _ s' => exec re s'
      end
  end.

End JS.

(** ** Types *)

Record GradioImageData := { d_url : option string; d_path : option string }.

Record GradioImage := {
  image : option GradioImageData;
  url : option string;
  path : option string;
  caption : option string
}.

(** ** Utility functions *)

(** [item.image?.url] and [item.image?.path]. *)
Definition image_url (item : GradioImage) : option string :=
  match image item with Some d => d_url d | None => None end.

Definition image_path (item : GradioImage) : option string :=
  match image item with Some d => d_path d | None => None end.

Definition getImageUrl (item : option GradioImage) : string :=
  match item with
  | None => ""
  | Some item =>
      JS.or_else
        (JS.or (JS.or (JS.or (image_url item) (image_path item)) (url item))
           (path item))
        ""
  end.

Record Caption := { className : string; sim : string }.

Definition parseCaption (caption : option string) : Caption :=
  if negb (JS.truthy caption) then {| className := "Unknown"; sim := "0.000" |}
  else
    let parts := JS.split "010" (default "" caption) in
    let className :=
      JS.or_else
        (JS.replace "Label: " "" <$> (JS.replace "Class: " "" <$> parts !! 0%nat))
        "Unknown" in
    let sim := JS.or_else (JS.replace "Sim: " "" <$> parts !! 1%nat) "0.000" in
    {| className := className; sim := sim |}.


Record Recall := { r1 : JS.number; r5 : JS.number; r10 : JS.number; r100 : JS.number }.

Record ParsedStats := {
  precision : JS.number;
  mapR : JS.number;
  recall : Recall;
  embeddings : string;
  dim : JS.number
}.

(** [/<label>: ([\d.]+)%/] *)
Definition percent_re (name : string) : JS.RegExp :=
  {| JS.label := name ++ ": "; JS.class := JS.is_num_char; JS.tail := "%" |}.

(** [/<label>: (\d+)/] *)
Definition count_re (name : string) : JS.RegExp :=
  {| JS.label := name ++ ": "; JS.class := JS.is_digit; JS.tail := "" |}.

Definition getNum (raw : string) (regex : JS.RegExp) : JS.number :=
  match JS.exec regex raw with
  | Some m1 => JS.parseFloat m1
  | None => JS.Num 0
  end.

(** The body of the [try] block only calls [match], [parseFloat] and
    [parseInt] on strings, none of which throws: on a string argument the
    [catch] branch, which returns [null], is never taken. *)
Definition parseStats (raw : string) : option ParsedStats :=
  Some {|
    precision := getNum raw (percent_re "Precision@1");
    mapR := getNum raw (percent_re "MAP@R");
    recall := {|
      r1 := getNum raw (percent_re "R@1");
      r5 := getNum raw (percent_re "R@5");
      r10 := getNum raw (percent_re "R@10");
      r100 := getNum raw (percent_re "R@100")
    |};
    embeddings := JS.or_else (JS.exec (count_re "Total embeddings") raw) "0";
    dim := JS.parseInt (JS.or_else (JS.exec (count_re "Embedding dimension") raw) "0")
  |}.

(** ** The session controller *)

(** The two revisions of the component under [src/]. *)
Inductive Version :=
| PageTsx    (* src/app/page.tsx *)
| Part000.   (* src/unnamed/part_000 *)

(** The handle that [Client.connect] resolves to. *)
Inductive Client := Handle (n : nat).

(** A [File] or [Blob]: only its identity matters here. *)
Inductive Blob := BlobOf (n : nat).

(** The argument of [handleSearch]. *)
Inductive Source :=
| Binary (b : Blob)             (* source instanceof File || source instanceof Blob *)
| Reference (img : GradioImage).

(** [dataset], [size], [isFinetuned]: the dependencies of the load effect. *)
Record Config := {
  dataset : string;
  size : string;
  isFinetuned : bool
}.

(** The [useState] cells the handlers write. *)
Record UI := {
  status : string;
  stats : option ParsedStats;
  examples : list GradioImage;
  results : list GradioImage;
  activeQuery : option string;
  isLoading : bool;
  isExamplesLoading : bool;
  isSearching : bool
}.

(** The [image_input] of a [/process_image] call. *)
Inductive ImageInput :=
| InputBlob (b : Blob)
| InputHandleFile (u : string).   (* handle_file(getImageUrl(source)) *)

(** The payload of [client.predict], one constructor per endpoint. *)
Inductive Request :=
| LoadResources (dataset dino_version dino_size : string) (is_finetuned : bool)
| RefreshExamplesWrapper
| ProcessImage (image_input : ImageInput) (k_neighbors : Z).

(** A call made to the outside, by the handler instance [t]. *)
Inductive Call :=
| Connect (t : nat)                           (* Client.connect(...) *)
| Predict (t : nat) (c : Client) (r : Request).

(** Where a running handler instance is suspended. *)
Inductive Task :=
| SearchConnecting (source : Source) (k : Z)  (* handleSearch: await getGradioClient() *)
| SearchPredicting                            (* handleSearch: await client.predict(...) *)
| LoadConnecting (cfg : Config)               (* loadResources: await getGradioClient() *)
| LoadPredicting (c : Client)                 (* loadResources: await client.predict("/load_resources") *)
| LoadExamplesPredicting                      (* page.tsx loadResources: second predict *)
| RefreshConnecting (inLoad : bool)           (* refreshExamples: await getGradioClient() *)
| RefreshPredicting (inLoad : bool).          (* refreshExamples: await client.predict(...) *)

Record State := {
  cfg : Config;
  topK : Z;
  ui : UI;
  clientRef : option Client;
  mounted : bool;
  minted : nat;                 (* object URLs created so far *)
  tasks : gmap nat Task;        (* suspended handler instances *)
  nextId : nat;                 (* handler instances started so far *)
  calls : list Call             (* calls made so far, oldest first *)
}.

Inductive Outcome (A : Type) :=
| Resolved (a : A)
| Rejected.
Arguments Resolved {A} a.
Arguments Rejected {A}.

(** What the user and the network can do to the component. *)
Inductive Event :=
| Mount
| SetDataset (d : string)
| SetSize (v : string)
| ToggleFinetuned
| SetTopK (k : Z)
| TriggerSearch (source : Source)
| ClickRefresh
| ConnectSettled (t : nat) (o : Outcome Client)
| LoadSettled (t : nat) (o : Outcome (string * string))
| ExamplesSettled (t : nat) (o : Outcome (option (list GradioImage)))
| SearchSettled (t : nat) (o : Outcome (list GradioImage * string)).

(** *** State setters *)

Definition Action := State -> State.

Definition seq (a b : Action) : Action := fun s => b (a s).
Notation "a >> b" := (seq a b) (at level 61, left associativity).

Definition skip : Action := fun s => s.

Definition with_ui (f : UI -> UI) : Action := fun s =>
  {| cfg := cfg s; topK := topK s; ui := f (ui s); clientRef := clientRef s;
     mounted := mounted s; minted := minted s; tasks := tasks s;
     nextId := nextId s; calls := calls s |}.

Definition setStatus (v : string) : Action := with_ui (fun u =>
  {| status := v; stats := stats u; examples := examples u;
     results := results u; activeQuery := activeQuery u;
     isLoading := isLoading u; isExamplesLoading := isExamplesLoading u;
     isSearching := isSearching u |}).

Definition setStats (v : option ParsedStats) : Action := with_ui (fun u =>
  {| status := status u; stats := v; examples := examples u;
     results := results u; activeQuery := activeQuery u;
     isLoading := isLoading u; isExamplesLoading := isExamplesLoading u;
     isSearching := isSearching u |}).

Definition setExamples (v : list GradioImage) : Action := with_ui (fun u =>
  {| status := status u; stats := stats u; examples := v;
     results := results u; activeQuery := activeQuery u;
     isLoading := isLoading u; isExamplesLoading := isExamplesLoading u;
     isSearching := isSearching u |}).

Definition setResults (v : list GradioImage) : Action := with_ui (fun u =>
  {| status := status u; stats := stats u; examples := examples u;
     results := v; activeQuery := activeQuery u;
     isLoading := isLoading u; isExamplesLoading := isExamplesLoading u;
     isSearching := isSearching u |}).

Definition setActiveQuery (v : option string) : Action := with_ui (fun u =>
  {| status := status u; stats := stats u; examples := examples u;
     results := results u; activeQuery := v;
     isLoading := isLoading u; isExamplesLoading := isExamplesLoading u;
     isSearching := isSearching u |}).

Definition setIsLoading (v : bool) : Action := with_ui (fun u =>
  {| status := status u; stats := stats u; examples := examples u;
     results := results u; activeQuery := activeQuery u;
     isLoading := v; isExamplesLoading := isExamplesLoading u;
     isSearching := isSearching u |}).

Definition setIsExamplesLoading (v : bool) : Action := with_ui (fun u =>
  {| status := status u; stats := stats u; examples := examples u;
     results := results u; activeQuery := activeQuery u;
     isLoading := isLoading u; isExamplesLoading := v;
     isSearching := isSearching u |}).

Definition setIsSearching (v : bool) : Action := with_ui (fun u =>
  {| status := status u; stats := stats u; examples := examples u;
     results := results u; activeQuery := activeQuery u;
     isLoading := isLoading u; isExamplesLoading := isExamplesLoading u;
     isSearching := v |}).

Definition setCfg (c : Config) : Action := fun s =>
  {| cfg := c; topK := topK s; ui := ui s; clientRef := clientRef s;
     mounted := mounted s; minted := minted s; tasks := tasks s;
     nextId := nextId s; calls := calls s |}.

Definition setTopK (k : Z) : Action := fun s =>
  {| cfg := cfg s; topK := k; ui := ui s; clientRef := clientRef s;
     mounted := mounted s; minted := minted s; tasks := tasks s;
     nextId := nextId s; calls := calls s |}.

Definition setClientRef (c : Client) : Action := fun s =>
  {| cfg := cfg s; topK := topK s; ui := ui s; clientRef := Some c;
     mounted := mounted s; minted := minted s; tasks := tasks s;
     nextId := nextId s; calls := calls s |}.

Definition setMounted : Action := fun s =>
  {| cfg := cfg s; topK := topK s; ui := ui s; clientRef := clientRef s;
     mounted := true; minted := minted s; tasks := tasks s;
     nextId := nextId s; calls := calls s |}.

Definition mint : Action := fun s =>
  {| cfg := cfg s; topK := topK s; ui := ui s; clientRef := clientRef s;
     mounted := mounted s; minted := S (minted s); tasks := tasks s;
     nextId := nextId s; calls := calls s |}.

(** The instance [t] is suspended at [k]. *)
Definition suspend (t : nat) (k : Task) : Action := fun s =>
  {| cfg := cfg s; topK := topK s; ui := ui s; clientRef := clientRef s;
     mounted := mounted s; minted := minted s; tasks := <[t := k]> (tasks s);
     nextId := nextId s; calls := calls s |}.

(** The instance [t] has returned. *)
Definition finish (t : nat) : Action := fun s =>
  {| cfg := cfg s; topK := topK s; ui := ui s; clientRef := clientRef s;
     mounted := mounted s; minted := minted s; tasks := delete t (tasks s);
     nextId := nextId s; calls := calls s |}.

(** A handler is called: its instance gets the next number. *)
Definition spawn : Action := fun s =>
  {| cfg := cfg s; topK := topK s; ui := ui s; clientRef := clientRef s;
     mounted := mounted s; minted := minted s; tasks := tasks s;
     nextId := S (nextId s); calls := calls s |}.

Definition call (c : Call) : Action := fun s =>
  {| cfg := cfg s; topK := topK s; ui := ui s; clientRef := clientRef s;
     mounted := mounted s; minted := minted s; tasks := tasks s;
     nextId := nextId s; calls := calls s ++ [c] |}.

Definition searching_status (v : Version) : string :=
  match v with
  | PageTsx => "Analyzing Visual Features..."
  | Part000 => "Analyzing Visual Semantics..."
  end.

Definition loading_status (v : Version) : string :=
  match v with
  | PageTsx => "Loading Model & Index..."
  | Part000 => "Downloading Weights & Mapping..."
  end.

Definition config_eqb (a b : Config) : bool :=
  (String.eqb (dataset a) (dataset b) && String.eqb (size a) (size b)
   && Bool.eqb (isFinetuned a) (isFinetuned b))%bool.

Definition initial : State := {|
  cfg := {| dataset := "Cars196"; size := "b"; isFinetuned := false |};
  topK := 10;
  ui := {| status := "Initializing..."; stats := None; examples := [];
           results := []; activeQuery := None; isLoading := false;
           isExamplesLoading := false; isSearching := false |};
  clientRef := None;
  mounted := false;
  minted := 0;
  tasks := ∅;
  nextId := 0;
  calls := []
|}.

Section Controller.

(** [URL.createObjectURL] belongs to the browser: the URL it returns for
    a blob on its [n]-th call. *)
Variable createObjectURL : nat -> Blob -> string.

(** *** getGradioClient

    Called by the instance [t].  With a cached handle the promise is
    already resolved and the caller goes on with it in the same turn (no
    event can come between); otherwise [Client.connect] is called and the
    caller stays suspended until that promise settles. *)
Definition getGradioClient (t : nat) (s : State) : option Client * State :=
  match clientRef s with
  | Some c => (Some c, s)
  | None => (None, call (Connect t) s)
  end.

(** The two lines after [await Client.connect(...)]. *)
Definition getGradioClient_connected (client : Client) : Action :=
  setClientRef client.

(** *** handleSearch *)

Definition previewUrl (source : Source) (s : State) : string :=
  match source with
  | Binary b => createObjectURL (minted s) b
  | Reference img => getImageUrl (Some img)
  end.

(** The statements before the [try] block. *)
Definition handleSearch_begin (v : Version) (source : Source) : Action :=
  setIsSearching true >> setStatus (searching_status v) >>
  (fun s =>
     (match source with Binary _ => mint | Reference _ => skip end
      >> setActiveQuery (Some (previewUrl source s))) s).

Definition search_input (source : Source) : ImageInput :=
  match source with
  | Binary b => InputBlob b
  | Reference img => InputHandleFile (getImageUrl (Some img))
  end.

Definition handleSearch_predict (t : nat) (client : Client) (source : Source)
    (k : Z) : Action :=
  call (Predict t client (ProcessImage (search_input source) k))
  >> suspend t SearchPredicting.

Definition handleSearch_finally (t : nat) : Action :=
  setIsSearching false >> finish t.

Definition handleSearch_resolved (t : nat) (data : list GradioImage * string)
  : Action :=
  setResults (fst data) >> setStatus (snd data) >> handleSearch_finally t.

Definition handleSearch_catch (t : nat) : Action :=
  setStatus "Search Failed" >> handleSearch_finally t.

(** Entering the [try] block: [await getGradioClient()], then the call. *)
Definition handleSearch_try (t : nat) (source : Source) (k : Z) : Action :=
  fun s =>
  match getGradioClient t s with
  | (Some client, s') => handleSearch_predict t client source k s'
  | (None, s') => suspend t (SearchConnecting source k) s'
  end.

(** [topK] is the value the callback closed over when it was created. *)
Definition handleSearch (v : Version) (source : Source) : Action := fun s =>
  (spawn >> handleSearch_begin v source
   >> handleSearch_try (nextId s) source (topK s)) s.

(** *** refreshExamples

    [inLoad] tells whether the call is the one awaited by [loadResources],
    which then runs its own [finally] when this one returns. *)

Definition refreshExamples_predict (t : nat) (client : Client) (inLoad : bool)
  : Action :=
  call (Predict t client RefreshExamplesWrapper)
  >> suspend t (RefreshPredicting inLoad).

Definition refreshExamples_from (t : nat) (inLoad : bool) : Action := fun s =>
  match getGradioClient t (setIsExamplesLoading true s) with
  | (Some client, s2) => refreshExamples_predict t client inLoad s2
  | (None, s2) => suspend t (RefreshConnecting inLoad) s2
  end.

Definition refreshExamples : Action := fun s =>
  (spawn >> refreshExamples_from (nextId s) false) s.

Definition refreshExamples_finally (t : nat) (inLoad : bool) : Action :=
  setIsExamplesLoading false
  >> (if inLoad then setIsLoading false else skip)
  >> finish t.

Definition refreshExamples_resolved (t : nat) (inLoad : bool)
    (data : option (list GradioImage)) : Action :=
  setExamples (default [] data) >> refreshExamples_finally t inLoad.

(** The [catch] block only writes to the console. *)
Definition refreshExamples_catch (t : nat) (inLoad : bool) : Action :=
  refreshExamples_finally t inLoad.

(** *** loadResources *)

Definition load_request (c : Config) : Request :=
  LoadResources (dataset c) "3" (size c) (isFinetuned c).

Definition loadResources_predict (t : nat) (client : Client) (c : Config)
  : Action :=
  call (Predict t client (load_request c)) >> suspend t (LoadPredicting client).

Definition loadResources_try (t : nat) (c : Config) : Action := fun s =>
  match getGradioClient t s with
  | (Some client, s') => loadResources_predict t client c s'
  | (None, s') => suspend t (LoadConnecting c) s'
  end.

(** The configuration is the one of the render whose effect runs. *)
Definition loadResources (v : Version) : Action := fun s =>
  (spawn >> setIsLoading true >> setStatus (loading_status v)
   >> loadResources_try (nextId s) (cfg s)) s.

Definition loadResources_finally (t : nat) : Action :=
  setIsLoading false >> finish t.

(** After the first [predict]: status and metrics are written, then the
    examples are fetched, through [refreshExamples] in [part_000]
    and by a second [predict] on the same handle in [page.tsx]. *)
Definition loadResources_resolved (v : Version) (t : nat) (client : Client)
    (data : string * string) : Action :=
  setStatus (fst data) >> setStats (parseStats (snd data)) >>
  match v with
  | Part000 => refreshExamples_from t true
  | PageTsx =>
      call (Predict t client RefreshExamplesWrapper)
      >> suspend t LoadExamplesPredicting
  end.

Definition loadResources_examples (t : nat) (data : option (list GradioImage))
  : Action :=
  setExamples (default [] data) >> loadResources_finally t.

Definition loadResources_catch (t : nat) : Action :=
  setStatus "Sync Failed" >> loadResources_finally t.

(** *** The event loop *)

(** A setter called with the value already held does not render again,
    so the effect on [dataset, size, isFinetuned] does not run. *)
Definition reconfigure (v : Version) (c : Config) : Action := fun s =>
  if config_eqb c (cfg s) then s else (setCfg c >> loadResources v) s.

Definition on_connect (t : nat) (o : Outcome Client) (k : Task)
  : option Action :=
  match k, o with
  | SearchConnecting source n, Resolved c =>
      Some (getGradioClient_connected c >> handleSearch_predict t c source n)
  | SearchConnecting _ _, Rejected => Some (handleSearch_catch t)
  | LoadConnecting c0, Resolved c =>
      Some (getGradioClient_connected c >> loadResources_predict t c c0)
  | LoadConnecting _, Rejected => Some (loadResources_catch t)
  | RefreshConnecting inLoad, Resolved c =>
      Some (getGradioClient_connected c >> refreshExamples_predict t c inLoad)
  | RefreshConnecting inLoad, Rejected => Some (refreshExamples_catch t inLoad)
  | _, _ => None
  end.

Definition on_load (v : Version) (t : nat) (o : Outcome (string * string))
    (k : Task) : option Action :=
  match k, o with
  | LoadPredicting c, Resolved data => Some (loadResources_resolved v t c data)
  | LoadPredicting _, Rejected => Some (loadResources_catch t)
  | _, _ => None
  end.

Definition on_examples (t : nat) (o : Outcome (option (list GradioImage)))
    (k : Task) : option Action :=
  match k, o with
  | RefreshPredicting inLoad, Resolved data =>
      Some (refreshExamples_resolved t inLoad data)
  | RefreshPredicting inLoad, Rejected => Some (refreshExamples_catch t inLoad)
  | LoadExamplesPredicting, Resolved data => Some (loadResources_examples t data)
  | LoadExamplesPredicting, Rejected => Some (loadResources_catch t)
  | _, _ => None
  end.

Definition on_search (t : nat) (o : Outcome (list GradioImage * string))
    (k : Task) : option Action :=
  match k, o with
  | SearchPredicting, Resolved data => Some (handleSearch_resolved t data)
  | SearchPredicting, Rejected => Some (handleSearch_catch t)
  | _, _ => None
  end.

(** One turn of the event loop; [None] when the event cannot happen in
    this state (no such promise is pending, the component is not there,
    the button is disabled). *)
Definition step (v : Version) (s : State) (e : Event) : option State :=
  match e with
  | Mount =>
      if mounted s then None else Some ((setMounted >> loadResources v) s)
  | SetDataset d =>
      if mounted s then
        Some (reconfigure v {| dataset := d; size := size (cfg s);
                               isFinetuned := isFinetuned (cfg s) |} s)
      else None
  | SetSize x =>
      if mounted s then
        Some (reconfigure v {| dataset := dataset (cfg s); size := x;
                               isFinetuned := isFinetuned (cfg s) |} s)
      else None
  | ToggleFinetuned =>
      if mounted s then
        Some (reconfigure v {| dataset := dataset (cfg s); size := size (cfg s);
                               isFinetuned := negb (isFinetuned (cfg s)) |} s)
      else None
  | SetTopK k => if mounted s then Some (setTopK k s) else None
  | TriggerSearch source =>
      if mounted s then Some (handleSearch v source s) else None
  | ClickRefresh =>
      match v with
      | Part000 =>
          if (mounted s && negb (isExamplesLoading (ui s)))%bool
          then Some (refreshExamples s) else None
      | PageTsx => None
      end
  | ConnectSettled t o =>
      k ← tasks s !! t; a ← on_connect t o k; Some (a s)
  | LoadSettled t o =>
      k ← tasks s !! t; a ← on_load v t o k; Some (a s)
  | ExamplesSettled t o =>
      k ← tasks s !! t; a ← on_examples t o k; Some (a s)
  | SearchSettled t o =>
      k ← tasks s !! t; a ← on_search t o k; Some (a s)
  end.

Fixpoint run (v : Version) (s : State) (es : list Event) : option State :=
  match es with
  | [] => Some s
  | e :: es' => s' ← step v s e; run v s' es'
  end.

End Controller.

(** ** Notions used to state the properties *)

Definition nl : string := String "010" "".

Fixpoint all_chars (p : ascii -> bool) (s : string) : bool :=
  match s with
  | EmptyString => true
  | String c s' => (p c && all_chars p s')%bool
  end.

(** A segment of a caption: a string without a line feed. *)
Definition segment (s : string) : Prop :=
  all_chars (fun c => negb (Ascii.eqb c "010")) s = true.

(** [pat] occurs in [s], and its leftmost occurrence splits [s] into
    [pre] and [post]. *)
Definition occurs_in (pat s : string) : Prop :=
  exists pre post, s = pre ++ pat ++ post.

Definition first_at (pat s pre post : string) : Prop :=
  s = pre ++ pat ++ post /\
  forall pre' post', s = pre' ++ pat ++ post' ->
    String.length pre <= String.length pre'.

(** [r] is [s] without the leftmost occurrence of [pat], if there is one. *)
Definition removed (pat s r : string) : Prop :=
  (exists pre post, first_at pat s pre post /\ r = pre ++ post)
  \/ (~ occurs_in pat s /\ r = s).

(** The candidates of the URL resolver, in priority order. *)
Definition candidates (item : GradioImage) : list (option string) :=
  [image_url item; image_path item; url item; path item].

(** A candidate that is skipped: not there, or empty. *)
Definition blank (c : option string) : Prop := c = None \/ c = Some "".

(** The caption decoder as the specification words it: a known prefix is
    stripped from each of the first two segments, and a missing segment
    gets its default. *)
Definition strip (p s : string) : string :=
  match JS.strip_prefix p s with
  | Some r => r
  | None => s
  end.

Definition decodeCaption (raw : option string) : Caption :=
  match raw with
  | None | Some EmptyString => {| className := "Unknown"; sim := "0.000" |}
  | Some s =>
      match JS.split "010" s with
      | seg1 :: seg2 :: _ =>
          {| className := strip "Label: " (strip "Class: " seg1);
             sim := strip "Sim: " seg2 |}
      | [seg1] =>
          {| className := strip "Label: " (strip "Class: " seg1);
             sim := "0.000" |}
      | [] => {| className := "Unknown"; sim := "0.000" |}
      end
  end.

(** An occurrence of the pattern [re] in [raw]: the label, a non-empty run
    [cap] of the class, the tail. *)
Definition occurs (re : JS.RegExp) (raw pre cap post : string) : Prop :=
  raw = pre ++ JS.label re ++ cap ++ JS.tail re ++ post
  /\ cap <> "" /\ all_chars (JS.class re) cap = true.

Definition present (re : JS.RegExp) (raw : string) : Prop :=
  exists pre cap post, occurs re raw pre cap post.

(** [cap] is the run of the leftmost occurrence, and the longest one
    there. *)
Definition first_capture (re : JS.RegExp) (raw cap : string) : Prop :=
  exists pre post,
    occurs re raw pre cap post /\
    forall pre' cap' post', occurs re raw pre' cap' post' ->
      String.length pre <= String.length pre' /\
      (String.length pre' = String.length pre ->
       String.length cap' <= String.length cap).

(** [s], or [d] when [s] is empty. *)
Definition nonempty_or (s d : string) : string :=
  match s with
  | EmptyString => d
  | _ => s
  end.

(** A run of digits and dots that starts with a dot which no digit
    follows: the runs from which [parseFloat] reads no number. *)
Definition dot_led (cap : string) : Prop :=
  exists r, cap = String "." r /\ (r = "" \/ exists r', r = String "." r').

(** What a percentage field of the decoded metrics holds, given the raw
    text and the pattern of the field. *)
Definition percent_field (re : JS.RegExp) (raw : string) (v : JS.number)
  : Prop :=
  (~ present re raw -> v = JS.Num 0)
  /\ (forall cap, first_capture re raw cap ->
        v = JS.parseFloat cap /\ (v = JS.NaN <-> dot_led cap)).

(** The same for the two fields read with [(\d+)]. *)
Definition count_field (re : JS.RegExp) (raw : string) (text : string)
  : Prop :=
  (~ present re raw -> text = "0")
  /\ (forall cap, first_capture re raw cap -> text = cap).

(** A metrics text made of labeled lines, and the eight fields a line
    can be for. *)
Inductive Field :=
| Precision | MapR | R1 | R5 | R10 | R100
| TotalEmbeddings | EmbeddingDimension.

Definition field_name (f : Field) : string :=
  match f with
  | Precision => "Precision@1"
  | MapR => "MAP@R"
  | R1 => "R@1"
  | R5 => "R@5"
  | R10 => "R@10"
  | R100 => "R@100"
  | TotalEmbeddings => "Total embeddings"
  | EmbeddingDimension => "Embedding dimension"
  end.

Definition is_percent (f : Field) : bool :=
  match f with
  | TotalEmbeddings | EmbeddingDimension => false
  | _ => true
  end.

Definition field_re (f : Field) : JS.RegExp :=
  if is_percent f then percent_re (field_name f) else count_re (field_name f).

Definition field_eqb (f g : Field) : bool :=
  match f, g with
  | Precision, Precision | MapR, MapR | R1, R1 | R5, R5 | R10, R10
  | R100, R100 | TotalEmbeddings, TotalEmbeddings
  | EmbeddingDimension, EmbeddingDimension => true
  | _, _ => false
  end.

Definition field_line (f : Field) (v : string) : string :=
  field_name f ++ ": " ++ v ++ (if is_percent f then "%" else "") ++ nl.

Fixpoint metrics_text (l : list (Field * string)) : string :=
  match l with
  | [] => ""
  | (f, v) :: l' => field_line f v ++ metrics_text l'
  end.

(** The value on the first line of the field [f]. *)
Fixpoint first_value (f : Field) (l : list (Field * string)) : option string :=
  match l with
  | [] => None
  | (g, v) :: l' => if field_eqb f g then Some v else first_value f l'
  end.

(** The value of a line: a non-empty run of the class of its field. *)
Definition valid_value (fv : Field * string) : Prop :=
  snd fv <> "" /\ all_chars (JS.class (field_re (fst fv))) (snd fv) = true.

Definition percent_value (o : option string) : JS.number :=
  match o with
  | Some m => JS.parseFloat m
  | None => JS.Num 0
  end.

(** Number of connection attempts among the calls made. *)
Fixpoint connects (l : list Call) : nat :=
  match l with
  | [] => 0
  | Connect _ :: l' => S (connects l')
  | Predict _ _ _ :: l' => connects l'
  end.

(** The call is a [predict] on the handle [c]. *)
Definition predict_on (c : Client) (x : Call) : Prop :=
  exists t r, x = Predict t c r.

(** Events of the user, as opposed to settlements of promises. *)
Definition user_event (e : Event) : bool :=
  match e with
  | Mount | SetDataset _ | SetSize _ | ToggleFinetuned | SetTopK _
  | TriggerSearch _ | ClickRefresh => true
  | _ => false
  end.

(** The instance is suspended in [getGradioClient]. *)
Definition connecting (k : Task) : bool :=
  match k with
  | SearchConnecting _ _ | LoadConnecting _ | RefreshConnecting _ => true
  | _ => false
  end.

(** The instance belongs to [loadResources] itself, not to a nested
    [refreshExamples]. *)
Definition loading (k : Task) : bool :=
  match k with
  | LoadConnecting _ | LoadPredicting _ | LoadExamplesPredicting => true
  | _ => false
  end.

(** The rejection of the promise that the instance [t], suspended at [k],
    is waiting for. *)
Definition failure_of (t : nat) (k : Task) : Event :=
  match k with
  | SearchConnecting _ _ | LoadConnecting _ | RefreshConnecting _ =>
      ConnectSettled t Rejected
  | SearchPredicting => SearchSettled t Rejected
  | LoadPredicting _ => LoadSettled t Rejected
  | LoadExamplesPredicting | RefreshPredicting _ => ExamplesSettled t Rejected
  end.

(** The status after the [catch] block of the handler suspended at [k],
    when it was [old] before. *)
Definition failure_status (k : Task) (old : string) : string :=
  match k with
  | SearchConnecting _ _ | SearchPredicting => "Search Failed"
  | LoadConnecting _ | LoadPredicting _ | LoadExamplesPredicting =>
      "Sync Failed"
  | RefreshConnecting _ | RefreshPredicting _ => old
  end.

(** The flags that the [finally] blocks have cleared. *)
Definition flags_cleared (k : Task) (u : UI) : Prop :=
  match k with
  | SearchConnecting _ _ | SearchPredicting => isSearching u = false
  | LoadConnecting _ | LoadPredicting _ | LoadExamplesPredicting =>
      isLoading u = false
  | RefreshConnecting inLoad | RefreshPredicting inLoad =>
      isExamplesLoading u = false /\ (inLoad = true -> isLoading u = false)
  end.

(** ** Scenarios *)

Module Scenario.

(** A browser that names every object URL alike. *)
Definition objectURL (n : nat) (b : Blob) : string := "blob:query".

Definition sedan : GradioImage :=
  {| image := Some {| d_url := Some "https://h/file=sedan.jpg";
                      d_path := Some "/tmp/sedan.jpg" |};
     url := None; path := None;
     caption := Some ("Class: Sedan" ++ nl ++ "Sim: 0.912") |}.

Definition hatchback : GradioImage :=
  {| image := Some {| d_url := Some "https://h/file=hatchback.jpg";
                      d_path := Some "/tmp/hatchback.jpg" |};
     url := None; path := None;
     caption := Some ("Class: Hatchback" ++ nl ++ "Sim: 0.871") |}.

Definition sample : GradioImage :=
  {| image := Some {| d_url := Some "https://h/file=sample.jpg";
                      d_path := None |};
     url := None; path := None; caption := None |}.

Definition cars_metrics : string := "Precision@1: 87.350%" ++ nl ++ "R@1: 91.200%".
Definition cub_metrics : string := "Precision@1: 80.125%" ++ nl ++ "R@1: 85.500%".

(** The component mounts, connects and loads its first configuration;
    [text] is the status the backend sends with the metrics. *)
Definition ready (text : string) : list Event :=
  [ Mount;
    ConnectSettled 0 (Resolved (Handle 1));
    LoadSettled 0 (Resolved (text, cars_metrics));
    ExamplesSettled 0 (Resolved (Some [sample])) ].

(** Two images are pasted one after the other; the answer to the second
    search arrives first. *)
Definition stale_search : list Event :=
  ready "Loaded Cars196" ++
  [ TriggerSearch (Binary (BlobOf 1));
    TriggerSearch (Binary (BlobOf 2));
    SearchSettled 2 (Resolved ([sedan], "Found 1 match"));
    SearchSettled 1 (Resolved ([hatchback], "Found 1 neighbour")) ].

(** The dataset is changed while the first load is in flight; the answer
    for the new configuration arrives first. *)
Definition stale_load : list Event :=
  [ Mount;
    ConnectSettled 0 (Resolved (Handle 1));
    SetDataset "CUB";
    LoadSettled 1 (Resolved ("Loaded CUB", cub_metrics));
    ExamplesSettled 1 (Resolved (Some [sample]));
    LoadSettled 0 (Resolved ("Loaded Cars196", cars_metrics));
    ExamplesSettled 0 (Resolved (Some [sample])) ].

(** The mount effect and two pastes call the getter before any connection
    exists; the three attempts then resolve to three handles. *)
Definition three_callers : list Event :=
  [ Mount;
    TriggerSearch (Binary (BlobOf 1));
    TriggerSearch (Binary (BlobOf 2));
    ConnectSettled 0 (Resolved (Handle 1));
    ConnectSettled 1 (Resolved (Handle 2));
    ConnectSettled 2 (Resolved (Handle 3)) ].

(** The refresh button is pressed and the call fails. *)
Definition refresh_fails (text : string) : list Event :=
  ready text ++ [ ClickRefresh; ExamplesSettled 1 Rejected ].

(** A second configuration is selected and its load fails. *)
Definition reload_fails : list Event :=
  ready "Loaded Cars196" ++ [ SetDataset "CUB"; LoadSettled 1 Rejected ].

(** In [page.tsx] the load itself succeeds and the call for the examples
    that follows it fails. *)
Definition examples_fail : list Event :=
  [ Mount;
    ConnectSettled 0 (Resolved (Handle 1));
    LoadSettled 0 (Resolved ("Loaded Cars196", cars_metrics));
    ExamplesSettled 0 Rejected ].

(** The state in which the first attempt to connect is in flight. *)
Definition connecting_state : State :=
  default initial (step objectURL Part000 initial Mount).

(** The state after [ready], with two searches in flight. *)
Definition searching_state : State :=
  default initial
    (run objectURL Part000 initial
       (ready "Loaded Cars196"
        ++ [TriggerSearch (Binary (BlobOf 1)); TriggerSearch (Reference sedan)])).

(** Two loads in flight, for two configurations. *)
Definition loading_state : State :=
  default initial
    (run objectURL PageTsx initial
       [Mount; ConnectSettled 0 (Resolved (Handle 1)); SetDataset "CUB"]).

End Scenario.

(** ** The paste handler *)

(** [s.indexOf(pat)]: the position of the leftmost occurrence, or [-1]. *)
Fixpoint indexOf (pat s : string) : Z :=
  match JS.strip_prefix pat s with
  | Some _ => 0
  | None =>
      match s with
      | EmptyString => -1
      | String _ s' =>
          let i := indexOf pat s' in
          if (i =? -1)%Z then -1 else (i + 1)%Z
      end
  end.

(** A [DataTransferItem]: its MIME type and what [getAsFile()] returns. *)
Record ClipboardItem := {
  item_type : string;
  getAsFile : option Blob
}.

Section Paste.

Variable createObjectURL : nat -> Blob -> string.

(** The body of the [for] loop, for one item. *)
Definition handlePaste_item (v : Version) (item : ClipboardItem) : Action :=
  if negb (indexOf "image" (item_type item) =? -1)%Z then
    match getAsFile item with
    | Some blob => handleSearch createObjectURL v (Binary blob)
    | None => skip
    end
  else skip.

(** The loop calls [handleSearch] without awaiting it.  What a search does
    after its first [await] with a cached handle (the [predict] call) is
    run here before the next iteration; it only adds to the calls made and
    to the instances in flight, which the statements of the next search
    before its own [await] neither read nor write, so the state after the
    loop is the same. *)
Fixpoint handlePaste_loop (v : Version) (items : list ClipboardItem) : Action :=
  match items with
  | [] => skip
  | item :: rest => handlePaste_item v item >> handlePaste_loop v rest
  end.

(** [items] is [e.clipboardData?.items]: [None] when there is no
    clipboard data. *)
Definition handlePaste (v : Version) (items : option (list ClipboardItem))
  : Action :=
  match items with
  | None => skip
  | Some l => handlePaste_loop v l
  end.

End Paste.

(** The files of the items that the paste handler searches for. *)
Fixpoint pasted_images (items : list ClipboardItem) : list Blob :=
  match items with
  | [] => []
  | item :: rest =>
      if negb (indexOf "image" (item_type item) =? -1)%Z then
        match getAsFile item with
        | Some blob => blob :: pasted_images rest
        | None => pasted_images rest
        end
      else pasted_images rest
  end.

(** ** Further notions used to state properties *)

(** The configuration that a selector event asks for. *)
Definition requested (e : Event) (s : State) : option Config :=
  match e with
  | SetDataset d =>
      Some {| dataset := d; size := size (cfg s);
              isFinetuned := isFinetuned (cfg s) |}
  | SetSize x =>
      Some {| dataset := dataset (cfg s); size := x;
              isFinetuned := isFinetuned (cfg s) |}
  | ToggleFinetuned =>
      Some {| dataset := dataset (cfg s); size := size (cfg s);
              isFinetuned := negb (isFinetuned (cfg s)) |}
  | _ => None
  end.

(** A number that carries no minus sign: zero or more, the positive
    infinity, or [NaN]. *)
Definition not_negative (x : JS.number) : Prop :=
  match x with
  | JS.NaN => True
  | JS.Infinity negative => negative = false
  | JS.NegZero => False
  | JS.Num q => (0 <= q)%Q
  end.

(** The three flags: loading, loading examples, searching. *)
Definition flags (u : UI) : bool * bool * bool :=
  (isLoading u, isExamplesLoading u, isSearching u).

(** The flags that an instance suspended at [k] will clear when it ends. *)
Definition owner (k : Task) : bool * bool * bool :=
  match k with
  | SearchConnecting _ _ | SearchPredicting => (false, false, true)
  | LoadConnecting _ | LoadPredicting _ | LoadExamplesPredicting =>
      (true, false, false)
  | RefreshConnecting inLoad | RefreshPredicting inLoad =>
      (inLoad, true, false)
  end.

Definition raise (o f : bool * bool * bool) : bool * bool * bool :=
  let '(o1, o2, o3) := o in
  let '(f1, f2, f3) := f in
  (o1 || f1, o2 || f2, o3 || f3)%bool.

Definition lower (o f : bool * bool * bool) : bool * bool * bool :=
  let '(o1, o2, o3) := o in
  let '(f1, f2, f3) := f in
  (f1 && negb o1, f2 && negb o2, f3 && negb o3)%bool.

(** The call [x] is the one the instance [t] makes on reaching [k], with
    [cr] in the cache. *)
Definition issued (t : nat) (cr : option Client) (k : Task) (x : Call) : Prop :=
  match k with
  | SearchConnecting _ _ | LoadConnecting _ | RefreshConnecting _ =>
      cr = None /\ x = Connect t
  | LoadPredicting c => cr = Some c /\ exists r, x = Predict t c r
  | SearchPredicting | RefreshPredicting _ =>
      exists c r, cr = Some c /\ x = Predict t c r
  | LoadExamplesPredicting => False
  end.

(** Where an instance suspended in the getter goes on when its attempt
    resolves to [c]. *)
Definition connected (k : Task) (c : Client) : Task :=
  match k with
  | SearchConnecting _ _ => SearchPredicting
  | LoadConnecting _ => LoadPredicting c
  | RefreshConnecting inLoad => RefreshPredicting inLoad
  | _ => k
  end.

(** The control skeleton of one turn of the event loop. *)
Inductive Skeleton (e : Event) (s s' : State) : Prop :=
| SkSame :
    user_event e = true ->
    tasks s' = tasks s -> nextId s' = nextId s -> calls s' = calls s ->
    clientRef s' = clientRef s -> flags (ui s') = flags (ui s) ->
    Skeleton e s s'
| SkStart (k : Task) (x : Call) :
    user_event e = true ->
    tasks s' = <[nextId s := k]> (tasks s) -> nextId s' = S (nextId s) ->
    calls s' = (calls s ++ [x])%list -> clientRef s' = clientRef s ->
    flags (ui s') = raise (owner k) (flags (ui s)) ->
    issued (nextId s) (clientRef s) k x ->
    Skeleton e s s'
| SkConnected (t : nat) (k : Task) (c : Client) (r : Request) :
    e = ConnectSettled t (Resolved c) ->
    tasks s !! t = Some k -> connecting k = true ->
    tasks s' = <[t := connected k c]> (tasks s) -> nextId s' = nextId s ->
    calls s' = (calls s ++ [Predict t c r])%list -> clientRef s' = Some c ->
    flags (ui s') = flags (ui s) ->
    Skeleton e s s'
| SkLoaded (t : nat) (c0 : Client) (k' : Task) (x : Call) :
    user_event e = false ->
    tasks s !! t = Some (LoadPredicting c0) ->
    tasks s' = <[t := k']> (tasks s) -> nextId s' = nextId s ->
    calls s' = (calls s ++ [x])%list -> clientRef s' = clientRef s ->
    flags (ui s') = raise (lower (owner (LoadPredicting c0)) (owner k'))
                      (flags (ui s)) ->
    (k' = LoadExamplesPredicting /\ x = Predict t c0 RefreshExamplesWrapper)
    \/ ((k' = RefreshPredicting true \/ k' = RefreshConnecting true)
        /\ issued t (clientRef s) k' x) ->
    Skeleton e s s'
| SkFinish (t : nat) (k : Task) :
    user_event e = false ->
    tasks s !! t = Some k ->
    tasks s' = delete t (tasks s) -> nextId s' = nextId s ->
    calls s' = calls s -> clientRef s' = clientRef s ->
    flags (ui s') = lower (owner k) (flags (ui s)) ->
    Skeleton e s s'.

(** The settlements an instance suspended at [k] may still need. *)
Definition remaining (k : Task) : nat :=
  match k with
  | SearchConnecting _ _ => 2
  | SearchPredicting => 1
  | LoadConnecting _ => 4
  | LoadPredicting _ => 3
  | LoadExamplesPredicting => 1
  | RefreshConnecting _ => 2
  | RefreshPredicting _ => 1
  end.

(** The attempts to connect made by the instance [t]. *)
Fixpoint attempts_of (t : nat) (l : list Call) : nat :=
  match l with
  | [] => 0
  | Connect t' :: l' =>
      if Nat.eqb t t' then S (attempts_of t l') else attempts_of t l'
  | Predict _ _ _ :: l' => attempts_of t l'
  end.

(** The handle of a call, if it is a [predict]. *)
Definition handle_of (x : Call) : option Client :=
  match x with
  | Connect _ => None
  | Predict _ c _ => Some c
  end.

(** The handle [c] was delivered by an attempt that resolved in [es]. *)
Definition delivered (es : list Event) (c : Client) : Prop :=
  exists t, In (ConnectSettled t (Resolved c)) es.

(** The flag that an instance suspended at [k] will clear. *)
Definition ends_load (k : Task) : bool := fst (fst (owner k)).
Definition ends_examples (k : Task) : bool := snd (fst (owner k)).
Definition ends_search (k : Task) : bool := snd (owner k).

(** Instances are numbered below [nextId]. *)
Definition fresh (s : State) : Prop :=
  forall t k, tasks s !! t = Some k -> t < nextId s.

(** The flag picked by [sel], when set, has an instance in flight that
    will clear it. *)
Definition covered (sel : bool * bool * bool -> bool) (s : State) : Prop :=
  sel (flags (ui s)) = true ->
  exists t k, tasks s !! t = Some k /\ sel (owner k) = true.

(** The settlements that the instances in flight may still need. *)
Definition potential (m : gmap nat Task) : nat :=
  map_fold (fun _ k acc => remaining k + acc) 0 m.

(** No instance has tried to connect twice, and an instance that is past
    the getter has left a handle in the cache. *)
Definition single_attempt (s : State) : Prop :=
  (forall t, nextId s <= t -> attempts_of t (calls s) = 0)
  /\ (forall t k, tasks s !! t = Some k -> connecting k = false ->
        clientRef s <> None)
  /\ (forall t, attempts_of t (calls s) <= 1).

(** Every handle in use is one of [D]. *)
Definition trusted (D : Client -> Prop) (s : State) : Prop :=
  (forall c, clientRef s = Some c -> D c)
  /\ (forall t c, tasks s !! t = Some (LoadPredicting c) -> D c)
  /\ (forall x c, In x (calls s) -> handle_of x = Some c -> D c).

(** * Properties *)

(** ** Strings *)

#[local] Arguments String.append !_ _ / : simpl nomatch.

Lemma append_nil_r (s : string) : s ++ "" = s.
Proof. induction s as [|c s IH]; simpl; [reflexivity | now rewrite IH]. Qed.

Lemma append_assoc (a b c : string) : (a ++ b) ++ c = a ++ b ++ c.
Proof. induction a as [|x a IH]; simpl; [reflexivity | now rewrite IH]. Qed.

Lemma length_append (a b : string) :
  String.length (a ++ b) = String.length a + String.length b.
Proof. induction a as [|x a IH]; simpl; [reflexivity | now rewrite IH]. Qed.

Lemma length_zero (s : string) : String.length s = 0 -> s = "".
Proof. destruct s; simpl; [reflexivity | discriminate]. Qed.

(** Two splittings of one string at the same position are the same. *)
Lemma append_inj_length (a b a' b' : string) :
  a ++ b = a' ++ b' -> String.length a = String.length a' ->
  a = a' /\ b = b'.
Proof.
  revert a'. induction a as [|x a IH]; intros [|y a'] E L; simpl in *;
    try discriminate.
  - split; [reflexivity | assumption].
  - injection E as -> E. injection L as L.
    destruct (IH _ E L) as [-> ->]. split; reflexivity.
Qed.

Lemma all_chars_append (p : ascii -> bool) (a b : string) :
  all_chars p (a ++ b) = (all_chars p a && all_chars p b)%bool.
Proof.
  induction a as [|x a IH]; simpl; [reflexivity|].
  rewrite IH. now rewrite andb_assoc.
Qed.

Lemma strip_prefix_spec (p s r : string) :
  JS.strip_prefix p s = Some r <-> s = p ++ r.
Proof.
  revert s. induction p as [|a p IH]; intros s; simpl.
  - split; [now intros [= ->] | now intros ->].
  - destruct s as [|b s].
    + split; discriminate.
    + destruct (Ascii.eqb_spec a b) as [->|Hab].
      * rewrite IH. split; [now intros -> | now intros [= ->]].
      * split; [discriminate | intros [= E _]; congruence].
Qed.

Lemma strip_prefix_append (p r : string) : JS.strip_prefix p (p ++ r) = Some r.
Proof. now apply strip_prefix_spec. Qed.

Lemma strip_prefix_none (p s : string) :
  JS.strip_prefix p s = None <-> forall r, s <> p ++ r.
Proof.
  split.
  - intros H r E. apply strip_prefix_spec in E. congruence.
  - intros H. destruct (JS.strip_prefix p s) as [r|] eqn:E; [|reflexivity].
    apply strip_prefix_spec in E. now destruct (H r).
Qed.

(** *** [replace] removes the leftmost occurrence *)

Lemma replace_first (pat rep s pre post : string) :
  first_at pat s pre post -> JS.replace pat rep s = pre ++ rep ++ post.
Proof.
  revert s. induction pre as [|c pre IH]; intros s [E Hmin].
  - simpl in *. subst s. destruct pat; simpl.
    + destruct post; reflexivity.
    + rewrite Ascii.eqb_refl, strip_prefix_append. reflexivity.
  - simpl in E. subst s.
    assert (Hno : JS.strip_prefix pat (String c (pre ++ pat ++ post)) = None).
    { apply strip_prefix_none. intros r E.
      specialize (Hmin "" r E). simpl in Hmin. lia. }
    destruct pat as [|a pat]; [simpl in Hno; discriminate|].
    change (JS.replace (String a pat) rep (String c (pre ++ String a pat ++ post)))
      with (match JS.strip_prefix (String a pat)
                    (String c (pre ++ String a pat ++ post)) with
            | Some rest => rep ++ rest
            | None => String c (JS.replace (String a pat) rep
                                  (pre ++ String a pat ++ post))
            end).
    rewrite Hno. simpl. f_equal. apply IH. split; [reflexivity|].
    intros pre' post' E.
    assert (H := Hmin (String c pre') post'). simpl in H.
    rewrite E in H. specialize (H eq_refl). lia.
Qed.

Lemma replace_absent (pat rep s : string) :
  ~ occurs_in pat s -> JS.replace pat rep s = s.
Proof.
  induction s as [|c s IH]; intros Hno.
  - destruct pat; simpl; [|reflexivity].
    destruct Hno. now exists "", "".
  - assert (Hp : JS.strip_prefix pat (String c s) = None).
    { apply strip_prefix_none. intros r E. apply Hno. now exists "", r. }
    destruct pat as [|a pat]; [simpl in Hp; discriminate|].
    change (JS.replace (String a pat) rep (String c s))
      with (match JS.strip_prefix (String a pat) (String c s) with
            | Some rest => rep ++ rest
            | None => String c (JS.replace (String a pat) rep s)
            end).
    rewrite Hp. f_equal. apply IH. intros (pre & post & E).
    apply Hno. exists (String c pre), post. simpl. now rewrite E.
Qed.

(** Every string has a leftmost occurrence of [pat], or none at all. *)
Lemma first_at_or_absent (pat s : string) :
  (exists pre post, first_at pat s pre post) \/ ~ occurs_in pat s.
Proof.
  induction s as [|c s IH].
  - destruct pat as [|a pat].
    + left. exists "", "". split; [reflexivity | intros; simpl; lia].
    + right. intros (pre & post & E). destruct pre; discriminate.
  - destruct (JS.strip_prefix pat (String c s)) as [r|] eqn:Hp.
    + left. apply strip_prefix_spec in Hp. exists "", r.
      split; [exact Hp | intros; simpl; lia].
    + destruct IH as [(pre & post & E & Hmin)|Hno].
      * left. exists (String c pre), post. split; [simpl; now rewrite E|].
        intros [|c' pre'] post' E'.
        -- simpl in E'. apply strip_prefix_spec in E'. congruence.
        -- simpl in E'. injection E' as -> E'.
           specialize (Hmin _ _ E'). simpl. lia.
      * right. intros ([|c' pre] & post & E).
        -- simpl in E. apply strip_prefix_spec in E. congruence.
        -- simpl in E. injection E as -> E. apply Hno. now exists pre, post.
Qed.

Lemma replace_removed (pat s : string) : removed pat s (JS.replace pat "" s).
Proof.
  destruct (first_at_or_absent pat s) as [(pre & post & H)|H].
  - left. exists pre, post. split; [exact H|].
    now rewrite (replace_first _ _ _ _ _ H).
  - right. split; [exact H | now apply replace_absent].
Qed.

(** [removed] relates a string to one result only. *)
Lemma removed_unique (pat s r r' : string) :
  removed pat s r -> removed pat s r' -> r = r'.
Proof.
  intros [(pre & post & [E Hmin] & ->)|[Hno ->]]
         [(pre' & post' & [E' Hmin'] & ->)|[Hno' ->]].
  - assert (L : String.length pre = String.length pre').
    { specialize (Hmin _ _ E'). specialize (Hmin' _ _ E). lia. }
    rewrite E in E'. destruct (append_inj_length _ _ _ _ E' L) as [-> E2].
    assert (L2 : String.length pat = String.length pat) by reflexivity.
    destruct (append_inj_length _ _ _ _ E2 L2) as [_ ->]. reflexivity.
  - destruct Hno'. now exists pre, post.
  - destruct Hno. now exists pre', post'.
  - reflexivity.
Qed.

(** A prefix is the leftmost occurrence. *)
Lemma removed_prefix (pat x : string) : removed pat (pat ++ x) x.
Proof.
  left. exists "", x. split; [|reflexivity].
  split; [reflexivity | intros; simpl; lia].
Qed.

(** *** [split] cuts at every separator *)

Lemma split_go_segment (cur seg : string) :
  segment seg -> JS.split_go "010" cur seg = [cur ++ seg].
Proof.
  revert cur. induction seg as [|c seg IH]; intros cur H; simpl.
  - now rewrite append_nil_r.
  - unfold segment in H. simpl in H. apply andb_true_iff in H as [Hc H].
    apply negb_true_iff in Hc. rewrite Hc, IH by exact H.
    now rewrite append_assoc.
Qed.

Lemma split_go_cut (cur seg rest : string) :
  segment seg ->
  JS.split_go "010" cur (seg ++ nl ++ rest)
  = (cur ++ seg) :: JS.split_go "010" "" rest.
Proof.
  revert cur. induction seg as [|c seg IH]; intros cur H; simpl.
  - now rewrite append_nil_r.
  - unfold segment in H. simpl in H. apply andb_true_iff in H as [Hc H].
    apply negb_true_iff in Hc. rewrite Hc, IH by exact H.
    now rewrite append_assoc.
Qed.

Lemma split_go_nonempty (sep : ascii) (cur s : string) :
  JS.split_go sep cur s <> [].
Proof.
  revert cur. induction s as [|c s IH]; intros cur; simpl; [discriminate|].
  destruct (Ascii.eqb c sep); [discriminate | apply IH].
Qed.

(** ** The URL resolver *)

Lemma or_else_some (s d : string) : JS.or_else (Some s) d = nonempty_or s d.
Proof. destruct s; reflexivity. Qed.

(** C10. [getImageUrl] is a total function; on a null record it returns the
    empty string, and otherwise the first candidate, in the order nested
    url, nested path, top-level url, top-level path, that is present and
    not empty, or the empty string when every candidate is absent or
    empty. *)
Theorem getImageUrl_priority (item : option GradioImage) :
  match item with
  | None => getImageUrl item = ""
  | Some i =>
      (getImageUrl item = "" /\ Forall blank (candidates i))
      \/ (exists (n : nat) (u : string),
            candidates i !! n = Some (Some u) /\ u <> ""
            /\ getImageUrl item = u
            /\ forall (m : nat) (c : option string),
                 (m < n)%nat -> candidates i !! m = Some c -> blank c)
  end.
Proof.
  destruct item as [[im u p cap]|]; [|reflexivity].
  assert (Hb : forall c : option string, JS.truthy c = false -> blank c).
  { intros [[|? ?]|]; simpl; intros; try discriminate;
      [now right | now left]. }
  assert (Ht : forall c : option string, JS.truthy c = true ->
            exists x, c = Some x /\ x <> "" /\ forall d, JS.or_else c d = x).
  { intros [[|a x]|]; simpl; intros; try discriminate.
    exists (String a x).
    split; [reflexivity | split; [discriminate | reflexivity]]. }
  unfold getImageUrl, candidates, JS.or.
  set (c0 := image_url _). set (c1 := image_path _). simpl url. simpl path.
  destruct (JS.truthy c0) eqn:H0.
  { right. destruct (Ht _ H0) as (x & E & Hx & Ho). exists 0%nat, x.
    rewrite H0. simpl. rewrite H0, Ho.
    refine (conj _ (conj Hx (conj eq_refl _))); [now rewrite E | intros; lia]. }
  destruct (JS.truthy c1) eqn:H1.
  { right. destruct (Ht _ H1) as (x & E & Hx & Ho). exists 1%nat, x.
    rewrite H1, Ho. refine (conj _ (conj Hx (conj eq_refl _))); [now rewrite E|].
    intros [|m] c Hm Hc; [|lia]. injection Hc as <-. now apply Hb. }
  destruct (JS.truthy u) eqn:H2.
  { right. destruct (Ht _ H2) as (x & E & Hx & Ho). exists 2%nat, x.
    rewrite Ho. refine (conj _ (conj Hx (conj eq_refl _))); [now rewrite E|].
    intros [|[|m]] c Hm Hc; [| |lia]; injection Hc as <-; now apply Hb. }
  destruct (JS.truthy p) eqn:H3.
  { right. destruct (Ht _ H3) as (x & E & Hx & Ho). exists 3%nat, x.
    rewrite Ho. refine (conj _ (conj Hx (conj eq_refl _))); [now rewrite E|].
    intros [|[|[|m]]] c Hm Hc; [| | |lia]; injection Hc as <-; now apply Hb. }
  left. split.
  - destruct p as [[|? ?]|]; simpl in *; try reflexivity; discriminate.
  - do 4 (constructor; [now apply Hb|]). constructor.
Qed.

(** The resolver on a record that has every field. *)
Example getImageUrl_nested_first :
  getImageUrl (Some {| image := Some {| d_url := Some ""; d_path := Some "/f/a.png" |};
                       url := Some "https://h/a.png"; path := None;
                       caption := None |}) = "/f/a.png".
Proof. reflexivity. Qed.

(** ** The caption decoder *)

Lemma split_one (seg : string) : segment seg -> JS.split "010" seg = [seg].
Proof. intros H. unfold JS.split. now rewrite split_go_segment. Qed.

Lemma split_two (seg1 seg2 more : string) :
  segment seg1 -> segment seg2 -> more = "" \/ (exists r, more = nl ++ r) ->
  exists l, JS.split "010" (seg1 ++ nl ++ seg2 ++ more) = seg1 :: seg2 :: l.
Proof.
  intros H1 H2 Hm. unfold JS.split. rewrite split_go_cut by exact H1.
  destruct Hm as [->|[r ->]].
  - rewrite append_nil_r, split_go_segment by exact H2. now exists [].
  - rewrite split_go_cut by exact H2. simpl. eauto.
Qed.

(** The example of the specification. *)
Example parseCaption_sedan :
  parseCaption (Some ("Class: Sedan" ++ nl ++ "Sim: 0.912"))
  = {| className := "Sedan"; sim := "0.912" |}.
Proof. reflexivity. Qed.

(** C5, as stated, fails: a class name that itself holds the text
    ["Label: "] loses it, although that text is no prefix of the segment. *)
Lemma parseCaption_not_prefix_strip :
  parseCaption (Some ("Class: Record Label: EMI" ++ nl ++ "Sim: 0.912"))
  = {| className := "Record EMI"; sim := "0.912" |}
  /\ decodeCaption (Some ("Class: Record Label: EMI" ++ nl ++ "Sim: 0.912"))
     = {| className := "Record Label: EMI"; sim := "0.912" |}
  /\ parseCaption (Some ("Class: Record Label: EMI" ++ nl ++ "Sim: 0.912"))
     <> decodeCaption (Some ("Class: Record Label: EMI" ++ nl ++ "Sim: 0.912")).
Proof. split; [reflexivity | split; [reflexivity | discriminate]]. Qed.

(** C5, amended. [parseCaption] is total. Absent or empty input gives
    [{"Unknown","0.000"}]. Otherwise the label is the first segment without
    the leftmost occurrence of ["Class: "] and then without the leftmost
    occurrence of ["Label: "], wherever they stand, and the similarity is
    the second segment without the leftmost occurrence of ["Sim: "]; a
    label or similarity that comes out empty, and the similarity of a
    caption of one segment, take the defaults ["Unknown"] and ["0.000"].
    Segments after the second are ignored. *)
Theorem parseCaption_segments (seg1 seg2 more : string) :
  segment seg1 -> segment seg2 -> more = "" \/ (exists r, more = nl ++ r) ->
  parseCaption None = {| className := "Unknown"; sim := "0.000" |}
  /\ parseCaption (Some "") = {| className := "Unknown"; sim := "0.000" |}
  /\ exists a b c,
       removed "Class: " seg1 a /\ removed "Label: " a b
       /\ removed "Sim: " seg2 c
       /\ (seg1 <> "" ->
           parseCaption (Some seg1)
           = {| className := nonempty_or b "Unknown"; sim := "0.000" |})
       /\ parseCaption (Some (seg1 ++ nl ++ seg2 ++ more))
          = {| className := nonempty_or b "Unknown";
               sim := nonempty_or c "0.000" |}.
Proof.
  intros H1 H2 Hm. split; [reflexivity|]. split; [reflexivity|].
  exists (JS.replace "Class: " "" seg1),
         (JS.replace "Label: " "" (JS.replace "Class: " "" seg1)),
         (JS.replace "Sim: " "" seg2).
  do 3 (split; [apply replace_removed|]). split.
  - intros Hne. unfold parseCaption.
    destruct seg1 as [|c0 s0]; [congruence|].
    cbn [JS.truthy negb default]. rewrite split_one by exact H1.
    cbn [lookup list_lookup fmap option_fmap option_map].
    now rewrite or_else_some.
  - unfold parseCaption.
    destruct (split_two _ _ more H1 H2 Hm) as [l El].
    assert (Ht : JS.truthy (Some (seg1 ++ nl ++ seg2 ++ more)) = true).
    { destruct seg1; reflexivity. }
    rewrite Ht. cbn [negb default]. unfold id. rewrite El.
    cbn [lookup list_lookup fmap option_fmap option_map].
    now rewrite !or_else_some.
Qed.

Lemma parseCaption_segments_witness :
  parseCaption (Some ("Class: Sedan" ++ nl ++ "Sim: 0.912" ++ ""))
  = {| className := "Sedan"; sim := "0.912" |}.
Proof.
  destruct (parseCaption_segments "Class: Sedan" "Sim: 0.912" "")
    as (_ & _ & a & b & c & Ha & Hb & Hc & _ & E);
    [reflexivity | reflexivity | now left |].
  rewrite (removed_unique _ _ _ _ Ha (removed_prefix "Class: " "Sedan")) in Hb.
  rewrite (removed_unique _ _ _ _ Hb (replace_removed "Label: " "Sedan")) in E.
  rewrite (removed_unique _ _ _ _ Hc (removed_prefix "Sim: " "0.912")) in E.
  exact E.
Defined.

(** ** Regular expressions *)

Section Matching.

Variable re : JS.RegExp.

Let cls := JS.class re.
Let tl := JS.tail re.

Lemma match_group_sound (s cap : string) :
  JS.match_group cls tl s = Some cap ->
  exists post, s = cap ++ tl ++ post /\ cap <> "" /\ all_chars cls cap = true.
Proof.
  revert cap. induction s as [|c s IH]; intros cap; simpl; [discriminate|].
  destruct (cls c) eqn:Hc; [|discriminate].
  destruct (JS.match_group cls tl s) as [cap0|] eqn:Hg.
  - intros [= <-]. destruct (IH _ eq_refl) as (post & -> & _ & Hall).
    exists post. simpl. rewrite Hc, Hall. repeat split. discriminate.
  - destruct (JS.strip_prefix tl s) as [r|] eqn:Hp; [|discriminate].
    intros [= <-]. apply strip_prefix_spec in Hp as ->.
    exists r. simpl. rewrite Hc. repeat split. discriminate.
Qed.

Lemma match_group_complete (s cap post : string) :
  s = cap ++ tl ++ post -> cap <> "" -> all_chars cls cap = true ->
  JS.match_group cls tl s <> None.
Proof.
  revert s. induction cap as [|c cap IH]; intros s -> Hne Hall; [congruence|].
  simpl in *. apply andb_true_iff in Hall as [Hc Hall]. rewrite Hc.
  destruct (JS.match_group cls tl (cap ++ tl ++ post)) eqn:Hg; [discriminate|].
  destruct cap as [|c' cap].
  - simpl. now rewrite strip_prefix_append.
  - exfalso. apply (IH _ eq_refl); [discriminate | exact Hall | exact Hg].
Qed.

(** The group is greedy: among the runs after which the tail matches, the
    capture is the longest. *)
Lemma match_group_longest (s cap cap' post' : string) :
  JS.match_group cls tl s = Some cap ->
  s = cap' ++ tl ++ post' -> cap' <> "" -> all_chars cls cap' = true ->
  String.length cap' <= String.length cap.
Proof.
  revert cap cap'. induction s as [|c s IH]; intros cap cap'; simpl;
    [discriminate|].
  destruct (cls c) eqn:Hc; [|discriminate].
  intros Hg E Hne Hall. destruct cap' as [|c' cap']; [congruence|].
  simpl in E. injection E as <- E. simpl in Hall.
  apply andb_true_iff in Hall as [_ Hall].
  destruct (JS.match_group cls tl s) as [cap0|] eqn:Hg0.
  - injection Hg as <-. simpl. destruct cap' as [|c2 cap'].
    + simpl. lia.
    + assert (H := IH _ _ eq_refl E ltac:(discriminate) Hall). lia.
  - destruct cap' as [|c2 cap']; [|exfalso].
    + destruct (JS.strip_prefix tl s); [|discriminate].
      injection Hg as <-. simpl. lia.
    + now apply (match_group_complete s (String c2 cap') post' E).
Qed.

Lemma match_here_sound (s cap : string) :
  JS.match_here re s = Some cap -> exists post, occurs re s "" cap post.
Proof.
  unfold JS.match_here. destruct (JS.strip_prefix _ s) as [r|] eqn:Hp;
    [|discriminate].
  intros Hg. apply strip_prefix_spec in Hp as ->.
  destruct (match_group_sound _ _ Hg) as (post & -> & Hne & Hall).
  exists post. repeat split; assumption.
Qed.

Lemma match_here_complete (s cap post : string) :
  occurs re s "" cap post -> JS.match_here re s <> None.
Proof.
  intros (-> & Hne & Hall). unfold JS.match_here. simpl.
  rewrite strip_prefix_append.
  now apply (match_group_complete _ cap post).
Qed.

Lemma match_here_longest (s cap cap' post' : string) :
  JS.match_here re s = Some cap -> occurs re s "" cap' post' ->
  String.length cap' <= String.length cap.
Proof.
  unfold JS.match_here. intros Hg (-> & Hne & Hall). simpl in Hg.
  rewrite strip_prefix_append in Hg.
  now apply (match_group_longest _ _ _ post' Hg).
Qed.

Lemma occurs_cons (c : ascii) (s pre cap post : string) :
  occurs re (String c s) (String c pre) cap post <-> occurs re s pre cap post.
Proof.
  unfold occurs. simpl. split.
  - intros ([= E] & H). now split.
  - intros (-> & H). now split.
Qed.

Lemma occurs_head (c c' : ascii) (s pre cap post : string) :
  occurs re (String c s) (String c' pre) cap post -> c' = c.
Proof. intros ([= E _] & _). congruence. Qed.

Lemma exec_sound (s cap : string) :
  JS.exec re s = Some cap -> first_capture re s cap.
Proof.
  induction s as [|c s IH]; simpl.
  - destruct (JS.match_here re "") as [cap0|] eqn:Hm; [|discriminate].
    intros [= ->]. destruct (match_here_sound _ _ Hm) as (post & Ho).
    exists "", post. split; [exact Ho|]. intros pre' cap' post' Ho'.
    split; [simpl; lia|]. intros L. apply length_zero in L. subst pre'.
    now apply (match_here_longest _ _ _ post' Hm).
  - destruct (JS.match_here re (String c s)) as [cap0|] eqn:Hm.
    + intros [= ->]. destruct (match_here_sound _ _ Hm) as (post & Ho).
      exists "", post. split; [exact Ho|]. intros pre' cap' post' Ho'.
      split; [simpl; lia|]. intros L. apply length_zero in L. subst pre'.
      now apply (match_here_longest _ _ _ post' Hm).
    + intros He. destruct (IH He) as (pre & post & Ho & Hmin).
      exists (String c pre), post. split; [now apply (proj2 (occurs_cons _ _ _ _ _))|].
      intros [|c' pre'] cap' post' Ho'.
      * now destruct (match_here_complete _ _ _ Ho').
      * assert (c' = c) as -> by apply (occurs_head _ _ _ _ _ _ Ho').
        apply (proj1 (occurs_cons _ _ _ _ _)) in Ho'. destruct (Hmin _ _ _ Ho') as [L1 L2].
        simpl. split; [lia | intros L; apply L2; lia].
Qed.

Lemma exec_absent (s : string) : JS.exec re s = None <-> ~ present re s.
Proof.
  split.
  - induction s as [|c s IH]; simpl.
    + destruct (JS.match_here re "") eqn:Hm; [discriminate|].
      intros _ ([|c' pre] & cap & post & Ho).
      * now destruct (match_here_complete _ _ _ Ho).
      * destruct Ho as (E & _). discriminate.
    + destruct (JS.match_here re (String c s)) eqn:Hm; [discriminate|].
      intros He ([|c' pre] & cap & post & Ho).
      * now destruct (match_here_complete _ _ _ Ho).
      * assert (c' = c) as -> by apply (occurs_head _ _ _ _ _ _ Ho).
        apply (proj1 (occurs_cons _ _ _ _ _)) in Ho. apply (IH He). now exists pre, cap, post.
  - intros Hno. destruct (JS.exec re s) as [cap|] eqn:He; [|reflexivity].
    destruct (exec_sound _ _ He) as (pre & post & Ho & _).
    destruct Hno. now exists pre, cap, post.
Qed.

Lemma first_capture_unique (s cap cap' : string) :
  first_capture re s cap -> first_capture re s cap' -> cap = cap'.
Proof.
  intros (pre & post & Ho & Hmin) (pre' & post' & Ho' & Hmin').
  destruct (Hmin _ _ _ Ho') as [L1 L2]. destruct (Hmin' _ _ _ Ho) as [L1' L2'].
  assert (L : String.length pre = String.length pre') by lia.
  assert (Lc : String.length cap = String.length cap').
  { specialize (L2 (eq_sym L)). specialize (L2' L). lia. }
  destruct Ho as (E & _). destruct Ho' as (E' & _). rewrite E in E'.
  destruct (append_inj_length _ _ _ _ E' L) as [_ E1].
  destruct (append_inj_length _ _ _ _ E1 eq_refl) as [_ E2].
  now destruct (append_inj_length _ _ _ _ E2 Lc).
Qed.

Lemma exec_first_capture (s cap : string) :
  JS.exec re s = Some cap <-> first_capture re s cap.
Proof.
  split; [apply exec_sound|]. intros Hf.
  destruct (JS.exec re s) as [cap0|] eqn:He.
  - f_equal. exact (first_capture_unique _ _ _ (exec_sound _ _ He) Hf).
  - apply exec_absent in He. destruct Hf as (pre & post & Ho & _).
    destruct He. now exists pre, cap, post.
Qed.

Lemma first_capture_run (s cap : string) :
  first_capture re s cap -> cap <> "" /\ all_chars cls cap = true.
Proof. intros (pre & post & (_ & H) & _). exact H. Qed.

End Matching.

(** ** Rounding to binary64 *)

Lemma round_half_even_nonneg (num den : Z) :
  (0 <= num)%Z -> (0 < den)%Z -> (0 <= JS.round_half_even num den)%Z.
Proof.
  intros Hn Hd. unfold JS.round_half_even.
  assert (H := Z.div_pos num den Hn Hd).
  destruct (2 * (num mod den) ?= den)%Z; [destruct (Z.even _)| |]; lia.
Qed.

Lemma round_half_even_floor (num den : Z) :
  (0 < den)%Z -> (num / den <= JS.round_half_even num den)%Z.
Proof.
  intros Hd. unfold JS.round_half_even.
  destruct (2 * (num mod den) ?= den)%Z; [destruct (Z.even _)| |]; lia.
Qed.

(** The integer chosen is a nearest one: it is off by half a unit at
    most. *)
Lemma round_half_even_nearest (num den : Z) :
  (0 < den)%Z ->
  (2 * Z.abs (num - JS.round_half_even num den * den) <= den)%Z.
Proof.
  intros Hd. unfold JS.round_half_even. cbv zeta.
  assert (Hm := Z.mod_pos_bound num den Hd).
  assert (E := Z.div_mod num den ltac:(lia)).
  set (k := (num / den)%Z) in *. set (r := (num mod den)%Z) in *.
  assert (E0 : (num - k * den = r)%Z) by lia.
  assert (E1 : (num - (k + 1) * den = r - den)%Z) by lia.
  destruct (Z.compare_spec (2 * r) den) as [Hc|Hc|Hc];
    [destruct (Z.even _)| |]; rewrite ?E0, ?E1; lia.
Qed.

Lemma round_half_even_1 (num : Z) : JS.round_half_even num 1 = num.
Proof.
  unfold JS.round_half_even. now rewrite Z.mod_1_r, Z.div_1_r.
Qed.

Lemma Qred_inject_Z (z : Z) : Qred (inject_Z z) = inject_Z z.
Proof.
  unfold Qred, inject_Z.
  assert (Hg := Z.ggcd_gcd z 1). assert (Hd := Z.ggcd_correct_divisors z 1).
  destruct (Z.ggcd z 1) as [g [a b]]. simpl in Hg, Hd.
  rewrite Z.gcd_1_r in Hg. subst g. destruct Hd as [Ha Hb].
  assert (a = z) as -> by lia. assert (b = 1%Z) as -> by lia. reflexivity.
Qed.

Lemma Qred_scaled (z k : Z) :
  (0 <= k)%Z -> Qred (z * 2 ^ k # Z.to_pos (2 ^ k)) = inject_Z z.
Proof.
  intros Hk. rewrite <- Qred_inject_Z. apply Qred_complete.
  unfold Qeq. simpl. rewrite Z2Pos.id by (apply Z.pow_pos_nonneg; lia). ring.
Qed.

(** Rounding yields a number that is not negative, or [Infinity]; never
    [NaN], the negative zero or the negative infinity. *)
Lemma binary64_cases (q : Q) :
  JS.binary64 q = JS.Infinity false
  \/ exists q', JS.binary64 q = JS.Num q' /\ (0 <= q')%Q.
Proof.
  unfold JS.binary64. destruct (Qnum q <=? 0)%Z eqn:Hn.
  - right. exists 0%Q. split; [reflexivity | apply Qle_refl].
  - apply Z.leb_gt in Hn.
    destruct (0 <=? JS.binary_exponent _ _)%Z eqn:He.
    + apply Z.leb_le in He.
      destruct (2 ^ 1024 <=? _)%Z; [now left | right].
      eexists. split; [reflexivity|].
      change 0%Q with (inject_Z 0). rewrite <- Zle_Qle.
      assert (0 < 2 ^ JS.binary_exponent (Qnum q) (Z.pos (Qden q)))%Z
        by (apply Z.pow_pos_nonneg; lia).
      apply Z.mul_nonneg_nonneg; [apply round_half_even_nonneg|]; lia.
    + apply Z.leb_gt in He. right. eexists. split; [reflexivity|].
      rewrite Qred_correct. unfold Qle. simpl. rewrite Z.mul_1_r.
      assert (0 < 2 ^ (- JS.binary_exponent (Qnum q) (Z.pos (Qden q))))%Z
        by (apply Z.pow_pos_nonneg; lia).
      apply round_half_even_nonneg; lia.
Qed.

Lemma binary64_not_NaN (q : Q) : JS.binary64 q <> JS.NaN.
Proof.
  destruct (binary64_cases q) as [E|(q' & E & _)]; rewrite E; discriminate.
Qed.

(** An integer below [2 ^ 53] is a binary64 value: rounding keeps it. *)
Lemma binary64_exact (z : Z) :
  (0 <= z < 2 ^ 53)%Z -> JS.binary64 (inject_Z z) = JS.Num (inject_Z z).
Proof.
  intros [Hz Hlt]. unfold JS.binary64. cbn [Qnum Qden inject_Z].
  destruct (z <=? 0)%Z eqn:Hn.
  - apply Z.leb_le in Hn. now replace z with 0%Z by lia.
  - apply Z.leb_gt in Hn.
    assert (Hl := Z.log2_spec z Hn). assert (Hl0 := Z.log2_nonneg z).
    assert (Hl53 : (Z.log2 z < 53)%Z) by (apply Z.log2_lt_pow2; lia).
    assert (E : JS.binary_exponent z 1 = (Z.log2 z - 52)%Z).
    { unfold JS.binary_exponent, JS.at_least_pow2.
      change (Z.log2 1) with 0%Z. rewrite Z.sub_0_r.
      destruct (0 <=? Z.log2 z)%Z eqn:H0; [|apply Z.leb_gt in H0; lia].
      destruct (1 * 2 ^ Z.log2 z <=? z)%Z eqn:H1;
        [|apply Z.leb_gt in H1]; lia. }
    rewrite E. clear E.
    destruct (0 <=? Z.log2 z - 52)%Z eqn:He.
    + apply Z.leb_le in He. replace (Z.log2 z - 52)%Z with 0%Z by lia.
      change (1 * 2 ^ 0)%Z with 1%Z. rewrite round_half_even_1.
      change (2 ^ 0)%Z with 1%Z. rewrite Z.mul_1_r.
      destruct (2 ^ 1024 <=? z)%Z eqn:Hb; [|reflexivity].
      apply Z.leb_le in Hb.
      assert (2 ^ 53 < 2 ^ 1024)%Z by (apply Z.pow_lt_mono_r; lia). lia.
    + apply Z.leb_gt in He. rewrite round_half_even_1.
      f_equal. apply Qred_scaled. lia.
Qed.

(** From [2 ^ 1024] on, an integer is out of the range: [Infinity]. *)
Lemma binary64_overflow (z : Z) :
  (2 ^ 1024 <= z)%Z -> JS.binary64 (inject_Z z) = JS.Infinity false.
Proof.
  intros Hz. unfold JS.binary64. cbn [Qnum Qden inject_Z].
  assert (Hp : (0 < 2 ^ 1024)%Z) by (apply Z.pow_pos_nonneg; lia).
  destruct (z <=? 0)%Z eqn:Hn; [apply Z.leb_le in Hn; lia|].
  apply Z.leb_gt in Hn.
  assert (Hl := Z.log2_spec z Hn).
  assert (Hl1024 : (1024 <= Z.log2 z)%Z) by (apply Z.log2_le_pow2; lia).
  assert (E : JS.binary_exponent z 1 = (Z.log2 z - 52)%Z).
  { unfold JS.binary_exponent, JS.at_least_pow2.
    change (Z.log2 1) with 0%Z. rewrite Z.sub_0_r.
    destruct (0 <=? Z.log2 z)%Z eqn:H0; [|apply Z.leb_gt in H0; lia].
    destruct (1 * 2 ^ Z.log2 z <=? z)%Z eqn:H1;
      [|apply Z.leb_gt in H1]; lia. }
  rewrite E. clear E.
  destruct (0 <=? Z.log2 z - 52)%Z eqn:He; [|apply Z.leb_gt in He; lia].
  set (e := (Z.log2 z - 52)%Z).
  assert (He0 : (0 < 2 ^ e)%Z) by (apply Z.pow_pos_nonneg; lia).
  assert (Hs : (2 ^ Z.log2 z = 2 ^ 52 * 2 ^ e)%Z).
  { rewrite <- Z.pow_add_r by lia. f_equal. lia. }
  assert (Hq : (2 ^ 52 <= z / (1 * 2 ^ e))%Z).
  { apply Z.div_le_lower_bound; lia. }
  assert (Hm := round_half_even_floor z (1 * 2 ^ e) ltac:(lia)).
  assert (Hle : (2 ^ 1024 <= 2 ^ Z.log2 z)%Z)
    by (apply Z.pow_le_mono_r; lia).
  destruct (2 ^ 1024 <=? _)%Z eqn:Hb; [reflexivity|].
  apply Z.leb_gt in Hb. rewrite Hs in Hle.
  assert (2 ^ 52 * 2 ^ e <= JS.round_half_even z (1 * 2 ^ e) * 2 ^ e)%Z
    by (apply Z.mul_le_mono_nonneg_r; lia).
  lia.
Qed.

(** *** The value returned is a nearest one *)

Section Binary64Spec.

Local Open Scope Z_scope.

Lemma pow2_pos (k : Z) : 0 <= k -> 0 < 2 ^ k.
Proof. intros. apply Z.pow_pos_nonneg; lia. Qed.

Lemma pow2_split (x y : Z) : 0 <= x -> 0 <= y -> 2 ^ (x + y) = 2 ^ x * 2 ^ y.
Proof. intros. apply Z.pow_add_r; lia. Qed.

Lemma at_least_pow2_true (n d l : Z) :
  JS.at_least_pow2 n d l = true <->
  (0 <= l /\ d * 2 ^ l <= n) \/ (l < 0 /\ d <= n * 2 ^ (- l)).
Proof.
  unfold JS.at_least_pow2. destruct (Z.leb_spec 0 l).
  - rewrite Z.leb_le. intuition lia.
  - rewrite Z.leb_le. intuition lia.
Qed.

Lemma at_least_pow2_false (n d l : Z) :
  JS.at_least_pow2 n d l = false <->
  (0 <= l /\ n < d * 2 ^ l) \/ (l < 0 /\ n * 2 ^ (- l) < d).
Proof.
  unfold JS.at_least_pow2. destruct (Z.leb_spec 0 l).
  - rewrite Z.leb_gt. intuition lia.
  - rewrite Z.leb_gt. intuition lia.
Qed.

Lemma at_least_pow2_antitone (n d j k : Z) :
  0 <= n -> 0 < d -> j <= k ->
  JS.at_least_pow2 n d k = true -> JS.at_least_pow2 n d j = true.
Proof.
  intros Hn Hd Hjk H. apply at_least_pow2_true in H.
  apply at_least_pow2_true.
  destruct (Z.leb_spec 0 j) as [Hj|Hj]; [left | right]; (split; [lia|]).
  - destruct H as [[_ H]|[? _]]; [|lia].
    assert (2 ^ j <= 2 ^ k) by (apply Z.pow_le_mono_r; lia). nia.
  - destruct H as [[Hk H]|[Hk H]].
    + assert (0 < 2 ^ k) by now apply pow2_pos.
      assert (0 < 2 ^ (- j)) by (apply pow2_pos; lia). nia.
    + assert (2 ^ (- k) <= 2 ^ (- j)) by (apply Z.pow_le_mono_r; lia). nia.
Qed.

Lemma at_least_pow2_log_lower (n d : Z) :
  0 < n -> 0 < d ->
  JS.at_least_pow2 n d (Z.log2 n - Z.log2 d - 1) = true.
Proof.
  intros Hn Hd. apply at_least_pow2_true.
  assert (Ha := Z.log2_spec n Hn). assert (Hb := Z.log2_spec d Hd).
  assert (Ha0 := Z.log2_nonneg n). assert (Hb0 := Z.log2_nonneg d).
  set (a := Z.log2 n) in *. set (b := Z.log2 d) in *.
  rewrite !Z.pow_succ_r in Ha, Hb by assumption.
  destruct (Z.leb_spec 0 (a - b - 1)) as [Hk|Hk]; [left | right];
    (split; [lia|]).
  - assert (E : 2 ^ a = 2 * 2 ^ b * 2 ^ (a - b - 1)).
    { rewrite <- Z.pow_succ_r, <- pow2_split by lia. f_equal. lia. }
    assert (0 < 2 ^ (a - b - 1)) by now apply pow2_pos. nia.
  - assert (E : 2 ^ a * 2 ^ (- (a - b - 1)) = 2 * 2 ^ b).
    { rewrite <- pow2_split, <- Z.pow_succ_r by lia. f_equal. lia. }
    assert (0 < 2 ^ (- (a - b - 1))) by (apply pow2_pos; lia). nia.
Qed.

Lemma at_least_pow2_log_upper (n d : Z) :
  0 < n -> 0 < d ->
  JS.at_least_pow2 n d (Z.log2 n - Z.log2 d + 1) = false.
Proof.
  intros Hn Hd. apply at_least_pow2_false.
  assert (Ha := Z.log2_spec n Hn). assert (Hb := Z.log2_spec d Hd).
  assert (Ha0 := Z.log2_nonneg n). assert (Hb0 := Z.log2_nonneg d).
  set (a := Z.log2 n) in *. set (b := Z.log2 d) in *.
  rewrite !Z.pow_succ_r in Ha, Hb by assumption.
  destruct (Z.leb_spec 0 (a - b + 1)) as [Hk|Hk]; [left | right];
    (split; [lia|]).
  - assert (E : 2 * 2 ^ a = 2 ^ b * 2 ^ (a - b + 1)).
    { rewrite <- Z.pow_succ_r, <- pow2_split by lia. f_equal. lia. }
    assert (0 < 2 ^ (a - b + 1)) by now apply pow2_pos. nia.
  - assert (E : 2 * 2 ^ a * 2 ^ (- (a - b + 1)) = 2 ^ b).
    { rewrite <- Z.pow_succ_r, <- pow2_split by lia. f_equal. lia. }
    assert (0 < 2 ^ (- (a - b + 1))) by (apply pow2_pos; lia). nia.
Qed.

(** The floor of the binary logarithm of [n / d]. *)
Lemma binary_exponent_floor (n d : Z) :
  0 < n -> 0 < d ->
  exists fl,
    JS.binary_exponent n d = Z.max (fl - 52) (-1074)
    /\ JS.at_least_pow2 n d fl = true
    /\ JS.at_least_pow2 n d (fl + 1) = false.
Proof.
  intros Hn Hd. unfold JS.binary_exponent. cbv zeta.
  assert (Hlo := at_least_pow2_log_lower n d Hn Hd).
  assert (Hup := at_least_pow2_log_upper n d Hn Hd).
  destruct (JS.at_least_pow2 n d (Z.log2 n - Z.log2 d)) eqn:H.
  - exists (Z.log2 n - Z.log2 d). auto.
  - exists (Z.log2 n - Z.log2 d - 1). split; [reflexivity|].
    split; [assumption|]. now replace (_ - 1 + 1) with (Z.log2 n - Z.log2 d) by lia.
Qed.

(** What is rounded, [n / d] over [2 ^ e], is below [2 ^ 53], and it is
    [2 ^ 52] at least unless the exponent is that of the subnormal
    numbers: the integer nearest to it is a significand of binary64. *)
Lemma binary_exponent_spec (n d : Z) :
  0 < n -> 0 < d ->
  let e := JS.binary_exponent n d in
  -1074 <= e
  /\ (0 <= e -> 2 ^ 52 * (d * 2 ^ e) <= n < 2 ^ 53 * (d * 2 ^ e))
  /\ (e < 0 ->
      n * 2 ^ (- e) < 2 ^ 53 * d
      /\ (-1074 < e -> 2 ^ 52 * d <= n * 2 ^ (- e))).
Proof.
  intros Hn Hd e. destruct (binary_exponent_floor n d Hn Hd) as (fl & E & Hlo & Hup).
  fold e in E.
  split; [lia|]. split.
  - intros He. assert (e = fl - 52) by lia.
    apply at_least_pow2_true in Hlo as [[_ Hlo]|[? _]]; [|lia].
    apply at_least_pow2_false in Hup as [[_ Hup]|[? _]]; [|lia].
    replace fl with (52 + e) in Hlo by lia.
    replace (fl + 1) with (53 + e) in Hup by lia.
    rewrite pow2_split in Hlo, Hup by lia. lia.
  - intros He. split.
    + assert (Hup' : JS.at_least_pow2 n d (e + 53) = false).
      { destruct (JS.at_least_pow2 n d (e + 53)) eqn:H; [|reflexivity].
        apply (at_least_pow2_antitone n d (fl + 1)) in H; [congruence|lia..]. }
      assert (0 < 2 ^ (- e)) by (apply pow2_pos; lia).
      apply at_least_pow2_false in Hup' as [[Hk Hup']|[Hk Hup']].
      * assert (E' : 2 ^ 53 = 2 ^ (e + 53) * 2 ^ (- e)).
        { rewrite <- pow2_split by lia. f_equal. lia. }
        rewrite E'. nia.
      * assert (E' : 2 ^ (- (e + 53)) = 2 ^ (- e - 53)) by (f_equal; lia).
        assert (E2 : 2 ^ (- e) = 2 ^ (- e - 53) * 2 ^ 53).
        { rewrite <- pow2_split by lia. f_equal. lia. }
        rewrite E' in Hup'. rewrite E2.
        assert (0 < 2 ^ (- e - 53)) by (apply pow2_pos; lia). nia.
    + intros Hsub. assert (Ee : e = fl - 52) by lia.
      assert (0 < 2 ^ (- e)) by (apply pow2_pos; lia).
      replace fl with (e + 52) in Hlo by lia.
      apply at_least_pow2_true in Hlo as [[Hk Hlo]|[Hk Hlo]].
      * assert (E' : 2 ^ 52 = 2 ^ (e + 52) * 2 ^ (- e)).
        { rewrite <- pow2_split by lia. f_equal. lia. }
        rewrite E'. nia.
      * assert (E2 : 2 ^ (- e) = 2 ^ (- (e + 52)) * 2 ^ 52).
        { rewrite <- pow2_split by lia. f_equal. lia. }
        rewrite E2. nia.
Qed.

(** On a tie the even integer is chosen. *)
Lemma round_half_even_tie (num den : Z) :
  0 < den -> 2 * (num mod den) = den ->
  Z.even (JS.round_half_even num den) = true.
Proof.
  intros Hd Ht. unfold JS.round_half_even. cbv zeta.
  rewrite Ht, Z.compare_refl.
  destruct (Z.even (num / den)) eqn:E; [exact E|].
  now rewrite Z.even_add, E.
Qed.

Lemma round_half_even_range (num den lo hi : Z) :
  0 < den ->
  (lo * den <= num -> lo <= JS.round_half_even num den)
  /\ (num < hi * den -> JS.round_half_even num den <= hi).
Proof.
  intros Hd. assert (Hf := round_half_even_floor num den Hd).
  split; intros H.
  - assert (lo <= num / den) by (apply Z.div_le_lower_bound; lia). lia.
  - assert (num / den < hi) by (apply Z.div_lt_upper_bound; lia).
    unfold JS.round_half_even. cbv zeta.
    destruct (2 * (num mod den) ?= den); [destruct (Z.even _)| |]; lia.
Qed.

Lemma Qpower2_nonneg (e : Z) :
  0 <= e -> (inject_Z 2 ^ e == inject_Z (2 ^ e))%Q.
Proof. intros He. symmetry. now apply Zpower_Qpower. Qed.

Lemma Qpower2_neg (e : Z) :
  e < 0 -> (inject_Z 2 ^ e == 1 # Z.to_pos (2 ^ (- e)))%Q.
Proof.
  intros He. replace e with (- - e) at 1 by lia.
  rewrite Qpower_opp, Qpower2_nonneg by lia.
  assert (Hp : 0 < 2 ^ (- e)) by (apply pow2_pos; lia).
  destruct (2 ^ (- e)) as [|p|p] eqn:E; try lia. reflexivity.
Qed.

(** What [binary64] returns for a positive real [q]: with [e] the exponent
    of its last place, an integer [m] of 53 bits at most (of 53 bits
    exactly, over the subnormal range) such that [m * 2 ^ e] is off [q]
    by half a unit of the last place at most; the result is that number,
    or [Infinity] when it is [2 ^ 1024]. *)
Lemma binary64_nearest (q : Q) :
  (0 < q)%Q ->
  exists m e : Z,
    -1074 <= e /\ 0 <= m <= 2 ^ 53 /\ (-1074 < e -> 2 ^ 52 <= m)
    /\ (Qabs (q - inject_Z m * inject_Z 2 ^ e) <= (1 # 2) * inject_Z 2 ^ e)%Q
    /\ ((JS.binary64 q = JS.Infinity false
         /\ (inject_Z 2 ^ 1024 <= inject_Z m * inject_Z 2 ^ e)%Q)
        \/ (exists q', JS.binary64 q = JS.Num q'
                       /\ (q' == inject_Z m * inject_Z 2 ^ e)%Q
                       /\ (q' < inject_Z 2 ^ 1024)%Q)).
Proof.
  intros Hq. destruct q as [n d]. unfold Qlt in Hq. simpl in Hq.
  rewrite Z.mul_1_r in Hq.
  assert (Hd : 0 < Z.pos d) by lia.
  destruct (binary_exponent_spec n (Z.pos d) Hq Hd) as (Hmin & Hnn & Hneg).
  unfold JS.binary64. cbn [Qnum Qden].
  destruct (Z.leb_spec n 0) as [?|_]; [lia|].
  set (e := JS.binary_exponent n (Z.pos d)) in *.
  destruct (Z.leb_spec 0 e) as [He|He].
  - specialize (Hnn He). clear Hneg.
    assert (Hp : 0 < 2 ^ e) by now apply pow2_pos.
    set (P := 2 ^ e) in *.
    assert (Hden : 0 < Z.pos d * P) by lia.
    assert (Hnear := round_half_even_nearest n (Z.pos d * P) Hden).
    destruct (round_half_even_range n (Z.pos d * P) (2 ^ 52) (2 ^ 53) Hden)
      as [Hlo Hhi].
    specialize (Hlo ltac:(lia)). specialize (Hhi ltac:(lia)).
    set (m := JS.round_half_even n (Z.pos d * P)) in *.
    exists m, e. split; [exact Hmin|]. split; [lia|]. split; [intros _; exact Hlo|].
    assert (EP : (inject_Z 2 ^ e == inject_Z P)%Q) by now apply Qpower2_nonneg.
    assert (E1024 : (inject_Z 2 ^ 1024 == inject_Z (2 ^ 1024))%Q)
      by now apply Qpower2_nonneg.
    split.
    + rewrite EP. apply Qabs_Qle_condition.
      unfold Qle, Qminus, Qplus, Qopp, Qmult, inject_Z. simpl.
      rewrite ?Z.mul_1_r, ?Pos2Z.inj_mul. simpl. lia.
    + destruct (Z.leb_spec (2 ^ 1024) (m * P)) as [Hb|Hb]; [left | right].
      * split; [reflexivity|]. rewrite EP, E1024, <- inject_Z_mult.
        now rewrite <- Zle_Qle.
      * eexists. split; [reflexivity|]. split.
        -- now rewrite EP, <- inject_Z_mult.
        -- rewrite E1024. now rewrite <- Zlt_Qlt.
  - destruct (Hneg He) as [Hup Hlow]. clear Hnn Hneg.
    assert (Hp : 0 < 2 ^ (- e)) by (apply pow2_pos; lia).
    set (P := 2 ^ (- e)) in *.
    assert (Hnear := round_half_even_nearest (n * P) (Z.pos d) Hd).
    destruct (round_half_even_range (n * P) (Z.pos d) (2 ^ 52) (2 ^ 53) Hd)
      as [Hlo Hhi].
    specialize (Hhi ltac:(lia)).
    assert (Hm0 : 0 <= JS.round_half_even (n * P) (Z.pos d))
      by (apply round_half_even_nonneg; lia).
    set (m := JS.round_half_even (n * P) (Z.pos d)) in *.
    exists m, e. split; [exact Hmin|]. split; [lia|].
    split; [intros Hs; apply Hlo; specialize (Hlow Hs); lia|].
    assert (EP : (inject_Z 2 ^ e == 1 # Z.to_pos P)%Q) by now apply Qpower2_neg.
    assert (E1024 : (inject_Z 2 ^ 1024 == inject_Z (2 ^ 1024))%Q)
      by now apply Qpower2_nonneg.
    assert (Em : (inject_Z m * inject_Z 2 ^ e == m # Z.to_pos P)%Q).
    { rewrite EP. unfold Qeq, Qmult, inject_Z. simpl. lia. }
    split.
    + rewrite Em, EP. apply Qabs_Qle_condition.
      unfold Qle, Qminus, Qplus, Qopp, Qmult. simpl.
      rewrite ?Pos2Z.inj_mul, !Z2Pos.id by exact Hp. nia.
    + right. eexists. split; [reflexivity|]. split.
      * now rewrite Qred_correct, Em.
      * rewrite Qred_correct, E1024. unfold Qlt. simpl.
        rewrite Z2Pos.id by exact Hp.
        assert (2 ^ 53 < 2 ^ 1024) by (apply Z.pow_lt_mono_r; lia). nia.
Qed.

End Binary64Spec.

(** ** Numbers read from a captured run *)

Ltac ascii_cases c :=
  destruct c as [[] [] [] [] [] [] [] []]; try discriminate.

Lemma span_all (p : ascii -> bool) (s : string) :
  all_chars p s = true -> JS.span p s = (s, "").
Proof.
  induction s as [|c s IH]; simpl; [reflexivity|].
  intros H. apply andb_true_iff in H as [-> H]. now rewrite IH.
Qed.

Lemma span_empty (p : ascii -> bool) (s : string) :
  fst (JS.span p s) = "" <->
  s = "" \/ exists c s', s = String c s' /\ p c = false.
Proof.
  destruct s as [|c s]; simpl.
  - split; [now left | reflexivity].
  - destruct (p c) eqn:Hc.
    + destruct (JS.span p s). simpl. split; [discriminate|].
      intros [E|(c' & s' & [= -> ->] & H)]; congruence.
    + simpl. split; [|reflexivity]. intros _. right. now exists c, s.
Qed.

Lemma num_char_cases (c : ascii) :
  JS.is_num_char c = true -> JS.is_digit c = true \/ c = "."%char.
Proof.
  unfold JS.is_num_char. intros H. apply orb_true_iff in H as [H|H].
  - now left.
  - right. now apply Ascii.eqb_eq.
Qed.

Lemma decimal_value_nonneg (mant : N) (e : Z) :
  (0 <= inject_Z (Z.of_N mant) * inject_Z 10 ^ e)%Q.
Proof.
  apply Qmult_le_0_compat.
  - change 0%Q with (inject_Z 0). rewrite <- Zle_Qle. lia.
  - apply Qpower_pos. now change 0%Q with (inject_Z 0); rewrite <- Zle_Qle.
Qed.

(** A run that starts with a digit is read as a number: the rounding of
    a value that is not negative. *)
Lemma parseFloat_digit_led (c : ascii) (r : string) :
  JS.is_digit c = true ->
  exists q, (0 <= q)%Q /\ JS.parseFloat (String c r) = JS.binary64 q.
Proof.
  intros Hc. unfold JS.parseFloat.
  assert (E : JS.read_sign (JS.drop_while JS.is_space (String c r))
              = (false, String c r)) by (ascii_cases c; reflexivity).
  rewrite E. clear E.
  assert (E : JS.strip_prefix "Infinity" (String c r) = None)
    by (ascii_cases c; reflexivity).
  rewrite E. clear E.
  simpl JS.span. rewrite Hc. destruct (JS.span JS.is_digit r) as [ip r1].
  destruct (match r1 with
            | String "." r1' => JS.span JS.is_digit r1'
            | _ => ("", r1)
            end) as [fp r2].
  eexists. split; [|reflexivity]. apply decimal_value_nonneg.
Qed.

(** A run that starts with a dot is read as a number exactly when a digit
    follows the dot. *)
Lemma parseFloat_dot_led (r : string) :
  (fst (JS.span JS.is_digit r) = "" /\ JS.parseFloat (String "." r) = JS.NaN)
  \/ (fst (JS.span JS.is_digit r) <> ""
      /\ exists q, (0 <= q)%Q
                   /\ JS.parseFloat (String "." r) = JS.binary64 q).
Proof.
  unfold JS.parseFloat. simpl.
  destruct (JS.span JS.is_digit r) as [fp r2]. simpl.
  destruct fp as [|d fp]; [left | right]; split;
    [reflexivity | reflexivity | discriminate |].
  eexists. split; [|reflexivity]. apply decimal_value_nonneg.
Qed.

Lemma parseFloat_run (cap : string) :
  cap <> "" -> all_chars JS.is_num_char cap = true ->
  (JS.parseFloat cap = JS.NaN <-> dot_led cap)
  /\ (~ dot_led cap ->
      exists q, (0 <= q)%Q /\ JS.parseFloat cap = JS.binary64 q).
Proof.
  intros Hne Hall. destruct cap as [|c r]; [congruence|]. clear Hne.
  simpl in Hall. apply andb_true_iff in Hall as [Hc Hall].
  destruct (num_char_cases _ Hc) as [Hd| ->].
  - destruct (parseFloat_digit_led c r Hd) as (q & Hq0 & Hq).
    assert (Hnd : ~ dot_led (String c r)).
    { intros (r0 & [= -> _] & _). discriminate. }
    split; [|eauto]. rewrite Hq.
    split; [intros H; now apply binary64_not_NaN in H | now intros H].
  - destruct (parseFloat_dot_led r) as [[He Hp]|[He (q & Hq0 & Hq)]].
    + assert (Hd : dot_led (String "." r)).
      { exists r. split; [reflexivity|].
        apply span_empty in He as [->|(c & s' & -> & Hc')]; [now left|].
        right. exists s'. simpl in Hall.
        apply andb_true_iff in Hall as [Hn _].
        destruct (num_char_cases _ Hn) as [?| ->]; [congruence | reflexivity]. }
      split; [now split | now intros H].
    + assert (Hnd : ~ dot_led (String "." r)).
      { intros (r0 & [= <-] & [->|[r' ->]]); now apply He. }
      split; [|eauto]. rewrite Hq.
      split; [intros H; now apply binary64_not_NaN in H | now intros H].
Qed.

Lemma span_stop (p : ascii -> bool) (a b : string) :
  all_chars p a = true ->
  b = "" \/ (exists c b', b = String c b' /\ p c = false) ->
  JS.span p (a ++ b) = (a, b).
Proof.
  intros Ha Hb. induction a as [|x a IH]; simpl.
  - destruct Hb as [->|(c & b' & -> & Hc)]; simpl; [reflexivity|].
    now rewrite Hc.
  - simpl in Ha. apply andb_true_iff in Ha as [-> Ha]. now rewrite IH.
Qed.

(** A decimal numeral is read as the binary64 value nearest to the number
    it writes: the digits taken as one integer, times ten to minus the
    number of digits after the dot. *)
Lemma parseFloat_decimal (ip fp : string) :
  ip <> "" -> all_chars JS.is_digit ip = true ->
  all_chars JS.is_digit fp = true ->
  JS.parseFloat (ip ++ "." ++ fp)
  = JS.binary64 (inject_Z (Z.of_N (JS.digits_val 0 (ip ++ fp)))
                 * inject_Z 10 ^ (- Z.of_nat (String.length fp))).
Proof.
  intros Hne Hip Hfp. destruct ip as [|c r]; [congruence|]. clear Hne.
  assert (Hs : JS.span JS.is_digit (String c r ++ "." ++ fp)
               = (String c r, "." ++ fp)).
  { apply span_stop; [exact Hip|]. right. now exists "."%char, fp. }
  simpl in Hip. apply andb_true_iff in Hip as [Hc Hr].
  unfold JS.parseFloat.
  assert (E : JS.read_sign (JS.drop_while JS.is_space
                              (String c r ++ "." ++ fp))
              = (false, String c r ++ "." ++ fp))
    by (ascii_cases c; reflexivity).
  rewrite E. clear E.
  assert (E : JS.strip_prefix "Infinity" (String c r ++ "." ++ fp) = None)
    by (ascii_cases c; reflexivity).
  rewrite E, Hs. clear E.
  change ("." ++ fp) with (String "."%char fp). cbv iota beta.
  rewrite (span_all _ _ Hfp). cbn [JS.read_exponent JS.signed].
  now rewrite Z.sub_0_l.
Qed.

(** A run of digits is read by [parseInt] as the binary64 value nearest
    to the integer it writes. *)
Lemma parseInt_digits (cap : string) :
  cap <> "" -> all_chars JS.is_digit cap = true ->
  JS.parseInt cap = JS.binary64 (inject_Z (Z.of_N (JS.digits_val 0 cap))).
Proof.
  intros Hne Hall. destruct cap as [|c r]; [congruence|]. clear Hne.
  assert (Hs := span_all _ _ Hall).
  simpl in Hall. apply andb_true_iff in Hall as [Hc Hall].
  unfold JS.parseInt.
  assert (E : JS.read_sign (JS.drop_while JS.is_space (String c r))
              = (false, String c r)) by (ascii_cases c; reflexivity).
  rewrite E. clear E.
  assert (E : match String c r with
              | String "0" (String x r') =>
                  if (Ascii.eqb x "x" || Ascii.eqb x "X")%bool
                  then Some r' else None
              | _ => None
              end = None).
  { destruct r as [|x r']; [ascii_cases c; reflexivity|].
    simpl in Hall. apply andb_true_iff in Hall as [Hx _].
    assert ((Ascii.eqb x "x" || Ascii.eqb x "X")%bool = false) as ->
      by (ascii_cases x; reflexivity).
    ascii_cases c; reflexivity. }
  rewrite E, Hs. reflexivity.
Qed.

(** Below [2 ^ 53] the run is read exactly. *)
Lemma parseInt_digits_exact (cap : string) :
  cap <> "" -> all_chars JS.is_digit cap = true ->
  (JS.digits_val 0 cap < 2 ^ 53)%N ->
  JS.parseInt cap = JS.Num (inject_Z (Z.of_N (JS.digits_val 0 cap))).
Proof.
  intros Hne Hall Hlt. rewrite parseInt_digits by assumption.
  apply binary64_exact. split; [lia|].
  change (2 ^ 53)%Z with (Z.of_N (2 ^ 53)). lia.
Qed.

(** From [2 ^ 1024] on it is read as [Infinity]. *)
Lemma parseInt_digits_overflow (cap : string) :
  cap <> "" -> all_chars JS.is_digit cap = true ->
  (2 ^ 1024 <= JS.digits_val 0 cap)%N ->
  JS.parseInt cap = JS.Infinity false.
Proof.
  intros Hne Hall Hge. rewrite parseInt_digits by assumption.
  apply binary64_overflow.
  change (2 ^ 1024)%Z with (Z.of_N (2 ^ 1024)). lia.
Qed.

(** Past [2 ^ 53] not every integer is a binary64 value: the run is read
    as a neighbour. *)
Example parseInt_rounds :
  JS.parseInt "9007199254740993" = JS.Num (inject_Z 9007199254740992).
Proof. vm_compute. reflexivity. Qed.

(** A run of 310 digits is out of the range of binary64. *)
Example parse_overflow :
  let run := String "1" (string_of_list_ascii (repeat "0"%char 309)) in
  JS.parseInt run = JS.Infinity false
  /\ JS.parseFloat run = JS.Infinity false.
Proof. vm_compute. split; reflexivity. Qed.

(** The example of the specification: 87.35 and 91.2, each as the
    binary64 value nearest to it. *)
Example parseStats_example :
  parseStats ("Precision@1: 87.350%" ++ nl ++ "R@1: 91.200%")
  = Some {| precision := JS.binary64 (8735 # 100);
            mapR := JS.Num 0;
            recall := {| r1 := JS.binary64 (912 # 10); r5 := JS.Num 0;
                         r10 := JS.Num 0; r100 := JS.Num 0 |};
            embeddings := "0"; dim := JS.Num 0 |}.
Proof. vm_compute. reflexivity. Qed.

(** ** The metrics decoder *)

Lemma getNum_percent_field (name raw : string) :
  percent_field (percent_re name) raw (getNum raw (percent_re name)).
Proof.
  unfold getNum. destruct (JS.exec _ raw) as [cap|] eqn:He; split.
  - intros Hno. apply exec_absent in Hno. congruence.
  - intros cap' Hf. apply exec_first_capture in Hf.
    assert (cap' = cap) as -> by congruence.
    split; [reflexivity|].
    apply exec_first_capture, first_capture_run in He as [Hne Hall].
    now apply parseFloat_run.
  - reflexivity.
  - intros cap Hf. apply exec_first_capture in Hf. congruence.
Qed.

Lemma exec_count_field (name raw : string) :
  count_field (count_re name) raw (JS.or_else (JS.exec (count_re name) raw) "0").
Proof.
  destruct (JS.exec _ raw) as [cap|] eqn:He; split.
  - intros Hno. apply exec_absent in Hno. congruence.
  - intros cap' Hf. apply exec_first_capture in Hf.
    assert (cap' = cap) as -> by congruence.
    apply exec_first_capture, first_capture_run in He as [Hne _].
    destruct cap; [congruence | reflexivity].
  - reflexivity.
  - intros cap Hf. apply exec_first_capture in Hf. congruence.
Qed.

Lemma count_text_digits (name raw : string) :
  let text := JS.or_else (JS.exec (count_re name) raw) "0" in
  text <> "" /\ all_chars JS.is_digit text = true.
Proof.
  simpl. destruct (JS.exec _ raw) as [cap|] eqn:He.
  - apply exec_first_capture, first_capture_run in He as [Hne Hall].
    destruct cap; [congruence|]. split; [discriminate | exact Hall].
  - split; [discriminate | reflexivity].
Qed.

(** C4, as stated, fails: a field that is there but malformed does not
    always yield [0].  After the label ["Precision@1: "] the run ["."] is
    matched by [[\d.]+], and [parseFloat(".")] is [NaN]. *)
Lemma parseStats_malformed_field_not_zero :
  exists st,
    parseStats ("Precision@1: .%" ++ nl ++ "MAP@R: 45.2%") = Some st
    /\ precision st = JS.NaN /\ precision st <> JS.Num 0
    /\ mapR st = JS.binary64 (452 # 10).
Proof.
  eexists. split; [reflexivity|]. vm_compute.
  split; [reflexivity | split; [discriminate | reflexivity]].
Qed.

(** C4, amended. For every raw text [parseStats] returns a structure and
    never [null]. Each of the eight fields is read from the leftmost
    occurrence of its own pattern and from nothing else. A percentage
    field whose pattern does not occur is [0]; one whose pattern occurs is
    [parseFloat] of the captured run of digits and dots, which is [NaN]
    exactly when that run starts with a dot that no digit follows. The
    embeddings text is the captured digits, or ["0"]; the dimension is
    the binary64 value nearest to the integer that its captured digits,
    or ["0"], write: that integer itself when it is below [2 ^ 53], and
    [Infinity] when it is [2 ^ 1024] or more. *)
Theorem parseStats_fields (raw : string) :
  exists st,
    parseStats raw = Some st
    /\ percent_field (percent_re "Precision@1") raw (precision st)
    /\ percent_field (percent_re "MAP@R") raw (mapR st)
    /\ percent_field (percent_re "R@1") raw (r1 (recall st))
    /\ percent_field (percent_re "R@5") raw (r5 (recall st))
    /\ percent_field (percent_re "R@10") raw (r10 (recall st))
    /\ percent_field (percent_re "R@100") raw (r100 (recall st))
    /\ count_field (count_re "Total embeddings") raw (embeddings st)
    /\ exists text,
         count_field (count_re "Embedding dimension") raw text
         /\ dim st = JS.binary64 (inject_Z (Z.of_N (JS.digits_val 0 text)))
         /\ ((JS.digits_val 0 text < 2 ^ 53)%N ->
             dim st = JS.Num (inject_Z (Z.of_N (JS.digits_val 0 text))))
         /\ ((2 ^ 1024 <= JS.digits_val 0 text)%N ->
             dim st = JS.Infinity false).
Proof.
  eexists. split; [reflexivity|]. cbn [precision mapR recall r1 r5 r10 r100
                                        embeddings dim].
  do 6 (split; [apply getNum_percent_field|]).
  split; [apply exec_count_field|].
  eexists. split; [apply exec_count_field|].
  destruct (count_text_digits "Embedding dimension" raw) as [Hne Hall].
  split; [now apply parseInt_digits|].
  split; [now apply parseInt_digits_exact
         | now apply parseInt_digits_overflow].
Qed.

(** ** The decoder on a text of labeled lines *)

(** A run followed by a character outside the class is captured whole. *)
Lemma match_group_run (cls : ascii -> bool) (tl v rest : string) :
  v <> "" -> all_chars cls v = true ->
  (exists c r, tl ++ rest = String c r /\ cls c = false) ->
  JS.match_group cls tl (v ++ tl ++ rest) = Some v.
Proof.
  intros Hne Hall (c0 & r0 & E0 & Hc0).
  induction v as [|c v IH]; [congruence|]. simpl in *.
  apply andb_true_iff in Hall as [-> Hall].
  destruct v as [|c' v].
  - simpl. rewrite E0. simpl. rewrite Hc0, <- E0, strip_prefix_append.
    reflexivity.
  - rewrite IH; [reflexivity | discriminate | exact Hall].
Qed.

Lemma exec_here (re : JS.RegExp) (s cap : string) :
  JS.match_here re s = Some cap -> JS.exec re s = Some cap.
Proof. intros H. destruct s; simpl; now rewrite H. Qed.

Lemma exec_next (re : JS.RegExp) (c : ascii) (s : string) :
  JS.match_here re (String c s) = None ->
  JS.exec re (String c s) = JS.exec re s.
Proof. intros H. simpl. now rewrite H. Qed.

(** The line of a field is matched by the pattern of the field. *)
Lemma exec_own_line (f : Field) (v rest : string) :
  valid_value (f, v) ->
  JS.exec (field_re f) (field_line f v ++ rest) = Some v.
Proof.
  intros [Hne Hall]. simpl in Hne, Hall. apply exec_here.
  unfold JS.match_here, field_line.
  assert (E : field_name f ++ ": " ++ v
                ++ (if is_percent f then "%" else "") ++ nl
              = JS.label (field_re f)
                ++ v ++ JS.tail (field_re f) ++ nl).
  { unfold field_re. destruct (is_percent f); simpl;
      now rewrite !append_assoc. }
  rewrite E, !append_assoc, strip_prefix_append.
  apply match_group_run; [exact Hne | exact Hall|].
  unfold field_re. destruct (is_percent f); simpl; eauto.
Qed.

(** No pattern starts with a digit, a dot, a percent sign or a line
    feed. *)
Lemma match_here_value_char (f : Field) (c : ascii) (s : string) :
  (JS.is_num_char c || Ascii.eqb c "%" || Ascii.eqb c "010")%bool = true ->
  JS.match_here (field_re f) (String c s) = None.
Proof.
  intros Hc. unfold JS.match_here.
  destruct (JS.strip_prefix _ _) as [r|] eqn:Hp; [|reflexivity].
  apply strip_prefix_spec in Hp.
  destruct f; simpl in Hp; injection Hp as -> _; discriminate.
Qed.

Lemma exec_skip_value (f : Field) (v rest : string) :
  all_chars (fun c => JS.is_num_char c || Ascii.eqb c "%"
                      || Ascii.eqb c "010")%bool v = true ->
  JS.exec (field_re f) (v ++ rest) = JS.exec (field_re f) rest.
Proof.
  induction v as [|c v IH]; intros H; [reflexivity|].
  simpl in H. apply andb_true_iff in H as [Hc H].
  simpl append. rewrite exec_next by now apply match_here_value_char.
  now apply IH.
Qed.

(** The label of another field holds no match. *)
Lemma exec_skip_label (f g : Field) (s : string) :
  field_eqb f g = false ->
  JS.exec (field_re f) (field_name g ++ ": " ++ s) = JS.exec (field_re f) s.
Proof. destruct f, g; intros H; try discriminate; reflexivity. Qed.

Lemma exec_other_line (f g : Field) (v rest : string) :
  field_eqb f g = false -> valid_value (g, v) ->
  JS.exec (field_re f) (field_line g v ++ rest) = JS.exec (field_re f) rest.
Proof.
  intros Hfg [_ Hall]. simpl in Hall. unfold field_line.
  rewrite !append_assoc, exec_skip_label by exact Hfg.
  set (pct := if is_percent g then "%" else "").
  replace (v ++ pct ++ nl ++ rest) with ((v ++ pct ++ nl) ++ rest)
    by now rewrite !append_assoc.
  apply exec_skip_value. rewrite !all_chars_append.
  assert (Hv : all_chars (fun c => JS.is_num_char c || Ascii.eqb c "%"
                                   || Ascii.eqb c "010")%bool v = true).
  { clear -Hall. induction v as [|c v IH]; [reflexivity|].
    simpl in *. apply andb_true_iff in Hall as [Hc Hall].
    rewrite (IH Hall), andb_true_r.
    assert (JS.is_num_char c = true) as ->; [|reflexivity].
    unfold field_re in Hc. destruct (is_percent g); simpl in Hc;
      [exact Hc | unfold JS.is_num_char; now rewrite Hc]. }
  rewrite Hv. unfold pct. destruct (is_percent g); reflexivity.
Qed.

Lemma field_eqb_eq (f g : Field) : field_eqb f g = true -> f = g.
Proof. destruct f, g; intros H; try discriminate; reflexivity. Qed.

(** On a text of labeled lines every pattern finds the value on the first
    line of its own field, and nothing when the field has no line:
    the lines of the other fields do not interfere. *)
Lemma metrics_text_exec (l : list (Field * string)) (f : Field) :
  Forall valid_value l ->
  JS.exec (field_re f) (metrics_text l) = first_value f l.
Proof.
  induction 1 as [|[g v] l Hv _ IH]; simpl.
  - destruct f; reflexivity.
  - destruct (field_eqb f g) eqn:E.
    + apply field_eqb_eq in E as <-. now apply exec_own_line.
    + rewrite exec_other_line by assumption. exact IH.
Qed.

(** X3. The decoder on a text of labeled lines: each field is read from its
    own first line, and is [0] when it has none. *)
Lemma parseStats_metrics_text (l : list (Field * string)) :
  Forall valid_value l ->
  parseStats (metrics_text l)
  = Some {|
      precision := percent_value (first_value Precision l);
      mapR := percent_value (first_value MapR l);
      recall := {|
        r1 := percent_value (first_value R1 l);
        r5 := percent_value (first_value R5 l);
        r10 := percent_value (first_value R10 l);
        r100 := percent_value (first_value R100 l)
      |};
      embeddings := JS.or_else (first_value TotalEmbeddings l) "0";
      dim := JS.parseInt (JS.or_else (first_value EmbeddingDimension l) "0")
    |}.
Proof.
  intros Hl. unfold parseStats, getNum.
  rewrite <- !(metrics_text_exec l) by exact Hl. reflexivity.
Qed.

(** ** The session controller *)

Local Open Scope list_scope.

Section ControllerFacts.

Variable createObjectURL : nat -> Blob -> string.


(** What a settled search does, whatever else is in flight. *)
Lemma search_settled (v : Version) (s : State) (t : nat)
    (o : Outcome (list GradioImage * string)) :
  tasks s !! t = Some SearchPredicting ->
  step createObjectURL v s (SearchSettled t o)
  = Some (match o with
          | Resolved data => handleSearch_resolved t data s
          | Rejected => handleSearch_catch t s
          end).
Proof. intros H. simpl. rewrite H. now destruct o. Qed.

Lemma load_settled (v : Version) (s : State) (t : nat) (c : Client)
    (o : Outcome (string * string)) :
  tasks s !! t = Some (LoadPredicting c) ->
  step createObjectURL v s (LoadSettled t o)
  = Some (match o with
          | Resolved data => loadResources_resolved v t c data s
          | Rejected => loadResources_catch t s
          end).
Proof. intros H. simpl. rewrite H. now destruct o. Qed.

(** A load that resolves only touches its own instance. *)
Lemma loadResources_resolved_tasks (v : Version) (s : State) (t i : nat)
    (c : Client) (data : string * string) :
  i <> t ->
  tasks (loadResources_resolved v t c data s) !! i
  = tasks s !! i.
Proof.
  intros Hi. unfold loadResources_resolved, refreshExamples_from,
    getGradioClient, seq.
  destruct v; simpl; [now apply lookup_insert_ne|].
  destruct (clientRef s); simpl; now apply lookup_insert_ne.
Qed.

Lemma loadResources_resolved_ui (v : Version) (s : State) (t : nat)
    (c : Client) (data : string * string) :
  let s' := loadResources_resolved v t c data s in
  status (ui s') = fst data /\ stats (ui s') = parseStats (snd data)
  /\ results (ui s') = results (ui s) /\ examples (ui s') = examples (ui s)
  /\ activeQuery (ui s') = activeQuery (ui s).
Proof.
  unfold loadResources_resolved, refreshExamples_from, getGradioClient, seq.
  destruct v; simpl; [tauto|]. destruct (clientRef s); simpl; tauto.
Qed.

(** C1, amended. No sequence number is kept: a search response that
    resolves is always written to [results] and [status], whatever has
    been issued or has settled since.  So when two searches are in flight
    and the response to one settles after the response to the other, the
    displayed results are those of the response that settled last, also
    when it belongs to the request issued first. *)
Theorem search_last_settled_wins (v : Version) (s : State) (i j : nat)
    (ri rj : list GradioImage * string) :
  tasks s !! i = Some SearchPredicting ->
  tasks s !! j = Some SearchPredicting ->
  i <> j ->
  exists s',
    run createObjectURL v s [SearchSettled j (Resolved rj); SearchSettled i (Resolved ri)]
    = Some s'
    /\ results (ui s') = fst ri /\ status (ui s') = snd ri
    /\ isSearching (ui s') = false.
Proof.
  intros Hi Hj Hne. cbn [run].
  rewrite (search_settled v s j _ Hj). cbn [mbind option_bind].
  rewrite search_settled.
  - eexists. split; [reflexivity|]. simpl. tauto.
  - simpl. now rewrite lookup_delete_ne.
Qed.

(** C2, amended. A resource load carries no mark of the configuration it
    was started for: when its response resolves, status and metrics are
    always written.  So when two loads are in flight and the response to
    one settles after the response to the other, the metrics are those of
    the response that settled last, also when it belongs to the superseded
    configuration. *)
Theorem load_last_settled_wins (v : Version) (s : State) (i j : nat)
    (ci cj : Client) (ri rj : string * string) :
  tasks s !! i = Some (LoadPredicting ci) ->
  tasks s !! j = Some (LoadPredicting cj) ->
  i <> j ->
  exists s',
    run createObjectURL v s [LoadSettled j (Resolved rj); LoadSettled i (Resolved ri)]
    = Some s'
    /\ stats (ui s') = parseStats (snd ri) /\ status (ui s') = fst ri.
Proof.
  intros Hi Hj Hne. cbn [run].
  rewrite (load_settled v s j _ _ Hj). cbn [mbind option_bind].
  rewrite (load_settled v _ i ci).
  - eexists. split; [reflexivity|].
    destruct (loadResources_resolved_ui v
                (loadResources_resolved v j cj rj s) i ci ri)
      as (H1 & H2 & _).
    now split.
  - now rewrite loadResources_resolved_tasks.
Qed.

(** *** Connections *)

Lemma connects_app (l l' : list Call) :
  connects (l ++ l') = connects l + connects l'.
Proof.
  induction l as [|[t|t c r] l IH]; simpl; [reflexivity | now rewrite IH | exact IH].
Qed.

(** [getGradioClient], as its callers see it. *)
Lemma handleSearch_begin_frame (v : Version) (source : Source) (s : State) :
  let s1 := handleSearch_begin createObjectURL v source s in
  clientRef s1 = clientRef s /\ calls s1 = calls s /\ tasks s1 = tasks s
  /\ nextId s1 = nextId s
  /\ activeQuery (ui s1) = Some (previewUrl createObjectURL source s)
  /\ results (ui s1) = results (ui s) /\ stats (ui s1) = stats (ui s)
  /\ examples (ui s1) = examples (ui s).
Proof. destruct source; simpl; tauto. Qed.

Lemma handleSearch_uncached (v : Version) (source : Source) (s : State) :
  clientRef s = None ->
  handleSearch createObjectURL v source s
  = suspend (nextId s) (SearchConnecting source (topK s))
      (call (Connect (nextId s))
         (handleSearch_begin createObjectURL v source (spawn s))).
Proof.
  intros Hc. unfold handleSearch, seq, handleSearch_try, getGradioClient.
  destruct (handleSearch_begin_frame v source (spawn s)) as (-> & _).
  simpl. now rewrite Hc.
Qed.

Lemma handleSearch_cached (v : Version) (source : Source) (s : State)
    (c : Client) :
  clientRef s = Some c ->
  handleSearch createObjectURL v source s
  = handleSearch_predict (nextId s) c source (topK s)
      (handleSearch_begin createObjectURL v source (spawn s)).
Proof.
  intros Hc. unfold handleSearch, seq, handleSearch_try, getGradioClient.
  destruct (handleSearch_begin_frame v source (spawn s)) as (-> & _).
  simpl. now rewrite Hc.
Qed.

Lemma loadResources_uncached (v : Version) (s : State) :
  clientRef s = None ->
  loadResources v s
  = suspend (nextId s) (LoadConnecting (cfg s))
      (call (Connect (nextId s))
         (setStatus (loading_status v) (setIsLoading true (spawn s)))).
Proof.
  intros Hc. unfold loadResources, seq, loadResources_try, getGradioClient.
  simpl. now rewrite Hc.
Qed.

Lemma loadResources_cached (v : Version) (s : State) (c : Client) :
  clientRef s = Some c ->
  loadResources v s
  = loadResources_predict (nextId s) c (cfg s)
      (setStatus (loading_status v) (setIsLoading true (spawn s))).
Proof.
  intros Hc. unfold loadResources, seq, loadResources_try, getGradioClient.
  simpl. now rewrite Hc.
Qed.

Lemma refreshExamples_from_uncached (t : nat) (inLoad : bool) (s : State) :
  clientRef s = None ->
  refreshExamples_from t inLoad s
  = suspend t (RefreshConnecting inLoad)
      (call (Connect t) (setIsExamplesLoading true s)).
Proof.
  intros Hc. unfold refreshExamples_from, getGradioClient.
  simpl. now rewrite Hc.
Qed.

Lemma refreshExamples_from_cached (t : nat) (inLoad : bool) (s : State)
    (c : Client) :
  clientRef s = Some c ->
  refreshExamples_from t inLoad s
  = refreshExamples_predict t c inLoad (setIsExamplesLoading true s).
Proof.
  intros Hc. unfold refreshExamples_from, getGradioClient.
  simpl. now rewrite Hc.
Qed.

(** The handler, if any, that an event of the user starts. *)
Lemma user_step_cases (v : Version) (s s' : State) (e : Event) :
  user_event e = true -> step createObjectURL v s e = Some s' ->
  s' = s
  \/ (exists k, s' = setTopK k s)
  \/ s' = loadResources v (setMounted s)
  \/ (exists c, s' = loadResources v (setCfg c s))
  \/ (exists source, s' = handleSearch createObjectURL v source s)
  \/ s' = refreshExamples s.
Proof.
  intros He Hs. destruct e; try discriminate; simpl in Hs.
  - destruct (mounted s); [discriminate|]. injection Hs as <-. tauto.
  - destruct (mounted s); [|discriminate]. injection Hs as <-.
    unfold reconfigure. destruct (config_eqb _ _); eauto 6.
  - destruct (mounted s); [|discriminate]. injection Hs as <-.
    unfold reconfigure. destruct (config_eqb _ _); eauto 6.
  - destruct (mounted s); [|discriminate]. injection Hs as <-.
    unfold reconfigure. destruct (config_eqb _ _); eauto 6.
  - destruct (mounted s); [|discriminate]. injection Hs as <-. eauto.
  - destruct (mounted s); [|discriminate]. injection Hs as <-. eauto 7.
  - destruct v; [discriminate|].
    destruct (mounted s && negb (isExamplesLoading (ui s)))%bool;
      [|discriminate].
    injection Hs as <-. tauto.
Qed.

(** An event of the user with no handle cached: every handler instance
    it starts makes one attempt to connect. *)
Lemma user_step_uncached (v : Version) (s s' : State) (e : Event) :
  user_event e = true -> clientRef s = None ->
  step createObjectURL v s e = Some s' ->
  clientRef s' = None /\ nextId s <= nextId s'
  /\ connects (calls s') = connects (calls s) + (nextId s' - nextId s).
Proof.
  intros He Hc Hs.
  destruct (user_step_cases _ _ _ _ He Hs)
    as [->|[[k ->]|[->|[[c ->]|[[source ->]| ->]]]]].
  - repeat split; [assumption | lia | lia].
  - simpl. repeat split; [assumption | lia | lia].
  - rewrite loadResources_uncached by exact Hc. simpl.
    rewrite connects_app. simpl. repeat split; [assumption | lia | lia].
  - rewrite loadResources_uncached by exact Hc. simpl.
    rewrite connects_app. simpl. repeat split; [assumption | lia | lia].
  - rewrite handleSearch_uncached by exact Hc.
    destruct (handleSearch_begin_frame v source (spawn s))
      as (H1 & H2 & _ & H4 & _).
    unfold suspend, call. cbn [clientRef nextId calls].
    rewrite H1, H2, H4, connects_app. simpl.
    repeat split; [assumption | lia | lia].
  - unfold refreshExamples, seq.
    rewrite refreshExamples_from_uncached by exact Hc. simpl.
    rewrite connects_app. simpl. repeat split; [assumption | lia | lia].
Qed.

(** An event of the user with a handle cached: no attempt to connect, and
    every call it makes is a [predict] on the cached handle. *)
Lemma user_step_cached (v : Version) (s s' : State) (e : Event) (c : Client) :
  user_event e = true -> clientRef s = Some c ->
  step createObjectURL v s e = Some s' ->
  clientRef s' = Some c
  /\ exists new : list Call,
       calls s' = (calls s ++ new)%list /\ Forall (predict_on c) new.
Proof.
  intros He Hc Hs.
  assert (Hnil : exists new : list Call,
             calls s = (calls s ++ new)%list /\ Forall (predict_on c) new).
  { exists []. split; [now rewrite app_nil_r | constructor]. }
  assert (Hone : forall t r, exists new : list Call,
             (calls s ++ [Predict t c r] = calls s ++ new)%list
             /\ Forall (predict_on c) new).
  { intros t r. exists [Predict t c r]. split; [reflexivity|].
    constructor; [now exists t, r | constructor]. }
  destruct (user_step_cases _ _ _ _ He Hs)
    as [->|[[k ->]|[->|[[c0 ->]|[[source ->]| ->]]]]].
  - now split.
  - now split.
  - rewrite (loadResources_cached _ _ c) by exact Hc. simpl.
    split; [assumption | apply Hone].
  - rewrite (loadResources_cached _ _ c) by exact Hc. simpl.
    split; [assumption | apply Hone].
  - rewrite (handleSearch_cached _ _ _ c) by exact Hc.
    destruct (handleSearch_begin_frame v source (spawn s))
      as (H1 & H2 & _).
    unfold handleSearch_predict, seq, suspend, call. cbn [clientRef calls].
    rewrite H1, H2. split; [assumption | apply Hone].
  - unfold refreshExamples, seq.
    rewrite (refreshExamples_from_cached _ _ _ c) by exact Hc. simpl.
    split; [assumption | apply Hone].
Qed.

(** An attempt that resolves: the handle is cached and the caller goes on
    with it. *)
Lemma connect_resolved (v : Version) (s : State) (t : nat) (k : Task)
    (c : Client) :
  tasks s !! t = Some k -> connecting k = true ->
  exists s' r,
    step createObjectURL v s (ConnectSettled t (Resolved c)) = Some s'
    /\ clientRef s' = Some c /\ calls s' = (calls s ++ [Predict t c r])%list.
Proof.
  intros Hk Hc. simpl. rewrite Hk.
  destruct k; try discriminate; simpl; eauto.
Qed.

(** [k] searches triggered before any connection exists make [k]
    attempts to connect. *)
Lemma searches_connect_each (v : Version) (sources : list Source) (s : State) :
  mounted s = true -> clientRef s = None ->
  exists s',
    run createObjectURL v s (map TriggerSearch sources) = Some s'
    /\ clientRef s' = None
    /\ connects (calls s') = connects (calls s) + length sources.
Proof.
  revert s. induction sources as [|source l IH]; intros s Hm Hc.
  - exists s. simpl. repeat split; [assumption | lia].
  - cbn [map run step]. rewrite Hm. cbn [mbind option_bind].
    rewrite handleSearch_uncached by exact Hc.
    destruct (handleSearch_begin_frame v source (spawn s))
      as (H1 & H2 & _).
    set (s1 := suspend _ _ _).
    assert (Hm1 : mounted s1 = true) by (destruct source; exact Hm).
    assert (Hc1 : clientRef s1 = None)
      by (unfold s1, suspend, call; cbn [clientRef]; now rewrite H1).
    assert (Hn1 : connects (calls s1) = S (connects (calls s))).
    { unfold s1, suspend, call. cbn [calls].
      rewrite H2, connects_app. simpl. lia. }
    destruct (IH s1 Hm1 Hc1) as (s' & Hrun & Hc' & Hn').
    exists s'. split; [exact Hrun|]. split; [exact Hc'|].
    rewrite Hn', Hn1. simpl. lia.
Qed.

(** C3, amended. The getter shares a handle only once it is cached.
    Callers that find no cached handle each start an attempt of their
    own: after any events of the user from a state without a handle, as
    many attempts were made as handler instances were started, and still
    no handle is cached.  Each caller then goes on with the handle its own
    attempt resolves to, which also replaces the cached one.  Callers that
    find a cached handle make no attempt and all call [predict] on it. *)
Theorem getGradioClient_attempts (v : Version) (es : list Event)
    (s s' : State) :
  Forall (fun e => user_event e = true) es ->
  run createObjectURL v s es = Some s' ->
  match clientRef s with
  | None =>
      clientRef s' = None /\ nextId s <= nextId s'
      /\ connects (calls s') = connects (calls s) + (nextId s' - nextId s)
  | Some c =>
      clientRef s' = Some c
      /\ exists new : list Call,
       calls s' = (calls s ++ new)%list /\ Forall (predict_on c) new
  end
  /\ forall t k c, tasks s' !! t = Some k -> connecting k = true ->
       exists s'' r,
         step createObjectURL v s' (ConnectSettled t (Resolved c)) = Some s''
         /\ clientRef s'' = Some c /\ calls s'' = (calls s' ++ [Predict t c r])%list.
Proof.
  intros Hes Hrun. split; [|intros t k c; apply connect_resolved].
  revert s Hrun. induction Hes as [|e es He _ IH]; intros s Hrun.
  - injection Hrun as <-. destruct (clientRef s) as [c|].
    + split; [reflexivity|]. exists []. split; [now rewrite app_nil_r|].
      constructor.
    + repeat split; lia.
  - simpl in Hrun.
    destruct (step createObjectURL v s e) as [s1|] eqn:Hs; [|discriminate].
    simpl in Hrun. specialize (IH _ Hrun).
    destruct (clientRef s) as [c|] eqn:Hc.
    + destruct (user_step_cached _ _ _ _ _ He Hc Hs) as (Hc1 & new & En & Hn).
      rewrite Hc1 in IH. destruct IH as (Hc' & new' & En' & Hn').
      split; [exact Hc'|]. exists (new ++ new'). split.
      * now rewrite En', En, app_assoc.
      * now apply Forall_app.
    + destruct (user_step_uncached _ _ _ _ He Hc Hs) as (Hc1 & Hle & Hn).
      rewrite Hc1 in IH. destruct IH as (Hc' & Hle' & Hn').
      repeat split; [exact Hc' | lia | lia].
Qed.

(** *** Failures *)

(** The rejection of the awaited promise runs the [catch] and [finally]
    blocks of the handler and ends the instance. *)
Lemma failure_step (v : Version) (s : State) (t : nat) (k : Task) :
  tasks s !! t = Some k ->
  exists s',
    step createObjectURL v s (failure_of t k) = Some s'
    /\ status (ui s') = failure_status k (status (ui s))
    /\ flags_cleared k (ui s')
    /\ results (ui s') = results (ui s)
    /\ stats (ui s') = stats (ui s)
    /\ examples (ui s') = examples (ui s)
    /\ activeQuery (ui s') = activeQuery (ui s)
    /\ clientRef s' = clientRef s
    /\ calls s' = calls s
    /\ tasks s' = delete t (tasks s).
Proof.
  intros Hk.
  destruct k as [source n| |c0|c| |inLoad|inLoad]; simpl; rewrite Hk; simpl;
    eexists; (split; [reflexivity|]); simpl;
    try destruct inLoad; simpl; intuition (reflexivity || discriminate).
Qed.

(** C6, amended. When the call an operation is waiting for fails, the
    flag of the operation is cleared and [results], [stats] and [examples]
    are left as they were.  A failed search sets the status to
    ["Search Failed"] and a failed resource load to ["Sync Failed"]; a
    failed [refreshExamples] only writes to the console and leaves the
    status as it was. *)
Theorem failure_keeps_accepted_state (v : Version) (s : State) (t : nat)
    (k : Task) :
  tasks s !! t = Some k ->
  exists s',
    step createObjectURL v s (failure_of t k) = Some s'
    /\ status (ui s') = failure_status k (status (ui s))
    /\ flags_cleared k (ui s')
    /\ results (ui s') = results (ui s)
    /\ stats (ui s') = stats (ui s)
    /\ examples (ui s') = examples (ui s).
Proof.
  intros Hk. destruct (failure_step v s t k Hk) as (s' & H & H1 & H2 & H3 & H4 & H5 & _).
  exists s'. tauto.
Qed.

(** C7, amended. When a resource load fails, at the connection or at the
    [/load_resources] call (or, in [page.tsx], at the call for the
    examples that follows), the status becomes ["Sync Failed"], the
    loading flag is cleared, and the metrics are left as they were: absent
    if no load had succeeded before, and otherwise those last written. *)
Theorem load_failure_keeps_metrics (v : Version) (s : State) (t : nat)
    (k : Task) :
  tasks s !! t = Some k -> loading k = true ->
  exists s',
    step createObjectURL v s (failure_of t k) = Some s'
    /\ status (ui s') = "Sync Failed"
    /\ isLoading (ui s') = false
    /\ stats (ui s') = stats (ui s).
Proof.
  intros Hk Hl.
  destruct (failure_step v s t k Hk) as (s' & H & H1 & H2 & _ & H4 & _).
  exists s'. destruct k; try discriminate; simpl in *; tauto.
Qed.

(** The handle in the cache was delivered by an attempt that resolved. *)
Lemma step_clientRef (v : Version) (s s' : State) (e : Event) :
  step createObjectURL v s e = Some s' ->
  clientRef s' = clientRef s
  \/ exists t c, e = ConnectSettled t (Resolved c) /\ clientRef s' = Some c.
Proof.
  intros Hs. destruct (user_event e) eqn:He.
  - left. destruct (clientRef s) as [c|] eqn:Hc.
    + now destruct (user_step_cached _ _ _ _ _ He Hc Hs).
    + now destruct (user_step_uncached _ _ _ _ He Hc Hs).
  - destruct e as [| | | | | | |t o|t o|t o|t o]; try discriminate;
      simpl in Hs; destruct (tasks s !! t) as [k|]; try discriminate;
      simpl in Hs.
    + destruct k, o as [h|]; try discriminate; simpl in Hs;
        injection Hs as <-;
        first [ right; eexists _, _; split; reflexivity
              | left; reflexivity
              | left; destruct inLoad; reflexivity ].
    + destruct k, o as [data|]; try discriminate; simpl in Hs;
        injection Hs as <-; [|now left].
      left. unfold loadResources_resolved, seq.
      destruct v; [reflexivity|]. simpl.
      destruct (clientRef s) as [c0|] eqn:Hc.
      * now rewrite (refreshExamples_from_cached _ _ _ c0).
      * now rewrite refreshExamples_from_uncached.
    + destruct k, o as [data|]; try discriminate; simpl in Hs;
        injection Hs as <-; left;
        first [reflexivity | destruct inLoad; reflexivity].
    + destruct k, o as [data|]; try discriminate; simpl in Hs;
        injection Hs as <-; now left.
Qed.

Lemma run_clientRef (v : Version) (es : list Event) (s s' : State)
    (c : Client) :
  run createObjectURL v s es = Some s' -> clientRef s' = Some c ->
  clientRef s = Some c \/ exists t, In (ConnectSettled t (Resolved c)) es.
Proof.
  revert s. induction es as [|e es IH]; intros s Hrun Hc.
  - injection Hrun as <-. now left.
  - simpl in Hrun.
    destruct (step createObjectURL v s e) as [s1|] eqn:Hs; [|discriminate].
    simpl in Hrun. destruct (IH _ Hrun Hc) as [H1|[t Ht]].
    + destruct (step_clientRef _ _ _ _ Hs) as [E|(t & c' & -> & E)].
      * left. congruence.
      * right. exists t. left. congruence.
    + right. exists t. now right.
Qed.

(** C8. When an attempt to connect fails, the caller's [catch] block
    runs, nothing is written to the cache (an empty cache stays empty) and
    no new attempt is made; the next call of the getter with an empty
    cache makes a new attempt; and a handle is in the cache only if an
    attempt resolved to it. *)
Theorem connect_failure_not_cached (v : Version) (s : State) (t : nat)
    (k : Task) :
  tasks s !! t = Some k -> connecting k = true ->
  (exists s',
     step createObjectURL v s (ConnectSettled t Rejected) = Some s'
     /\ clientRef s' = clientRef s
     /\ calls s' = calls s
     /\ tasks s' !! t = None
     /\ status (ui s') = failure_status k (status (ui s))
     /\ flags_cleared k (ui s')
     /\ (clientRef s' = None ->
         forall t', getGradioClient t' s' = (None, call (Connect t') s'))
     /\ (clientRef s' = None -> mounted s' = true ->
         forall source, exists s'',
           step createObjectURL v s' (TriggerSearch source) = Some s''
           /\ calls s'' = calls s' ++ [Connect (nextId s')]))
  /\ (forall es s0 c,
        run createObjectURL v initial es = Some s0 ->
        clientRef s0 = Some c ->
        exists t0, In (ConnectSettled t0 (Resolved c)) es).
Proof.
  intros Hk Hc. split.
  - destruct (failure_step v s t k Hk)
      as (s' & H & H1 & H2 & _ & _ & _ & _ & H7 & H8 & H9).
    assert (E : failure_of t k = ConnectSettled t Rejected)
      by (destruct k; try discriminate; reflexivity).
    rewrite E in H. exists s'.
    do 3 (split; [assumption|]).
    split; [rewrite H9; apply lookup_delete_eq|].
    do 2 (split; [assumption|]). split.
    + intros Hn t'. unfold getGradioClient. now rewrite Hn.
    + intros Hn Hm source. simpl. rewrite Hm. eexists. split; [reflexivity|].
      rewrite handleSearch_uncached by exact Hn.
      unfold suspend, call. cbn [calls].
      now destruct (handleSearch_begin_frame v source (spawn s'))
        as (_ & -> & _).
  - intros es s0 c Hrun Hc0.
    destruct (run_clientRef _ _ _ _ _ Hrun Hc0) as [H|H];
      [discriminate | exact H].
Qed.

(** *** The preview of the query *)

(** Settlements never touch the preview. *)
Lemma settle_keeps_activeQuery (v : Version) (s s' : State) (e : Event) :
  user_event e = false -> step createObjectURL v s e = Some s' ->
  activeQuery (ui s') = activeQuery (ui s).
Proof.
  intros He Hs.
  destruct e as [| | | | | | |t o|t o|t o|t o]; try discriminate;
    simpl in Hs; destruct (tasks s !! t) as [k|]; try discriminate;
    simpl in Hs.
  - destruct k, o as [h|]; try discriminate; simpl in Hs;
      injection Hs as <-; try reflexivity;
      destruct inLoad; reflexivity.
  - destruct k, o as [data|]; try discriminate; simpl in Hs;
      injection Hs as <-; [|reflexivity].
    now destruct (loadResources_resolved_ui v s t c data) as (_ & _ & _ & _ & ->).
  - destruct k, o as [data|]; try discriminate; simpl in Hs;
      injection Hs as <-; try reflexivity; destruct inLoad; reflexivity.
  - destruct k, o as [data|]; try discriminate; simpl in Hs;
      injection Hs as <-; reflexivity.
Qed.

(** C9. A search trigger writes the preview in the statements that come
    before the [try] block: an object URL of the source for a [File] or
    [Blob], the resolved URL of the source for an image reference.  At
    that point no call has been made and nothing is awaited; the rest of
    the handler and every later settlement leave the preview as it is. *)
Theorem handleSearch_preview_first (v : Version) (s : State)
    (source : Source) :
  mounted s = true ->
  let preview :=
    match source with
    | Binary b => createObjectURL (minted s) b
    | Reference img => getImageUrl (Some img)
    end in
  let s1 := handleSearch_begin createObjectURL v source (spawn s) in
  exists s',
    step createObjectURL v s (TriggerSearch source) = Some s'
    /\ s' = handleSearch_try (nextId s) source (topK s) s1
    /\ activeQuery (ui s1) = Some preview
    /\ calls s1 = calls s /\ tasks s1 = tasks s
    /\ activeQuery (ui s') = Some preview
    /\ (exists x, calls s' = calls s ++ [x])
    /\ (forall e s2 s3,
          user_event e = false -> step createObjectURL v s2 e = Some s3 ->
          activeQuery (ui s3) = activeQuery (ui s2)).
Proof.
  intros Hm preview s1. simpl. rewrite Hm. eexists. split; [reflexivity|].
  destruct (handleSearch_begin_frame v source (spawn s))
    as (H1 & H2 & H3 & _ & H5 & _).
  fold s1 in H1, H2, H3, H5.
  assert (Hp : previewUrl createObjectURL source (spawn s) = preview)
    by (destruct source; reflexivity).
  rewrite Hp in H5.
  split; [reflexivity|]. split; [exact H5|].
  split; [exact H2|]. split; [exact H3|].
  assert (Hs' : handleSearch createObjectURL v source s
                = handleSearch_try (nextId s) source (topK s) s1)
    by reflexivity.
  rewrite Hs'. unfold handleSearch_try, getGradioClient. rewrite H1.
  simpl clientRef. split; [|split].
  - destruct (clientRef s); simpl; exact H5.
  - destruct (clientRef s);
      unfold handleSearch_predict, seq, suspend, call; cbn [calls];
      rewrite H2; eauto.
  - intros e s2 s3. apply settle_keeps_activeQuery.
Qed.

End ControllerFacts.

(** ** The scenarios, run *)

Import Scenario.

(** C1, as stated, fails: in both revisions the response to the first
    search, settling last, replaces the results of the second. *)
Lemma stale_search_overwrites :
  (exists s, run objectURL Part000 initial stale_search = Some s
       /\ results (ui s) = [hatchback] /\ results (ui s) <> [sedan]
       /\ status (ui s) = "Found 1 neighbour")
  /\ (exists s, run objectURL PageTsx initial stale_search = Some s
       /\ results (ui s) = [hatchback] /\ results (ui s) <> [sedan]
       /\ status (ui s) = "Found 1 neighbour").
Proof.
  split; eexists; (split; [vm_compute; reflexivity|]);
    (split; [reflexivity | split; [discriminate | reflexivity]]).
Qed.

Lemma search_last_settled_wins_witness :
  exists s',
    run objectURL Part000 searching_state
      [SearchSettled 2 (Resolved ([sedan], "Found 1 match"));
       SearchSettled 1 (Resolved ([hatchback], "Found 1 neighbour"))]
    = Some s'
    /\ results (ui s') = [hatchback] /\ status (ui s') = "Found 1 neighbour"
    /\ isSearching (ui s') = false.
Proof.
  apply (search_last_settled_wins objectURL Part000 searching_state 1 2
           ([hatchback], "Found 1 neighbour") ([sedan], "Found 1 match"));
    [vm_compute; reflexivity | vm_compute; reflexivity | lia].
Defined.

(** C2, as stated, fails: the response for the superseded configuration,
    settling last, replaces the metrics of the selected one. *)
Lemma stale_load_overwrites :
  (exists s, run objectURL PageTsx initial stale_load = Some s
     /\ dataset (cfg s) = "CUB"
     /\ stats (ui s) = parseStats cars_metrics
     /\ stats (ui s) <> parseStats cub_metrics
     /\ status (ui s) = "Loaded Cars196")
  /\ (exists s, run objectURL Part000 initial stale_load = Some s
     /\ dataset (cfg s) = "CUB"
     /\ stats (ui s) = parseStats cars_metrics
     /\ stats (ui s) <> parseStats cub_metrics
     /\ status (ui s) = "Loaded Cars196").
Proof.
  split; eexists; (split; [vm_compute; reflexivity|]);
    (split; [reflexivity|]); (split; [vm_compute; reflexivity|]);
    (split; [vm_compute; discriminate | reflexivity]).
Qed.

Lemma load_last_settled_wins_witness :
  exists s',
    run objectURL PageTsx loading_state
      [LoadSettled 1 (Resolved ("Loaded CUB", cub_metrics));
       LoadSettled 0 (Resolved ("Loaded Cars196", cars_metrics))]
    = Some s'
    /\ stats (ui s') = parseStats cars_metrics
    /\ status (ui s') = "Loaded Cars196".
Proof.
  apply (load_last_settled_wins objectURL PageTsx loading_state 0 1
           (Handle 1) (Handle 1)
           ("Loaded Cars196", cars_metrics) ("Loaded CUB", cub_metrics));
    [vm_compute; reflexivity | vm_compute; reflexivity | lia].
Defined.

(** C3, as stated, fails: three callers before any connection exists make
    three attempts, and each goes on with the handle of its own. *)
Lemma three_callers_three_attempts :
  (exists s, run objectURL Part000 initial three_callers = Some s
     /\ calls s
        = [ Connect 0; Connect 1; Connect 2;
            Predict 0 (Handle 1) (LoadResources "Cars196" "3" "b" false);
            Predict 1 (Handle 2) (ProcessImage (InputBlob (BlobOf 1)) 10);
            Predict 2 (Handle 3) (ProcessImage (InputBlob (BlobOf 2)) 10) ]
     /\ connects (calls s) = 3
     /\ clientRef s = Some (Handle 3))
  /\ (exists s, run objectURL PageTsx initial three_callers = Some s
     /\ connects (calls s) = 3
     /\ clientRef s = Some (Handle 3)).
Proof.
  split; eexists; (split; [vm_compute; reflexivity|]); repeat split.
Qed.

Lemma getGradioClient_attempts_witness :
  exists s',
    run objectURL Part000 initial (take 3 three_callers) = Some s'
    /\ clientRef s' = None /\ connects (calls s') = 3.
Proof.
  destruct (run objectURL Part000 initial (take 3 three_callers))
    as [s'|] eqn:Hrun; [|vm_compute in Hrun; discriminate].
  exists s'. split; [reflexivity|].
  destruct (getGradioClient_attempts objectURL Part000
              (take 3 three_callers) initial s') as [(H1 & _ & H3) _];
    [repeat constructor | exact Hrun |].
  split; [exact H1|]. rewrite H3.
  vm_compute in Hrun. injection Hrun as <-. reflexivity.
Defined.

(** C6, as stated, fails for the example refresh: when it fails the
    status is not set at all, so it keeps whatever text the last load
    received from the backend. *)
Lemma refresh_failure_keeps_status :
  exists s1 s2,
    run objectURL Part000 initial (refresh_fails "Loaded Cars196") = Some s1
    /\ run objectURL Part000 initial (refresh_fails "Index ready") = Some s2
    /\ status (ui s1) = "Loaded Cars196"
    /\ status (ui s2) = "Index ready"
    /\ status (ui s1) <> status (ui s2)
    /\ isExamplesLoading (ui s1) = false.
Proof.
  eexists. eexists.
  split; [vm_compute; reflexivity|]. split; [vm_compute; reflexivity|].
  split; [reflexivity|]. split; [reflexivity|].
  split; [discriminate | reflexivity].
Qed.

(** What a failure leaves unchanged is the state it finds.  In [page.tsx]
    the metrics written after the first call of a load stay when its second
    call fails, next to the status ["Sync Failed"]; in [part_000]
    the same failure, inside [refreshExamples], leaves the status of the
    load. *)
Example examples_failure_after_load :
  (exists s, run objectURL PageTsx initial examples_fail = Some s
     /\ status (ui s) = "Sync Failed"
     /\ stats (ui s) = parseStats cars_metrics
     /\ isLoading (ui s) = false)
  /\ (exists s, run objectURL Part000 initial examples_fail = Some s
     /\ status (ui s) = "Loaded Cars196"
     /\ stats (ui s) = parseStats cars_metrics
     /\ isLoading (ui s) = false /\ isExamplesLoading (ui s) = false).
Proof.
  split; eexists; (split; [vm_compute; reflexivity|]);
    (split; [reflexivity|]); (split; [vm_compute; reflexivity|]);
    repeat split.
Qed.

Lemma failure_keeps_accepted_state_witness :
  exists s',
    step objectURL Part000 searching_state (SearchSettled 1 Rejected) = Some s'
    /\ status (ui s') = "Search Failed"
    /\ isSearching (ui s') = false
    /\ results (ui s') = results (ui searching_state)
    /\ stats (ui s') = stats (ui searching_state)
    /\ examples (ui s') = examples (ui searching_state).
Proof.
  apply (failure_keeps_accepted_state objectURL Part000 searching_state 1
           SearchPredicting).
  vm_compute. reflexivity.
Defined.

(** C7, as stated, fails: after a failed load the metrics of the previous
    configuration are still there. *)
Lemma failed_reload_keeps_old_metrics :
  (exists s, run objectURL Part000 initial reload_fails = Some s
     /\ dataset (cfg s) = "CUB"
     /\ status (ui s) = "Sync Failed"
     /\ isLoading (ui s) = false
     /\ stats (ui s) = parseStats cars_metrics
     /\ stats (ui s) <> None)
  /\ (exists s, run objectURL PageTsx initial reload_fails = Some s
     /\ dataset (cfg s) = "CUB"
     /\ status (ui s) = "Sync Failed"
     /\ isLoading (ui s) = false
     /\ stats (ui s) = parseStats cars_metrics
     /\ stats (ui s) <> None).
Proof.
  split; eexists; (split; [vm_compute; reflexivity|]);
    do 3 (split; [reflexivity|]);
    (split; [vm_compute; reflexivity | discriminate]).
Qed.

Lemma load_failure_keeps_metrics_witness :
  exists s',
    step objectURL PageTsx loading_state (LoadSettled 1 Rejected) = Some s'
    /\ status (ui s') = "Sync Failed"
    /\ isLoading (ui s') = false
    /\ stats (ui s') = stats (ui loading_state).
Proof.
  apply (load_failure_keeps_metrics objectURL PageTsx loading_state 1
           (LoadPredicting (Handle 1)));
    [vm_compute; reflexivity | reflexivity].
Defined.

Lemma connect_failure_not_cached_witness :
  exists s',
    step objectURL Part000 connecting_state (ConnectSettled 0 Rejected)
    = Some s'
    /\ clientRef s' = None
    /\ status (ui s') = "Sync Failed"
    /\ isLoading (ui s') = false.
Proof.
  destruct (connect_failure_not_cached objectURL Part000 connecting_state 0
              (LoadConnecting (cfg initial)))
    as [(s' & H & H1 & _ & _ & H4 & H5 & _) _];
    [vm_compute; reflexivity | reflexivity |].
  exists s'. split; [exact H|]. split; [exact H1|]. split; [exact H4 | exact H5].
Defined.

Lemma handleSearch_preview_first_witness :
  exists s',
    step objectURL Part000 searching_state (TriggerSearch (Reference sedan))
    = Some s'
    /\ activeQuery (ui s') = Some "https://h/file=sedan.jpg".
Proof.
  destruct (handleSearch_preview_first objectURL Part000 searching_state
              (Reference sedan))
    as (s' & H & _ & _ & _ & _ & H5 & _); [vm_compute; reflexivity|].
  exists s'. split; [exact H | exact H5].
Defined.

Lemma parseStats_fields_witness :
  exists st,
    parseStats "Embedding dimension: 512"%string = Some st
    /\ dim st = JS.Num (inject_Z 512).
Proof.
  destruct (parseStats_fields "Embedding dimension: 512"%string)
    as (st & Hp & _ & _ & _ & _ & _ & _ & _ & text & [_ Hc] & _ & Hex & _).
  exists st. split; [exact Hp|].
  assert (E : text = "512"%string).
  { apply Hc. apply exec_first_capture. reflexivity. }
  subst text. apply Hex. reflexivity.
Defined.

(** ** The skeleton of the event loop *)

Ltac flags_tac :=
  simpl; rewrite ?andb_true_r, ?andb_false_r, ?orb_false_r; reflexivity.

Section SkeletonFacts.

Variable createObjectURL : nat -> Blob -> string.

Lemma handleSearch_skeleton (v : Version) (source : Source) (s : State) :
  Skeleton (TriggerSearch source) s (handleSearch createObjectURL v source s).
Proof.
  destruct (clientRef s) as [c|] eqn:Hc.
  - rewrite (handleSearch_cached _ _ _ _ c Hc).
    apply (SkStart _ _ _ SearchPredicting
             (Predict (nextId s) c
                (ProcessImage (search_input source) (topK s))));
      try (destruct source; reflexivity).
    simpl. rewrite Hc. eauto.
  - rewrite (handleSearch_uncached _ _ _ _ Hc).
    apply (SkStart _ _ _ (SearchConnecting source (topK s))
             (Connect (nextId s)));
      try (destruct source; reflexivity).
    simpl. now rewrite Hc.
Qed.

Lemma loadResources_skeleton (v : Version) (e : Event) (s0 s : State) :
  user_event e = true ->
  tasks s = tasks s0 -> nextId s = nextId s0 -> calls s = calls s0 ->
  clientRef s = clientRef s0 -> flags (ui s) = flags (ui s0) ->
  Skeleton e s0 (loadResources v s).
Proof.
  intros He Ht Hn Hx Hc Hf. unfold flags in Hf. injection Hf as H1 H2 H3.
  destruct (clientRef s) as [c|] eqn:Hcs.
  - rewrite (loadResources_cached _ _ c Hcs).
    apply (SkStart _ _ _ (LoadPredicting c)
             (Predict (nextId s0) c (load_request (cfg s)))); try exact He;
      simpl; rewrite ?Ht, ?Hn, ?Hx, ?H1, ?H2, ?H3; try reflexivity;
      try congruence.
    rewrite <- Hc. eauto.
  - rewrite (loadResources_uncached _ _ Hcs).
    apply (SkStart _ _ _ (LoadConnecting (cfg s)) (Connect (nextId s0)));
      try exact He;
      simpl; rewrite ?Ht, ?Hn, ?Hx, ?H1, ?H2, ?H3; try reflexivity;
      try congruence.
    now rewrite <- Hc.
Qed.

Lemma refreshExamples_skeleton (s : State) :
  Skeleton ClickRefresh s (refreshExamples s).
Proof.
  unfold refreshExamples, seq. destruct (clientRef s) as [c|] eqn:Hc.
  - rewrite (refreshExamples_from_cached _ _ _ c) by exact Hc.
    apply (SkStart _ _ _ (RefreshPredicting false)
             (Predict (nextId s) c RefreshExamplesWrapper)); try reflexivity.
    simpl. rewrite Hc. eauto.
  - rewrite refreshExamples_from_uncached by exact Hc.
    apply (SkStart _ _ _ (RefreshConnecting false) (Connect (nextId s)));
      try reflexivity.
    simpl. now rewrite Hc.
Qed.

Lemma reconfigure_skeleton (v : Version) (e : Event) (c : Config) (s : State) :
  user_event e = true -> Skeleton e s (reconfigure v c s).
Proof.
  intros He. unfold reconfigure. destruct (config_eqb c (cfg s)).
  - now apply SkSame.
  - unfold seq. now apply loadResources_skeleton.
Qed.

Lemma refreshExamples_finally_flags (t : nat) (inLoad : bool) (s : State) :
  flags (ui (refreshExamples_finally t inLoad s))
  = lower (inLoad, true, false) (flags (ui s)).
Proof.
  destruct inLoad; simpl;
    now rewrite ?andb_true_r, ?andb_false_r.
Qed.

(** Every turn of the event loop has one of five shapes. *)
Lemma step_skeleton (v : Version) (s s' : State) (e : Event) :
  step createObjectURL v s e = Some s' -> Skeleton e s s'.
Proof.
  intros Hs.
  destruct e as [|d|x| |k|source| |t o|t o|t o|t o]; simpl in Hs.
  - destruct (mounted s); [discriminate|]. injection Hs as <-.
    unfold seq. now apply loadResources_skeleton.
  - destruct (mounted s); [|discriminate]. injection Hs as <-.
    now apply reconfigure_skeleton.
  - destruct (mounted s); [|discriminate]. injection Hs as <-.
    now apply reconfigure_skeleton.
  - destruct (mounted s); [|discriminate]. injection Hs as <-.
    now apply reconfigure_skeleton.
  - destruct (mounted s); [|discriminate]. injection Hs as <-.
    now apply SkSame.
  - destruct (mounted s); [|discriminate]. injection Hs as <-.
    apply handleSearch_skeleton.
  - destruct v; [discriminate|].
    destruct (mounted s && negb (isExamplesLoading (ui s)))%bool;
      [|discriminate].
    injection Hs as <-. apply refreshExamples_skeleton.
  - destruct (tasks s !! t) as [k|] eqn:Hk; [|discriminate]. simpl in Hs.
    destruct k as [source n| |c0|c0| |inLoad|inLoad], o as [c|];
      try discriminate; simpl in Hs; injection Hs as <-.
    + now apply (SkConnected _ _ _ t (SearchConnecting source n) c
                   (ProcessImage (search_input source) n)).
    + apply (SkFinish _ _ _ t (SearchConnecting source n));
        try reflexivity; try exact Hk.
      flags_tac.
    + now apply (SkConnected _ _ _ t (LoadConnecting c0) c (load_request c0)).
    + apply (SkFinish _ _ _ t (LoadConnecting c0));
        try reflexivity; try exact Hk.
      flags_tac.
    + now apply (SkConnected _ _ _ t (RefreshConnecting inLoad) c
                   RefreshExamplesWrapper).
    + apply (SkFinish _ _ _ t (RefreshConnecting inLoad));
        try reflexivity; try exact Hk; try (destruct inLoad; reflexivity).
      unfold refreshExamples_resolved, refreshExamples_catch, seq;
        rewrite refreshExamples_finally_flags; reflexivity.
  - destruct (tasks s !! t) as [k|] eqn:Hk; [|discriminate]. simpl in Hs.
    destruct k as [source n| |c0|c0| |inLoad|inLoad], o as [data|];
      try discriminate; simpl in Hs; injection Hs as <-.
    + unfold loadResources_resolved, seq. destruct v.
      * apply (SkLoaded _ _ _ t c0 LoadExamplesPredicting
                 (Predict t c0 RefreshExamplesWrapper));
          first [reflexivity | exact Hk | flags_tac | now left].
      * destruct (clientRef s) as [c|] eqn:Hc.
        -- rewrite (refreshExamples_from_cached _ _ _ c) by exact Hc.
           apply (SkLoaded _ _ _ t c0 (RefreshPredicting true)
                    (Predict t c RefreshExamplesWrapper));
             try reflexivity; try exact Hk.
           right. split; [now left|]. simpl. rewrite Hc. eauto.
        -- rewrite refreshExamples_from_uncached by exact Hc.
           apply (SkLoaded _ _ _ t c0 (RefreshConnecting true) (Connect t));
             try reflexivity; try exact Hk.
           right. split; [now right|]. simpl. now rewrite Hc.
    + apply (SkFinish _ _ _ t (LoadPredicting c0));
        try reflexivity; try exact Hk.
      flags_tac.
  - destruct (tasks s !! t) as [k|] eqn:Hk; [|discriminate]. simpl in Hs.
    destruct k as [source n| |c0|c0| |inLoad|inLoad], o as [data|];
      try discriminate; simpl in Hs; injection Hs as <-.
    + apply (SkFinish _ _ _ t LoadExamplesPredicting);
        try reflexivity; try exact Hk.
      flags_tac.
    + apply (SkFinish _ _ _ t LoadExamplesPredicting);
        try reflexivity; try exact Hk.
      flags_tac.
    + apply (SkFinish _ _ _ t (RefreshPredicting inLoad));
        try reflexivity; try exact Hk; try (destruct inLoad; reflexivity).
      unfold refreshExamples_resolved, refreshExamples_catch, seq;
        rewrite refreshExamples_finally_flags; reflexivity.
    + apply (SkFinish _ _ _ t (RefreshPredicting inLoad));
        try reflexivity; try exact Hk; try (destruct inLoad; reflexivity).
      unfold refreshExamples_resolved, refreshExamples_catch, seq;
        rewrite refreshExamples_finally_flags; reflexivity.
  - destruct (tasks s !! t) as [k|] eqn:Hk; [|discriminate]. simpl in Hs.
    destruct k as [source n| |c0|c0| |inLoad|inLoad], o as [data|];
      try discriminate; simpl in Hs; injection Hs as <-.
    + apply (SkFinish _ _ _ t SearchPredicting);
        try reflexivity; try exact Hk.
      flags_tac.
    + apply (SkFinish _ _ _ t SearchPredicting);
        try reflexivity; try exact Hk.
      flags_tac.
Qed.

End SkeletonFacts.

(** ** Invariants of the event loop *)

Lemma fresh_skeleton (e : Event) (s s' : State) :
  Skeleton e s s' -> fresh s -> fresh s'.
Proof.
  intros [_ Ht Hn _ _ _|k x _ Ht Hn _ _ _ _|t k c r _ Hk _ Ht Hn _ _ _
         |t c0 k' x _ Hk Ht Hn _ _ _ _|t k _ Hk Ht Hn _ _ _] Hf t0 k0;
    rewrite Ht, Hn.
  - apply Hf.
  - destruct (decide (nextId s = t0)) as [<-|Hne].
    + intros _. lia.
    + rewrite lookup_insert_ne by exact Hne. intros H.
      specialize (Hf _ _ H). lia.
  - destruct (decide (t = t0)) as [<-|Hne].
    + intros _. exact (Hf _ _ Hk).
    + rewrite lookup_insert_ne by exact Hne. apply Hf.
  - destruct (decide (t = t0)) as [<-|Hne].
    + intros _. exact (Hf _ _ Hk).
    + rewrite lookup_insert_ne by exact Hne. apply Hf.
  - destruct (decide (t = t0)) as [<-|Hne].
    + now rewrite lookup_delete_eq.
    + rewrite lookup_delete_ne by exact Hne. apply Hf.
Qed.

Lemma owner_connected (k : Task) (c : Client) :
  connecting k = true -> owner (connected k c) = owner k.
Proof. destruct k; try discriminate; reflexivity. Qed.

Section Covered.

(** One of the three flags. *)
Variable sel : bool * bool * bool -> bool.
Hypothesis sel_raise : forall o f, sel (raise o f) = (sel o || sel f)%bool.
Hypothesis sel_lower : forall o f, sel (lower o f) = (sel f && negb (sel o))%bool.

Lemma covered_skeleton (e : Event) (s s' : State) :
  Skeleton e s s' -> fresh s -> covered sel s -> covered sel s'.
Proof.
  intros [_ Ht Hn _ _ Hfl|k x _ Ht Hn _ _ Hfl _|t k c r _ Hk Hc Ht Hn _ _ Hfl
         |t c0 k' x _ Hk Ht Hn _ _ Hfl Hk'|t k _ Hk Ht Hn _ _ Hfl] Hf Hcov;
    unfold covered; rewrite Hfl, Ht.
  - exact Hcov.
  - rewrite sel_raise. intros H. destruct (sel (owner k)) eqn:Ho.
    + exists (nextId s), k. now rewrite lookup_insert_eq.
    + destruct (Hcov H) as (t0 & k0 & H0 & Hs0). exists t0, k0.
      split; [|exact Hs0]. rewrite lookup_insert_ne; [exact H0|].
      specialize (Hf _ _ H0). lia.
  - intros H. destruct (Hcov H) as (t0 & k0 & H0 & Hs0).
    destruct (decide (t = t0)) as [<-|Hne].
    + exists t, (connected k c). rewrite lookup_insert_eq.
      split; [reflexivity|]. rewrite owner_connected by exact Hc. congruence.
    + exists t0, k0. now rewrite lookup_insert_ne.
  - rewrite sel_raise, sel_lower. intros H.
    assert (Hmono : sel (owner (LoadPredicting c0)) = true ->
                    sel (owner k') = true).
    { destruct Hk' as [[-> _]|[[->| ->] _]]; [tauto| |];
        change (owner (LoadPredicting c0))
          with (lower (false, true, false) (true, true, false));
        simpl owner; rewrite sel_lower;
        intros H'; now apply andb_true_iff in H' as [? _]. }
    destruct (sel (owner k')) eqn:Ho.
    + exists t, k'. now rewrite lookup_insert_eq.
    + simpl in H. destruct (Hcov H) as (t0 & k0 & H0 & Hs0).
      destruct (decide (t = t0)) as [<-|Hne].
      * rewrite Hk in H0. injection H0 as <-. specialize (Hmono Hs0).
        discriminate.
      * exists t0, k0. now rewrite lookup_insert_ne.
  - rewrite sel_lower. intros H. apply andb_true_iff in H as [H Hno].
    apply negb_true_iff in Hno.
    destruct (Hcov H) as (t0 & k0 & H0 & Hs0).
    destruct (decide (t = t0)) as [<-|Hne].
    + rewrite Hk in H0. injection H0 as <-. congruence.
    + exists t0, k0. now rewrite lookup_delete_ne.
Qed.

End Covered.

Lemma potential_delete (m : gmap nat Task) (t : nat) (k : Task) :
  m !! t = Some k -> potential m = remaining k + potential (delete t m).
Proof.
  intros H. unfold potential.
  apply (map_fold_delete_L (fun _ k acc => remaining k + acc)); [|exact H].
  intros. lia.
Qed.

Lemma potential_insert (m : gmap nat Task) (t : nat) (k' : Task) :
  potential (<[t := k']> m) = remaining k' + potential (delete t m).
Proof.
  rewrite <- insert_delete_eq. unfold potential.
  apply (map_fold_insert_L (fun _ k acc => remaining k + acc)).
  - intros. lia.
  - apply lookup_delete_eq.
Qed.

Lemma remaining_connected (k : Task) (c : Client) :
  connecting k = true -> remaining (connected k c) < remaining k.
Proof. destruct k; try discriminate; simpl; lia. Qed.

Lemma attempts_of_app (t : nat) (l l' : list Call) :
  attempts_of t (l ++ l') = attempts_of t l + attempts_of t l'.
Proof.
  induction l as [|[t'|t' c r] l IH]; simpl; [reflexivity| |exact IH].
  destruct (Nat.eqb t t'); simpl; now rewrite IH.
Qed.

Section InvariantFacts.

Variable createObjectURL : nat -> Blob -> string.

Lemma run_covered (v : Version) (es : list Event) (s s' : State)
    (sel : bool * bool * bool -> bool) :
  (forall o f, sel (raise o f) = (sel o || sel f)%bool) ->
  (forall o f, sel (lower o f) = (sel f && negb (sel o))%bool) ->
  run createObjectURL v s es = Some s' ->
  fresh s -> covered sel s -> fresh s' /\ covered sel s'.
Proof.
  intros Hr Hl. revert s. induction es as [|e es IH]; intros s Hrun Hf Hc.
  - injection Hrun as <-. now split.
  - simpl in Hrun.
    destruct (step createObjectURL v s e) as [s1|] eqn:Hs; [|discriminate].
    simpl in Hrun. apply step_skeleton in Hs.
    apply (IH s1 Hrun).
    + exact (fresh_skeleton _ _ _ Hs Hf).
    + exact (covered_skeleton sel Hr Hl _ _ _ Hs Hf Hc).
Qed.

(** X12. In every state the component can reach, a flag that is set has a
    handler instance in flight that will clear it when it ends; so once
    nothing is in flight no flag is set. *)
Theorem flags_have_owner (v : Version) (es : list Event) (s : State) :
  run createObjectURL v initial es = Some s ->
  (isLoading (ui s) = true ->
   exists t k, tasks s !! t = Some k /\ ends_load k = true)
  /\ (isExamplesLoading (ui s) = true ->
      exists t k, tasks s !! t = Some k /\ ends_examples k = true)
  /\ (isSearching (ui s) = true ->
      exists t k, tasks s !! t = Some k /\ ends_search k = true)
  /\ (tasks s = ∅ -> flags (ui s) = (false, false, false)).
Proof.
  intros Hrun.
  assert (Hf0 : fresh initial).
  { intros t k H. vm_compute in H. discriminate. }
  assert (H1 : covered (fun f => fst (fst f)) s).
  { apply (run_covered v es initial s (fun f => fst (fst f))); try assumption.
    - now intros [[? ?] ?] [[? ?] ?].
    - now intros [[? ?] ?] [[? ?] ?].
    - intros H. discriminate. }
  assert (H2 : covered (fun f => snd (fst f)) s).
  { apply (run_covered v es initial s (fun f => snd (fst f))); try assumption.
    - now intros [[? ?] ?] [[? ?] ?].
    - now intros [[? ?] ?] [[? ?] ?].
    - intros H. discriminate. }
  assert (H3 : covered (fun f => snd f) s).
  { apply (run_covered v es initial s (fun f => snd f)); try assumption.
    - now intros [[? ?] ?] [[? ?] ?].
    - now intros [[? ?] ?] [[? ?] ?].
    - intros H. discriminate. }
  split; [exact H1|]. split; [exact H2|]. split; [exact H3|].
  intros He. unfold flags.
  destruct (isLoading (ui s)) eqn:E1.
  { destruct (H1 E1) as (t & k & Hk & _). rewrite He in Hk.
    now rewrite lookup_empty in Hk. }
  destruct (isExamplesLoading (ui s)) eqn:E2.
  { destruct (H2 E2) as (t & k & Hk & _). rewrite He in Hk.
    now rewrite lookup_empty in Hk. }
  destruct (isSearching (ui s)) eqn:E3.
  { destruct (H3 E3) as (t & k & Hk & _). rewrite He in Hk.
    now rewrite lookup_empty in Hk. }
  reflexivity.
Qed.

(** X13. A settlement finishes the instance it belongs to or moves it closer
    to its end: a search or a refresh needs at most two settlements and a
    load at most four.  So a run made of settlements only is never longer
    than what the instances in flight may still need. *)
Theorem settlements_bounded (v : Version) (es : list Event) (s s' : State) :
  Forall (fun e => user_event e = false) es ->
  run createObjectURL v s es = Some s' ->
  length es + potential (tasks s') <= potential (tasks s).
Proof.
  intros Hes. revert s. induction Hes as [|e es He _ IH]; intros s Hrun.
  - injection Hrun as <-. simpl. lia.
  - simpl in Hrun.
    destruct (step createObjectURL v s e) as [s1|] eqn:Hs; [|discriminate].
    simpl in Hrun. specialize (IH _ Hrun). apply step_skeleton in Hs.
    assert (S (potential (tasks s1)) <= potential (tasks s)); [|simpl; lia].
    destruct Hs as [Hu _ _ _ _ _|k x Hu _ _ _ _ _ _
                   |t k c r _ Hk Hc Ht _ _ _ _
                   |t c0 k' x _ Hk Ht _ _ _ _ Hk'|t k _ Hk Ht _ _ _ _];
      try congruence; rewrite Ht.
    + rewrite potential_insert, (potential_delete _ _ _ Hk).
      assert (H := remaining_connected k c Hc). lia.
    + rewrite potential_insert, (potential_delete _ _ _ Hk).
      destruct Hk' as [[-> _]|[[->| ->] _]]; simpl; lia.
    + rewrite (potential_delete _ _ _ Hk). destruct k; simpl; lia.
Qed.

(** X14. Once a handle is cached the cache is never emptied and no handler
    ever tries to connect again. *)
Theorem connected_never_reconnects (v : Version) (es : list Event)
    (s s' : State) (c : Client) :
  clientRef s = Some c ->
  run createObjectURL v s es = Some s' ->
  (exists c', clientRef s' = Some c')
  /\ connects (calls s') = connects (calls s).
Proof.
  revert s c. induction es as [|e es IH]; intros s c Hc Hrun.
  - injection Hrun as <-. split; [eauto | reflexivity].
  - simpl in Hrun.
    destruct (step createObjectURL v s e) as [s1|] eqn:Hs; [|discriminate].
    simpl in Hrun. apply step_skeleton in Hs.
    assert (H1 : (exists c1, clientRef s1 = Some c1)
                 /\ connects (calls s1) = connects (calls s)).
    { destruct Hs as [_ _ _ Hx Hr _|k x _ _ _ Hx Hr _ Hi
                     |t k c1 r _ _ _ _ _ Hx Hr _
                     |t c0 k' x _ _ _ _ Hx Hr _ Hk'|t k _ _ _ _ Hx Hr _];
        rewrite Hx, ?connects_app.
      - split; [rewrite Hr; eauto | reflexivity].
      - split; [rewrite Hr; eauto|]. rewrite Hc in Hi.
        destruct k; simpl in Hi;
          first [ destruct Hi as [? _]; discriminate
                | destruct Hi as (_ & r & ->); simpl; lia
                | destruct Hi as (c1 & r & _ & ->); simpl; lia
                | contradiction ].
      - split; [eauto | simpl; lia].
      - split; [rewrite Hr; eauto|]. rewrite Hc in Hk'.
        destruct Hk' as [[_ ->]|[[->| ->] Hi]]; simpl in *.
        + lia.
        + destruct Hi as (c1 & r & _ & ->). simpl. lia.
        + destruct Hi as [? _]. discriminate.
      - split; [rewrite Hr; eauto | reflexivity]. }
    destruct H1 as [[c1 Hc1] Hn1].
    destruct (IH _ _ Hc1 Hrun) as [H2 H3]. split; [exact H2 | lia].
Qed.

Lemma single_attempt_skeleton (e : Event) (s s' : State) :
  Skeleton e s s' -> single_attempt s -> single_attempt s'.
Proof.
  intros Hs (Hb & Hc & Hd).
  destruct Hs as [_ Ht Hn Hx Hr _|k x _ Ht Hn Hx Hr _ Hi
                 |t k c r _ Hk Hcon Ht Hn Hx Hr _
                 |t c0 k' x _ Hk Ht Hn Hx Hr _ Hk'|t k _ Hk Ht Hn Hx Hr _].
  - unfold single_attempt. rewrite Ht, Hn, Hx, Hr. auto.
  - assert (Hcases : (x = Connect (nextId s) /\ connecting k = true)
                     \/ ((exists t c r, x = Predict t c r)
                         /\ clientRef s <> None)).
    { destruct k; simpl in Hi;
        first [ destruct Hi as [_ ->]; now left
              | destruct Hi as (E & r & ->); right; split; [eauto|congruence]
              | destruct Hi as (c & r & E & ->); right;
                split; [eauto|congruence]
              | contradiction ]. }
    unfold single_attempt. rewrite Ht, Hn, Hx, Hr.
    split; [|split].
    + intros t Hle. rewrite attempts_of_app, Hb by lia.
      destruct Hcases as [[-> _]|[(t1 & c & r & ->) _]]; simpl;
        [|reflexivity].
      destruct (Nat.eqb_spec t (nextId s)); [lia | reflexivity].
    + intros t k0. destruct (decide (nextId s = t)) as [<-|Hne].
      * rewrite lookup_insert_eq. intros [= <-] Hk0.
        destruct Hcases as [[_ E]|[_ E]]; [congruence | exact E].
      * rewrite lookup_insert_ne by exact Hne. apply Hc.
    + intros t. rewrite attempts_of_app.
      destruct Hcases as [[-> _]|[(t1 & c & r & ->) _]]; simpl.
      * destruct (Nat.eqb_spec t (nextId s)) as [->|_].
        -- rewrite Hb by lia. lia.
        -- specialize (Hd t). lia.
      * specialize (Hd t). lia.
  - unfold single_attempt. rewrite Ht, Hn, Hx, Hr.
    split; [|split].
    + intros t0 Hle. rewrite attempts_of_app, Hb by lia. reflexivity.
    + intros. discriminate.
    + intros t0. rewrite attempts_of_app. simpl. specialize (Hd t0). lia.
  - assert (Hne : clientRef s <> None) by (apply (Hc t _ Hk); reflexivity).
    assert (Hp : exists t1 c r, x = Predict t1 c r).
    { destruct Hk' as [[_ ->]|[[->| ->] Hi]];
        [ eauto
        | simpl in Hi; destruct Hi as (c & r & _ & ->); eauto
        | simpl in Hi; destruct Hi as [E _]; congruence ]. }
    destruct Hp as (t1 & c & r & ->).
    unfold single_attempt. rewrite Ht, Hn, Hx, Hr.
    split; [|split].
    + intros t0 Hle. rewrite attempts_of_app, Hb by lia. reflexivity.
    + intros. exact Hne.
    + intros t0. rewrite attempts_of_app. simpl. specialize (Hd t0). lia.
  - unfold single_attempt. rewrite Ht, Hn, Hx, Hr.
    split; [exact Hb|]. split; [|exact Hd].
    intros t0 k0. destruct (decide (t = t0)) as [<-|Hne].
    + now rewrite lookup_delete_eq.
    + rewrite lookup_delete_ne by exact Hne. apply Hc.
Qed.

(** X15. In every state the component can reach, no handler instance has
    called [Client.connect] more than once: a failed attempt is never
    retried by the instance that made it, and the [refreshExamples]
    inside a load finds the handle in the cache. *)
Theorem one_attempt_per_instance (v : Version) (es : list Event) (s : State) :
  run createObjectURL v initial es = Some s ->
  forall t, attempts_of t (calls s) <= 1.
Proof.
  intros Hrun.
  assert (H0 : single_attempt initial).
  { split; [|split].
    - reflexivity.
    - intros t k H. simpl in H. rewrite lookup_empty in H. discriminate.
    - intros t. simpl. lia. }
  cut (single_attempt s); [intros (_ & _ & H); exact H|].
  revert H0 Hrun. generalize initial. induction es as [|e es IH];
    intros s0 H0 Hrun.
  - injection Hrun as <-. exact H0.
  - simpl in Hrun.
    destruct (step createObjectURL v s0 e) as [s1|] eqn:Hs; [|discriminate].
    simpl in Hrun. apply step_skeleton in Hs.
    exact (IH s1 (single_attempt_skeleton _ _ _ Hs H0) Hrun).
Qed.

Lemma trusted_mono (D D' : Client -> Prop) (s : State) :
  (forall c, D c -> D' c) -> trusted D s -> trusted D' s.
Proof.
  intros H (H1 & H2 & H3). split; [|split]; eauto.
Qed.

Lemma trusted_skeleton (D : Client -> Prop) (e : Event) (s s' : State) :
  Skeleton e s s' -> trusted D s ->
  trusted (fun c => D c \/ delivered [e] c) s'.
Proof.
  intros Hs (H1 & H2 & H3).
  assert (Hin : forall (x : Call) (l : list Call) (P : Client -> Prop),
            (forall y c, In y l -> handle_of y = Some c -> P c) ->
            (forall c, handle_of x = Some c -> P c) ->
            forall y c, In y (l ++ [x]) -> handle_of y = Some c -> P c).
  { intros x l P Hl Hx y c Hy. apply in_app_or in Hy as [Hy|[<-|[]]]; eauto. }
  destruct Hs as [_ Ht Hn Hx Hr _|k x _ Ht Hn Hx Hr _ Hi
                 |t k c r -> Hk Hcon Ht Hn Hx Hr _
                 |t c0 k' x _ Hk Ht Hn Hx Hr _ Hk'|t k _ Hk Ht Hn Hx Hr _];
    unfold trusted; rewrite Ht, Hx, Hr.
  - split; [|split]; eauto.
  - split; [eauto|]. split.
    + intros t c. destruct (decide (nextId s = t)) as [<-|Hne].
      * rewrite lookup_insert_eq. intros [= ->]. simpl in Hi.
        destruct Hi as [E _]. eauto.
      * rewrite lookup_insert_ne by exact Hne. eauto.
    + apply Hin; [eauto|]. intros c Hc.
      destruct k; simpl in Hi;
        first [ destruct Hi as [_ ->]; discriminate
              | destruct Hi as (E & r & ->); injection Hc as <-; eauto
              | destruct Hi as (c1 & r & E & ->); injection Hc as <-; eauto
              | contradiction ].
  - assert (Hd : delivered [ConnectSettled t (Resolved c)] c)
      by (exists t; now left).
    split; [intros c1 [= <-]; eauto|]. split.
    + intros t0 c1. destruct (decide (t = t0)) as [<-|Hne].
      * rewrite lookup_insert_eq. destruct k; try discriminate; simpl;
          intros [= <-]; eauto.
      * rewrite lookup_insert_ne by exact Hne. eauto.
    + apply Hin; [eauto|]. intros c1 [= <-]. eauto.
  - split; [eauto|]. split.
    + intros t0 c1. destruct (decide (t = t0)) as [<-|Hne].
      * rewrite lookup_insert_eq.
        destruct Hk' as [[-> _]|[[->| ->] _]]; discriminate.
      * rewrite lookup_insert_ne by exact Hne. eauto.
    + apply Hin; [eauto|]. intros c Hc.
      destruct Hk' as [[_ ->]|[[->| ->] Hi]].
      * injection Hc as <-. eauto.
      * simpl in Hi. destruct Hi as (c1 & r & E & ->).
        injection Hc as <-. eauto.
      * simpl in Hi. destruct Hi as [_ ->]. discriminate.
  - split; [eauto|]. split; [|eauto].
    intros t0 c1. destruct (decide (t = t0)) as [<-|Hne].
    + now rewrite lookup_delete_eq.
    + rewrite lookup_delete_ne by exact Hne. eauto.
Qed.

Lemma trusted_run (v : Version) (es : list Event) (D : Client -> Prop)
    (s s' : State) :
  run createObjectURL v s es = Some s' -> trusted D s ->
  trusted (fun c => D c \/ delivered es c) s'.
Proof.
  revert D s. induction es as [|e es IH]; intros D s Hrun HD.
  - injection Hrun as <-. apply (trusted_mono D); [tauto | exact HD].
  - simpl in Hrun.
    destruct (step createObjectURL v s e) as [s1|] eqn:Hs; [|discriminate].
    simpl in Hrun. apply step_skeleton in Hs.
    apply (trusted_skeleton D) in Hs; [|exact HD].
    apply (IH _ _ Hrun) in Hs. revert Hs. apply trusted_mono.
    intros c [[H|[t [H|[]]]]|[t H]].
    + now left.
    + right. exists t. now left.
    + right. exists t. now right.
Qed.

(** X16. In every state the component can reach, every [predict] was called
    on a handle that an attempt to connect had resolved to before. *)
Theorem predict_only_on_delivered (v : Version) (es : list Event) (s : State) :
  run createObjectURL v initial es = Some s ->
  forall t c r, In (Predict t c r) (calls s) -> delivered es c.
Proof.
  intros Hrun t c r Hin.
  assert (H0 : trusted (fun _ => False) initial).
  { split; [|split].
    - discriminate.
    - intros t0 c0 H. simpl in H. rewrite lookup_empty in H. discriminate.
    - intros x c0 []. }
  destruct (trusted_run v es _ _ _ Hrun H0) as (_ & _ & H3).
  destruct (H3 _ c Hin eq_refl) as [[]|H]. exact H.
Qed.

End InvariantFacts.

(** ** More on the decoders *)

Local Open Scope string_scope.

Lemma indexOf_unfold (pat s : string) :
  indexOf pat s
  = match JS.strip_prefix pat s with
    | Some _ => 0%Z
    | None =>
        match s with
        | EmptyString => (-1)%Z
        | String _ s' =>
            if (indexOf pat s' =? -1)%Z then (-1)%Z
            else (indexOf pat s' + 1)%Z
        end
    end.
Proof. destruct s; reflexivity. Qed.

Lemma indexOf_lower_bound (pat s : string) : (-1 <= indexOf pat s)%Z.
Proof.
  induction s as [|c s IH]; rewrite indexOf_unfold;
    destruct (JS.strip_prefix pat _); try lia.
  destruct (Z.eqb_spec (indexOf pat s) (-1)); lia.
Qed.

(** [indexOf] answers [-1] exactly when the pattern does not occur. *)
Lemma indexOf_absent (pat s : string) :
  indexOf pat s = (-1)%Z <-> ~ occurs_in pat s.
Proof.
  induction s as [|c s IH]; rewrite indexOf_unfold;
    destruct (JS.strip_prefix pat _) as [r|] eqn:Hp.
  - split; [discriminate|]. intros H. destruct H.
    apply strip_prefix_spec in Hp. now exists "", r.
  - split; [|reflexivity]. intros _ ([|c pre] & post & E); [|discriminate].
    simpl in E. apply strip_prefix_spec in E. congruence.
  - split; [discriminate|]. intros H. destruct H.
    apply strip_prefix_spec in Hp. now exists "", r.
  - assert (Hb := indexOf_lower_bound pat s).
    destruct (Z.eqb_spec (indexOf pat s) (-1)) as [E|E].
    + split; [|reflexivity]. intros _ ([|c' pre] & post & E').
      * simpl in E'. apply strip_prefix_spec in E'. congruence.
      * simpl in E'. injection E' as -> E'.
        apply IH in E. apply E. now exists pre, post.
    + split; [lia|]. intros Hno. exfalso. apply E, IH.
      intros (pre & post & E'). apply Hno.
      exists (String c pre), post. simpl. now rewrite E'.
Qed.

Lemma replace_unfold (pat rep s : string) :
  JS.replace pat rep s
  = match JS.strip_prefix pat s with
    | Some rest => rep ++ rest
    | None =>
        match s with
        | EmptyString => EmptyString
        | String c s' => String c (JS.replace pat rep s')
        end
    end.
Proof. destruct s; reflexivity. Qed.

(** Removing an occurrence keeps every character in its class. *)
Lemma all_chars_replace (p : ascii -> bool) (pat s : string) :
  all_chars p s = true -> all_chars p (JS.replace pat "" s) = true.
Proof.
  induction s as [|c s IH]; intros H; rewrite replace_unfold.
  - destruct (JS.strip_prefix pat "") as [r|] eqn:E; [|reflexivity].
    apply strip_prefix_spec in E. destruct pat; [|discriminate].
    simpl in E. now subst r.
  - destruct (JS.strip_prefix pat (String c s)) as [r|] eqn:E.
    + apply strip_prefix_spec in E. rewrite E, all_chars_append in H.
      apply andb_true_iff in H as [_ H]. exact H.
    + simpl in *. apply andb_true_iff in H as [-> H]. now apply IH.
Qed.

Lemma split_go_segments (cur s : string) :
  segment cur -> Forall segment (JS.split_go "010" cur s).
Proof.
  revert cur. induction s as [|c s IH]; intros cur Hc; simpl.
  - constructor; [exact Hc | constructor].
  - destruct (Ascii.eqb c "010") eqn:E.
    + constructor; [exact Hc | now apply IH].
    + apply IH. unfold segment. rewrite all_chars_append. simpl.
      now rewrite Hc, E.
Qed.

Lemma or_else_ready (o : option string) (d : string) :
  d <> "" -> segment d -> (forall x, o = Some x -> segment x) ->
  JS.or_else o d <> "" /\ segment (JS.or_else o d).
Proof.
  intros Hd Hs Ho. destruct o as [[|c x]|]; simpl; try (now split).
  split; [discriminate | now apply Ho].
Qed.

(** X1. Whatever the caption, the decoded label and similarity are ready for
    display: neither is empty and neither holds a line feed. *)
Theorem parseCaption_display_ready (caption : option string) :
  className (parseCaption caption) <> ""
  /\ sim (parseCaption caption) <> ""
  /\ segment (className (parseCaption caption))
  /\ segment (sim (parseCaption caption)).
Proof.
  unfold parseCaption. destruct (negb (JS.truthy caption)).
  { simpl. repeat split; discriminate. }
  set (parts := JS.split "010" (default "" caption)).
  assert (Hparts : Forall segment parts)
    by (apply split_go_segments; reflexivity).
  assert (Hseg : forall i p, parts !! i = Some p -> segment p).
  { intros i p Hp. exact (proj1 (Forall_lookup _ _) Hparts i p Hp). }
  cbn [className sim].
  destruct (or_else_ready
              (JS.replace "Label: " "" <$>
                 (JS.replace "Class: " "" <$> parts !! 0%nat)) "Unknown")
    as [H1 H2]; [discriminate | reflexivity | |].
  { intros x Hx. destruct (parts !! 0%nat) as [p|] eqn:Hp; [|discriminate].
    injection Hx as <-. unfold segment.
    do 2 apply all_chars_replace. exact (Hseg _ _ Hp). }
  destruct (or_else_ready (JS.replace "Sim: " "" <$> parts !! 1%nat) "0.000")
    as [H3 H4]; [discriminate | reflexivity | |].
  { intros x Hx. destruct (parts !! 1%nat) as [p|] eqn:Hp; [|discriminate].
    injection Hx as <-. unfold segment.
    apply all_chars_replace. exact (Hseg _ _ Hp). }
  tauto.
Qed.

Lemma parseCaption_two (seg1 seg2 : string) :
  segment seg1 -> segment seg2 ->
  parseCaption (Some (seg1 ++ nl ++ seg2))
  = {| className :=
         nonempty_or (JS.replace "Label: " "" (JS.replace "Class: " "" seg1))
           "Unknown";
       sim := nonempty_or (JS.replace "Sim: " "" seg2) "0.000" |}.
Proof.
  intros H1 H2. unfold parseCaption.
  destruct (split_two seg1 seg2 "" H1 H2) as [l El]; [now left|].
  rewrite append_nil_r in El.
  assert (Ht : JS.truthy (Some (seg1 ++ nl ++ seg2)) = true)
    by (destruct seg1; reflexivity).
  rewrite Ht. cbn [negb default]. unfold id. rewrite El.
  cbn [lookup list_lookup fmap option_fmap option_map].
  now rewrite !or_else_some.
Qed.

(** X2. A caption written as ["Class: <label>"], a line feed, ["Sim: <sim>"]
    is read back as the label and the similarity, for every non-empty
    label and similarity without a line feed, as long as the label does
    not hold the text ["Label: "]; the same holds for the prefix
    ["Label: "] when the label does not hold ["Class: "] either. *)
Theorem parseCaption_round_trip (label similarity : string) :
  segment label -> segment similarity ->
  label <> "" -> similarity <> "" ->
  ~ occurs_in "Label: " label ->
  parseCaption (Some (("Class: " ++ label) ++ nl ++ "Sim: " ++ similarity))
  = {| className := label; sim := similarity |}
  /\ (~ occurs_in "Class: " label ->
      parseCaption (Some (("Label: " ++ label) ++ nl ++ "Sim: " ++ similarity))
      = {| className := label; sim := similarity |}).
Proof.
  intros Hl Hs Hln Hsn Hno.
  assert (Hsim : JS.replace "Sim: " "" ("Sim: " ++ similarity) = similarity).
  { rewrite replace_unfold, strip_prefix_append. reflexivity. }
  assert (Hne : forall x : string, x <> "" -> nonempty_or x "Unknown" = x)
    by (intros [|? ?] H; [congruence | reflexivity]).
  assert (Hne' : forall x : string, x <> "" -> nonempty_or x "0.000" = x)
    by (intros [|? ?] H; [congruence | reflexivity]).
  assert (Hseg : forall p : string, segment p -> segment ("Sim: " ++ p)
                                   /\ segment ("Class: " ++ p)
                                   /\ segment ("Label: " ++ p)).
  { intros p Hp. unfold segment in *. rewrite !all_chars_append, Hp.
    repeat split. }
  destruct (Hseg _ Hl) as (_ & Hc & Hb). destruct (Hseg _ Hs) as (Hs' & _).
  split.
  - rewrite parseCaption_two by assumption. rewrite Hsim.
    rewrite (replace_unfold "Class: "), strip_prefix_append.
    change ("" ++ label) with label.
    rewrite (replace_absent _ _ _ Hno), Hne, Hne' by assumption.
    reflexivity.
  - intros Hnc. rewrite parseCaption_two by assumption. rewrite Hsim.
    assert (E : JS.replace "Class: " "" ("Label: " ++ label)
                = "Label: " ++ JS.replace "Class: " "" label)
      by reflexivity.
    rewrite E, (replace_absent _ _ _ Hnc).
    rewrite (replace_unfold "Label: "), strip_prefix_append.
    change ("" ++ label) with label.
    rewrite Hne, Hne' by assumption. reflexivity.
Qed.

Lemma binary64_not_negative (q : Q) : not_negative (JS.binary64 q).
Proof.
  destruct (binary64_cases q) as [E|(q' & E & Hq)]; rewrite E;
    [reflexivity | exact Hq].
Qed.

(** The number read from a run of digits and dots never carries a minus
    sign. *)
Lemma parseFloat_run_not_negative (cap : string) :
  cap <> "" -> all_chars JS.is_num_char cap = true ->
  not_negative (JS.parseFloat cap).
Proof.
  intros Hne Hall. destruct (parseFloat_run cap Hne Hall) as [Hnan Hnum].
  destruct (JS.parseFloat cap) eqn:E; try exact I;
    (destruct Hnum as (q0 & _ & Hq);
     [intros Hd; apply Hnan in Hd; discriminate|]);
    rewrite Hq; apply binary64_not_negative.
Qed.

Lemma getNum_not_negative (name raw : string) :
  not_negative (getNum raw (percent_re name)).
Proof.
  unfold getNum. destruct (JS.exec _ raw) as [cap|] eqn:He.
  - apply exec_first_capture, first_capture_run in He as [Hne Hall].
    now apply parseFloat_run_not_negative.
  - simpl. apply Qle_refl.
Qed.

(** X5. Whatever the raw text, no decoded number carries a minus sign:
    each percentage is [NaN], a number from zero up or the positive
    infinity; the dimension is a number from zero up or the positive
    infinity, and never [NaN]; the embeddings text is a non-empty run of
    digits. *)
Theorem parseStats_not_negative (raw : string) :
  exists st,
    parseStats raw = Some st
    /\ not_negative (precision st) /\ not_negative (mapR st)
    /\ not_negative (r1 (recall st)) /\ not_negative (r5 (recall st))
    /\ not_negative (r10 (recall st)) /\ not_negative (r100 (recall st))
    /\ not_negative (dim st) /\ dim st <> JS.NaN
    /\ embeddings st <> ""
    /\ all_chars JS.is_digit (embeddings st) = true.
Proof.
  eexists. split; [reflexivity|].
  cbn [precision mapR recall r1 r5 r10 r100 embeddings dim].
  do 6 (split; [apply getNum_not_negative|]).
  destruct (count_text_digits "Embedding dimension" raw) as [Hne Hall].
  destruct (count_text_digits "Total embeddings" raw) as [Hne' Hall'].
  rewrite (parseInt_digits _ Hne Hall).
  split; [apply binary64_not_negative|].
  split; [apply binary64_not_NaN|]. split; assumption.
Qed.

Lemma parseStats_metrics_text_witness :
  parseStats (metrics_text [(R1, "91.200"); (Precision, "87.350");
                            (TotalEmbeddings, "8131"); (R1, "3")])
  = Some {| precision := JS.binary64 (8735 # 100);
            mapR := JS.Num 0;
            recall := {| r1 := JS.binary64 (912 # 10); r5 := JS.Num 0;
                         r10 := JS.Num 0; r100 := JS.Num 0 |};
            embeddings := "8131"; dim := JS.Num 0 |}.
Proof.
  rewrite parseStats_metrics_text.
  - vm_compute. reflexivity.
  - repeat constructor; discriminate.
Defined.

Lemma parseCaption_round_trip_witness :
  parseCaption (Some (("Class: " ++ "Sedan") ++ nl ++ "Sim: " ++ "0.912"))
  = {| className := "Sedan"; sim := "0.912" |}.
Proof.
  destruct (parseCaption_round_trip "Sedan" "0.912") as [H _];
    [reflexivity | reflexivity | discriminate | discriminate | | exact H].
  apply indexOf_absent. reflexivity.
Defined.

(** ** More on the controller *)

Local Open Scope list_scope.

Lemma config_eqb_refl (c : Config) : config_eqb c c = true.
Proof.
  unfold config_eqb. now rewrite !String.eqb_refl, Bool.eqb_reflx.
Qed.

Lemma config_eqb_eq (a b : Config) : config_eqb a b = true -> a = b.
Proof.
  destruct a as [d1 s1 f1], b as [d2 s2 f2]. unfold config_eqb. simpl.
  intros H. apply andb_true_iff in H as [H H3].
  apply andb_true_iff in H as [H1 H2].
  apply String.eqb_eq in H1, H2. apply Bool.eqb_prop in H3. congruence.
Qed.

Section ControllerExtras.

Variable createObjectURL : nat -> Blob -> string.

(** *** The paste handler *)

Lemma handleSearch_counters (v : Version) (b : Blob) (s : State) :
  let s' := handleSearch createObjectURL v (Binary b) s in
  mounted s' = mounted s /\ nextId s' = S (nextId s)
  /\ minted s' = S (minted s) /\ topK s' = topK s.
Proof.
  destruct (clientRef s) as [c|] eqn:Hc.
  - rewrite (handleSearch_cached _ _ _ _ c Hc). simpl. tauto.
  - rewrite (handleSearch_uncached _ _ _ _ Hc). simpl. tauto.
Qed.

Lemma handlePaste_loop_run (v : Version) (l : list ClipboardItem) (s : State) :
  mounted s = true ->
  run createObjectURL v s
    (map (fun b => TriggerSearch (Binary b)) (pasted_images l))
  = Some (handlePaste_loop createObjectURL v l s).
Proof.
  revert s. induction l as [|item l IH]; intros s Hm; [reflexivity|].
  cbn [pasted_images handlePaste_loop]. unfold seq, handlePaste_item.
  destruct (negb (indexOf "image" (item_type item) =? -1)%Z);
    [|now apply IH].
  destruct (getAsFile item) as [b|]; [|now apply IH].
  cbn [map run step]. rewrite Hm. cbn [mbind option_bind].
  apply IH. destruct (handleSearch_counters v b s) as (-> & _). exact Hm.
Qed.

Lemma searches_counters (v : Version) (blobs : list Blob) (s s' : State) :
  mounted s = true ->
  run createObjectURL v s (map (fun b => TriggerSearch (Binary b)) blobs)
  = Some s' ->
  nextId s' = nextId s + length blobs /\ minted s' = minted s + length blobs.
Proof.
  revert s. induction blobs as [|b l IH]; intros s Hm Hrun.
  - injection Hrun as <-. simpl. lia.
  - cbn [map run step] in Hrun. rewrite Hm in Hrun.
    cbn [mbind option_bind] in Hrun.
    destruct (handleSearch_counters v b s) as (H1 & H2 & H3 & _).
    rewrite <- H1 in Hm. destruct (IH _ Hm Hrun) as [-> ->].
    rewrite H2, H3. simpl. lia.
Qed.

Lemma pasted_images_spec (l : list ClipboardItem) (b : Blob) :
  In b (pasted_images l) <->
  exists item, In item l /\ occurs_in "image" (item_type item)
               /\ getAsFile item = Some b.
Proof.
  induction l as [|item l IH]; simpl.
  - split; [tauto | intros (? & [] & _)].
  - destruct (Z.eqb_spec (indexOf "image" (item_type item)) (-1)) as [E|E];
      simpl.
    + rewrite IH. split.
      * intros (i & Hi & H). exists i. tauto.
      * intros (i & [<-|Hi] & Ho & Hg); [|eauto].
        apply indexOf_absent in E. contradiction.
    + assert (Ho : occurs_in "image" (item_type item)).
      { destruct (first_at_or_absent "image" (item_type item))
          as [(p & q & [Ef _])|Hno].
        - now exists p, q.
        - apply indexOf_absent in Hno. contradiction. }
      destruct (getAsFile item) as [b0|] eqn:Hg.
      * simpl. rewrite IH. split.
        -- intros [<-|(i & Hi & H)]; [exists item; tauto | exists i; tauto].
        -- intros (i & [<-|Hi] & Ho' & Hg').
           ++ left. congruence.
           ++ right. eauto.
      * rewrite IH. split.
        -- intros (i & Hi & H). exists i. tauto.
        -- intros (i & [<-|Hi] & Ho' & Hg'); [congruence | eauto].
Qed.

(** X6. A paste is the same as one search trigger, in order, for every
    clipboard item whose type holds the text ["image"] and that has a
    file; the other items, and a paste without clipboard data, do
    nothing.  Each of these searches is a handler instance of its own with
    an object URL of its own, and makes its own attempt to connect when
    no handle is cached. *)
Theorem handlePaste_searches (v : Version)
    (items : option (list ClipboardItem)) (s : State) :
  mounted s = true ->
  let blobs := match items with Some l => pasted_images l | None => [] end in
  let s' := handlePaste createObjectURL v items s in
  run createObjectURL v s (map (fun b => TriggerSearch (Binary b)) blobs)
  = Some s'
  /\ nextId s' = nextId s + length blobs
  /\ minted s' = minted s + length blobs
  /\ (clientRef s = None ->
      connects (calls s') = connects (calls s) + length blobs)
  /\ (forall b, In b blobs <->
        exists l item, items = Some l /\ In item l
          /\ occurs_in "image" (item_type item) /\ getAsFile item = Some b).
Proof.
  intros Hm blobs s'.
  assert (Hrun : run createObjectURL v s
                   (map (fun b => TriggerSearch (Binary b)) blobs) = Some s').
  { unfold blobs, s'. destruct items as [l|]; [|reflexivity].
    now apply handlePaste_loop_run. }
  split; [exact Hrun|].
  destruct (searches_counters v blobs s s' Hm Hrun) as [H1 H2].
  split; [exact H1|]. split; [exact H2|]. split.
  - intros Hc.
    destruct (searches_connect_each createObjectURL v (map Binary blobs) s
                Hm Hc) as (s1 & Hrun1 & _ & Hn).
    rewrite map_map in Hrun1. rewrite Hrun in Hrun1. injection Hrun1 as <-.
    now rewrite length_map in Hn.
  - intros b. unfold blobs. destruct items as [l|].
    + rewrite pasted_images_spec. split.
      * intros (i & H). exists l, i. tauto.
      * intros (l' & i & [= <-] & H). exists i. tauto.
    + split; [intros [] | intros (l & i & E & _); discriminate].
Qed.

(** *** Who writes what *)

Lemma started_ui (v : Version) (s s' : State) (e : Event) :
  user_event e = true -> step createObjectURL v s e = Some s' ->
  results (ui s') = results (ui s) /\ stats (ui s') = stats (ui s)
  /\ examples (ui s') = examples (ui s)
  /\ (activeQuery (ui s') = activeQuery (ui s)
      \/ exists source, e = TriggerSearch source).
Proof.
  intros He Hs.
  assert (Hload : forall s0 : State,
            let s1 := loadResources v s0 in
            results (ui s1) = results (ui s0) /\ stats (ui s1) = stats (ui s0)
            /\ examples (ui s1) = examples (ui s0)
            /\ activeQuery (ui s1) = activeQuery (ui s0)).
  { intros s0. destruct (clientRef s0) as [c|] eqn:Hc.
    - rewrite (loadResources_cached _ _ c Hc). simpl. tauto.
    - rewrite (loadResources_uncached _ _ Hc). simpl. tauto. }
  destruct e as [|d|x| |k|source| |t o|t o|t o|t o]; try discriminate;
    simpl in Hs.
  - destruct (mounted s); [discriminate|]. injection Hs as <-.
    destruct (Hload (setMounted s)) as (H1 & H2 & H3 & H4). tauto.
  - destruct (mounted s); [|discriminate]. injection Hs as <-.
    unfold reconfigure. destruct (config_eqb _ _); [tauto|].
    destruct (Hload (setCfg {| dataset := d; size := size (cfg s);
                               isFinetuned := isFinetuned (cfg s) |} s))
      as (H1 & H2 & H3 & H4). tauto.
  - destruct (mounted s); [|discriminate]. injection Hs as <-.
    unfold reconfigure. destruct (config_eqb _ _); [tauto|].
    destruct (Hload (setCfg {| dataset := dataset (cfg s); size := x;
                               isFinetuned := isFinetuned (cfg s) |} s))
      as (H1 & H2 & H3 & H4). tauto.
  - destruct (mounted s); [|discriminate]. injection Hs as <-.
    unfold reconfigure. destruct (config_eqb _ _); [tauto|].
    destruct (Hload (setCfg {| dataset := dataset (cfg s);
                               size := size (cfg s);
                               isFinetuned := negb (isFinetuned (cfg s)) |} s))
      as (H1 & H2 & H3 & H4). tauto.
  - destruct (mounted s); [|discriminate]. injection Hs as <-. simpl. tauto.
  - destruct (mounted s); [|discriminate]. injection Hs as <-.
    destruct (handleSearch_begin_frame createObjectURL v source (spawn s))
      as (_ & _ & _ & _ & _ & H6 & H7 & H8).
    split; [|split; [|split; [|eauto]]];
      (destruct (clientRef s) as [c|] eqn:Hc;
       [ rewrite (handleSearch_cached _ _ _ _ c Hc)
       | rewrite (handleSearch_uncached _ _ _ _ Hc) ]);
      unfold handleSearch_predict, seq, suspend, call; cbn [ui];
      assumption.
  - destruct v; [discriminate|].
    destruct (mounted s && negb (isExamplesLoading (ui s)))%bool;
      [|discriminate].
    injection Hs as <-. unfold refreshExamples, seq.
    destruct (clientRef s) as [c|] eqn:Hc.
    + rewrite (refreshExamples_from_cached _ _ _ c) by exact Hc.
      simpl. tauto.
    + rewrite refreshExamples_from_uncached by exact Hc. simpl. tauto.
Qed.

(** X7. Each cell of the display has one writer.  [results] changes only
    when a search resolves, [stats] only when a load resolves, [examples]
    only when a call for examples resolves, and the preview only when a
    search is triggered; nothing else, and no failure, touches them.  In
    particular a change of configuration leaves all of them as they are:
    the data of the previous configuration stays on display. *)
Theorem display_cells_single_writer (v : Version) (s s' : State) (e : Event) :
  step createObjectURL v s e = Some s' ->
  (results (ui s') = results (ui s)
   \/ exists t data, e = SearchSettled t (Resolved data)
                     /\ results (ui s') = fst data)
  /\ (stats (ui s') = stats (ui s)
      \/ exists t data, e = LoadSettled t (Resolved data)
                        /\ stats (ui s') = parseStats (snd data))
  /\ (examples (ui s') = examples (ui s)
      \/ exists t data, e = ExamplesSettled t (Resolved data)
                        /\ examples (ui s') = default [] data)
  /\ (activeQuery (ui s') = activeQuery (ui s)
      \/ exists source, e = TriggerSearch source).
Proof.
  intros Hs. destruct (user_event e) eqn:He.
  { destruct (started_ui v s s' e He Hs) as (H1 & H2 & H3 & H4). tauto. }
  assert (Ha := settle_keeps_activeQuery createObjectURL v s s' e He Hs).
  destruct e as [| | | | | | |t o|t o|t o|t o]; try discriminate;
    simpl in Hs; destruct (tasks s !! t) as [k|]; try discriminate;
    simpl in Hs.
  - destruct k, o as [h|]; try discriminate; simpl in Hs;
      injection Hs as <-; repeat split; try (now left);
      left; destruct inLoad; reflexivity.
  - destruct k, o as [data|]; try discriminate; simpl in Hs;
      injection Hs as <-.
    + destruct (loadResources_resolved_ui createObjectURL v s t c data)
        as (_ & H2 & H3 & H4 & _).
      split; [now left|]. split; [right; eauto|]. split; now left.
    + repeat split; now left.
  - destruct k, o as [data|]; try discriminate; simpl in Hs;
      injection Hs as <-.
    + split; [now left|]. split; [now left|]. split; [right; eauto|].
      now left.
    + repeat split; now left.
    + split; [left; destruct inLoad; reflexivity|].
      split; [left; destruct inLoad; reflexivity|].
      split; [right; exists t, data; split; [reflexivity|]|now left].
      destruct inLoad; reflexivity.
    + repeat split; try (now left); left; destruct inLoad; reflexivity.
  - destruct k, o as [data|]; try discriminate; simpl in Hs;
      injection Hs as <-.
    + split; [right; eauto|]. repeat split; now left.
    + repeat split; now left.
Qed.

(** *** Changes of configuration *)

(** X8. Selecting the dataset or the size that is already selected changes
    nothing and starts no load; the weights toggle always asks for a
    configuration that differs. *)
Theorem reselect_is_noop (v : Version) (s : State) :
  mounted s = true ->
  step createObjectURL v s (SetDataset (dataset (cfg s))) = Some s
  /\ step createObjectURL v s (SetSize (size (cfg s))) = Some s
  /\ (forall c, requested ToggleFinetuned s = Some c ->
        config_eqb c (cfg s) = false).
Proof.
  intros Hm. simpl. rewrite Hm. unfold reconfigure.
  assert (E : forall c : Config,
            c = cfg s -> (if config_eqb c (cfg s) then s
                          else (setCfg c >> loadResources v) s) = s).
  { intros c ->. now rewrite config_eqb_refl. }
  split; [|split].
  - f_equal. apply E. now destruct (cfg s).
  - f_equal. apply E. now destruct (cfg s).
  - intros c [= <-]. unfold config_eqb. simpl.
    rewrite !String.eqb_refl. now destruct (isFinetuned (cfg s)).
Qed.


(** *** The request of a search *)

(** X10. A search submits the source and the K that it was triggered with: a
    change of K while the search waits for its connection does not change
    its request.  For an image reference the URL submitted is the one
    shown as preview, also when the image has no URL at all and both are
    the empty string. *)
Theorem search_request_fixed_at_trigger (v : Version) (s : State)
    (source : Source) (k' : Z) (c : Client) :
  mounted s = true -> clientRef s = None ->
  exists s',
    run createObjectURL v s
      [TriggerSearch source; SetTopK k';
       ConnectSettled (nextId s) (Resolved c)] = Some s'
    /\ topK s' = k'
    /\ calls s'
       = calls s ++ [Connect (nextId s);
                     Predict (nextId s) c
                       (ProcessImage (search_input source) (topK s))]
    /\ forall img, source = Reference img ->
         search_input source = InputHandleFile (getImageUrl (Some img))
         /\ activeQuery (ui s') = Some (getImageUrl (Some img)).
Proof.
  intros Hm Hc.
  destruct (handleSearch_begin_frame createObjectURL v source (spawn s))
    as (_ & H2 & H3 & _ & H5 & _).
  set (t := nextId s).
  set (s0 := handleSearch_begin createObjectURL v source (spawn s)) in *.
  set (s1 := suspend t (SearchConnecting source (topK s))
               (call (Connect t) s0)).
  assert (Hm0 : mounted s0 = true) by (destruct source; exact Hm).
  assert (E1 : step createObjectURL v s (TriggerSearch source) = Some s1).
  { simpl. rewrite Hm. f_equal. now apply handleSearch_uncached. }
  assert (E2 : step createObjectURL v s1 (SetTopK k')
               = Some (setTopK k' s1)).
  { assert (Hm1 : mounted s1 = true) by exact Hm0.
    unfold step. now rewrite Hm1. }
  assert (E3 : step createObjectURL v (setTopK k' s1)
                 (ConnectSettled t (Resolved c))
               = Some ((getGradioClient_connected c
                        >> handleSearch_predict t c source (topK s))
                         (setTopK k' s1))).
  { assert (Ht : tasks (setTopK k' s1) !! t
                  = Some (SearchConnecting source (topK s)))
      by apply lookup_insert_eq.
    unfold step. now rewrite Ht. }
  cbn [run]. rewrite E1. cbn [mbind option_bind]. rewrite E2.
  cbn [mbind option_bind]. rewrite E3. cbn [mbind option_bind].
  eexists. split; [reflexivity|].
  unfold handleSearch_predict, getGradioClient_connected, seq, suspend, call,
    setClientRef, setTopK, s1, suspend, call.
  cbn [topK calls ui]. rewrite H2, H5, <- app_assoc.
  split; [reflexivity|]. split; [reflexivity|].
  intros img ->. split; reflexivity.
Qed.

(** *** Flags are not counters *)

(** X11. The searching flag is a boolean shared by all searches: when one of
    two searches in flight settles, with either outcome, the flag is
    cleared although the other search is still in flight. *)
Theorem searching_flag_not_a_counter (v : Version) (s : State) (i j : nat)
    (k : Task) (o : Outcome (list GradioImage * string)) :
  tasks s !! i = Some k -> ends_search k = true ->
  tasks s !! j = Some SearchPredicting -> i <> j ->
  exists s',
    step createObjectURL v s (SearchSettled j o) = Some s'
    /\ isSearching (ui s') = false
    /\ tasks s' !! i = Some k.
Proof.
  intros Hi _ Hj Hne. rewrite (search_settled _ v s j o Hj).
  eexists. split; [reflexivity|].
  destruct o as [data|]; simpl; (split; [reflexivity|]);
    now rewrite lookup_delete_ne.
Qed.

End ControllerExtras.

(** ** The further properties, on the scenarios *)

(** X4. A labeled line whose value is a decimal numeral is decoded to the
    binary64 value nearest to the number the numeral writes (its digits
    as one integer, times ten to minus the number of digits after the
    dot), whatever lines of other fields surround it. *)
Theorem getNum_decimal_line (l : list (Field * string)) (f : Field)
    (ip fp : string) :
  Forall valid_value l -> is_percent f = true ->
  first_value f l = Some (ip ++ "." ++ fp)%string ->
  ip <> ""%string -> all_chars JS.is_digit ip = true ->
  all_chars JS.is_digit fp = true ->
  getNum (metrics_text l) (percent_re (field_name f))
  = JS.binary64 (inject_Z (Z.of_N (JS.digits_val 0 (ip ++ fp)%string))
                 * inject_Z 10 ^ (- Z.of_nat (String.length fp))).
Proof.
  intros Hl Hp Hf Hne Hip Hfp. unfold getNum.
  assert (E : percent_re (field_name f) = field_re f)
    by (unfold field_re; now rewrite Hp).
  rewrite E, (metrics_text_exec l f Hl), Hf.
  now apply parseFloat_decimal.
Qed.

Lemma getNum_decimal_line_witness :
  getNum (metrics_text [(TotalEmbeddings, "8131"%string);
                        (R1, ("91" ++ "." ++ "200")%string)])
    (percent_re (field_name R1))
  = JS.binary64 (inject_Z (Z.of_N (JS.digits_val 0 ("91" ++ "200")%string))
                 * inject_Z 10 ^ (- Z.of_nat (String.length "200"))).
Proof.
  apply (getNum_decimal_line
           [(TotalEmbeddings, "8131"%string);
            (R1, ("91" ++ "." ++ "200")%string)] R1 "91" "200");
    [repeat constructor; discriminate | reflexivity | reflexivity
    | discriminate | reflexivity | reflexivity].
Defined.

Lemma flags_have_owner_witness :
  exists t k, tasks searching_state !! t = Some k /\ ends_search k = true.
Proof.
  destruct (flags_have_owner objectURL Part000
              (ready "Loaded Cars196"
               ++ [TriggerSearch (Binary (BlobOf 1));
                   TriggerSearch (Reference sedan)])
              searching_state) as (_ & _ & H & _);
    [vm_compute; reflexivity|].
  apply H. vm_compute. reflexivity.
Defined.

Lemma settlements_bounded_witness :
  exists s',
    run objectURL Part000 searching_state
      [SearchSettled 2 Rejected; SearchSettled 1 (Resolved ([], ""%string))]
    = Some s'
    /\ 2 + potential (tasks s') <= potential (tasks searching_state).
Proof.
  destruct (run objectURL Part000 searching_state
              [SearchSettled 2 Rejected;
               SearchSettled 1 (Resolved ([], ""%string))])
    as [s'|] eqn:Hrun; [|vm_compute in Hrun; discriminate].
  exists s'. split; [reflexivity|].
  apply (settlements_bounded objectURL Part000
           [SearchSettled 2 Rejected;
            SearchSettled 1 (Resolved ([], ""%string))]);
    [repeat constructor | exact Hrun].
Defined.

Lemma connected_never_reconnects_witness :
  exists s',
    run objectURL Part000 searching_state [ClickRefresh; SetDataset "CUB"]
    = Some s'
    /\ connects (calls s') = connects (calls searching_state).
Proof.
  destruct (run objectURL Part000 searching_state
              [ClickRefresh; SetDataset "CUB"])
    as [s'|] eqn:Hrun; [|vm_compute in Hrun; discriminate].
  exists s'. split; [reflexivity|].
  apply (connected_never_reconnects objectURL Part000
           [ClickRefresh; SetDataset "CUB"] searching_state s' (Handle 1));
    [vm_compute; reflexivity | exact Hrun].
Defined.

Lemma one_attempt_per_instance_witness :
  exists s,
    run objectURL Part000 initial three_callers = Some s
    /\ forall t, attempts_of t (calls s) <= 1.
Proof.
  destruct (run objectURL Part000 initial three_callers)
    as [s|] eqn:Hrun; [|vm_compute in Hrun; discriminate].
  exists s. split; [reflexivity|].
  exact (one_attempt_per_instance objectURL Part000 three_callers s Hrun).
Defined.

Lemma predict_only_on_delivered_witness :
  delivered three_callers (Handle 2).
Proof.
  destruct (run objectURL Part000 initial three_callers)
    as [s|] eqn:Hrun; [|vm_compute in Hrun; discriminate].
  apply (predict_only_on_delivered objectURL Part000 three_callers s Hrun 1
           (Handle 2) (ProcessImage (InputBlob (BlobOf 1)) 10)).
  vm_compute in Hrun. injection Hrun as <-. simpl. tauto.
Defined.

Lemma handlePaste_searches_witness :
  nextId (handlePaste objectURL Part000
            (Some [ {| item_type := "text/plain"; getAsFile := None |};
                    {| item_type := "image/png";
                       getAsFile := Some (BlobOf 7) |} ])
            searching_state)
  = nextId searching_state + 1.
Proof.
  destruct (handlePaste_searches objectURL Part000
              (Some [ {| item_type := "text/plain"; getAsFile := None |};
                      {| item_type := "image/png";
                         getAsFile := Some (BlobOf 7) |} ])
              searching_state) as (_ & H & _);
    [vm_compute; reflexivity | exact H].
Defined.

Lemma display_cells_single_writer_witness :
  exists s',
    step objectURL Part000 searching_state
      (SearchSettled 1 (Resolved ([sedan], "Found 1 match"%string)))
    = Some s'
    /\ stats (ui s') = stats (ui searching_state)
    /\ examples (ui s') = examples (ui searching_state)
    /\ activeQuery (ui s') = activeQuery (ui searching_state).
Proof.
  destruct (step objectURL Part000 searching_state
              (SearchSettled 1 (Resolved ([sedan], "Found 1 match"%string))))
    as [s'|] eqn:Hs; [|vm_compute in Hs; discriminate].
  exists s'. split; [reflexivity|].
  destruct (display_cells_single_writer objectURL Part000 _ _ _ Hs)
    as (_ & [H2|(t & d & E & _)] & [H3|(t' & d' & E' & _)]
        & [H4|(src & E'')]);
    try discriminate.
  tauto.
Defined.

Lemma reselect_is_noop_witness :
  step objectURL Part000 searching_state
    (SetDataset (dataset (cfg searching_state)))
  = Some searching_state.
Proof.
  apply (reselect_is_noop objectURL Part000 searching_state).
  vm_compute. reflexivity.
Defined.


Lemma search_request_fixed_at_trigger_witness :
  exists s',
    run objectURL Part000 connecting_state
      [TriggerSearch (Reference sedan); SetTopK 25;
       ConnectSettled (nextId connecting_state) (Resolved (Handle 4))]
    = Some s'
    /\ topK s' = 25%Z
    /\ calls s'
       = calls connecting_state
         ++ [Connect (nextId connecting_state);
             Predict (nextId connecting_state) (Handle 4)
               (ProcessImage (search_input (Reference sedan))
                  (topK connecting_state))].
Proof.
  destruct (search_request_fixed_at_trigger objectURL Part000
              connecting_state (Reference sedan) 25 (Handle 4))
    as (s' & H & H1 & H2 & _);
    [vm_compute; reflexivity | vm_compute; reflexivity |].
  exists s'. repeat split; assumption.
Defined.

Lemma searching_flag_not_a_counter_witness :
  exists s',
    step objectURL Part000 searching_state (SearchSettled 2 Rejected)
    = Some s'
    /\ isSearching (ui s') = false
    /\ tasks s' !! 1 = Some SearchPredicting.
Proof.
  apply (searching_flag_not_a_counter objectURL Part000 searching_state 1 2
           SearchPredicting Rejected);
    [vm_compute; reflexivity | reflexivity | vm_compute; reflexivity | lia].
Defined.
